(** * mycroft-skills-kit: the skill scaffolder (msk/actions/create.py)

    A shallow embedding of [CreateAction]: the derived answers (intent
    identifier, entity sets, rendered README and handler stub), the
    templated scaffold pipeline [initialize_template] with its
    process-exit rollback hook, the commit step and the two remote
    repository operations.  Python strings are modelled as [string] over
    ASCII, the file system as a finite map from paths to nodes, and the
    effectful methods in a state-and-exception monad over the process
    state. *)

From Stdlib Require Import Ascii String.
From stdpp Require Import gmap strings list fin_maps sorting pretty.

Local Open Scope string_scope.

(** ** Characters *)

Definition nl : string := String "010"%char EmptyString.
Definition dq : string := String "034"%char EmptyString.
Definition sq : string := String "039"%char EmptyString.
(** The characters [str.strip()] removes: space, tab, newline, carriage
    return, vertical tab, form feed *)
Definition whitespace : string :=
  String " " (String "009" (String "010" (String "013"
    (String "011" (String "012" EmptyString))))).

Definition is_upper (c : ascii) : bool :=
  let n := nat_of_ascii c in (65 <=? n)%nat && (n <=? 90)%nat.
Definition is_lower (c : ascii) : bool :=
  let n := nat_of_ascii c in (97 <=? n)%nat && (n <=? 122)%nat.
Definition is_alpha (c : ascii) : bool := is_upper c || is_lower c.
Definition is_digit (c : ascii) : bool :=
  let n := nat_of_ascii c in (48 <=? n)%nat && (n <=? 57)%nat.

Definition to_upper (c : ascii) : ascii :=
  if is_lower c then ascii_of_nat (nat_of_ascii c - 32) else c.
Definition to_lower (c : ascii) : ascii :=
  if is_upper c then ascii_of_nat (nat_of_ascii c + 32) else c.

(** ** Python [str] methods, on ASCII text *)

Module Str.

Fixpoint map (f : ascii → ascii) (s : string) : string :=
  match s with
  | EmptyString => EmptyString
  | String c s' => String (f c) (map f s')
  end.

(** [s.upper()] and [s.lower()] *)
Definition upper : string → string := map to_upper.
Definition lower : string → string := map to_lower.

(** [s.capitalize()]: first character upper-cased, the rest lower-cased *)
Definition capitalize (s : string) : string :=
  match s with
  | EmptyString => EmptyString
  | String c s' => String (to_upper c) (lower s')
  end.

(** [s.title()]: a cased character is upper-cased when it follows an
    uncased one (or starts the string) and lower-cased otherwise *)
Fixpoint title_from (prev_cased : bool) (s : string) : string :=
  match s with
  | EmptyString => EmptyString
  | String c s' =>
      String (if prev_cased then to_lower c else to_upper c)
             (title_from (is_alpha c) s')
  end.
Definition title : string → string := title_from false.

(** [s.replace(a, b)] for one-character [a] and [b] *)
Definition replace (a b : ascii) : string → string :=
  map (λ c, if Ascii.eqb c a then b else c).

(** [s.split(sep)] for a one-character separator; never returns [[]] *)
Fixpoint split (sep : ascii) (s : string) : list string :=
  match s with
  | EmptyString => [EmptyString]
  | String c s' =>
      if Ascii.eqb c sep then EmptyString :: split sep s'
      else match split sep s' with
           | [] => [String c EmptyString]
           | t :: ts => String c t :: ts
           end
  end.

(** [sep.join(l)] *)
Fixpoint join (sep : string) (l : list string) : string :=
  match l with
  | [] => EmptyString
  | [x] => x
  | x :: xs => x +:+ sep +:+ join sep xs
  end.

(** [c in s] for a character [c] *)
Fixpoint mem (c : ascii) (s : string) : bool :=
  match s with
  | EmptyString => false
  | String d s' => Ascii.eqb c d || mem c s'
  end.

Fixpoint lstrip (chars : string) (s : string) : string :=
  match s with
  | EmptyString => EmptyString
  | String c s' => if mem c chars then lstrip chars s' else s
  end.

Fixpoint rstrip (chars : string) (s : string) : string :=
  match s with
  | EmptyString => EmptyString
  | String c s' =>
      match rstrip chars s' with
      | EmptyString => if mem c chars then EmptyString else String c EmptyString
      | r => String c r
      end
  end.

(** [s.strip(chars)] *)
Definition strip (chars : string) (s : string) : string :=
  rstrip chars (lstrip chars s).

Fixpoint all (p : ascii → bool) (s : string) : bool :=
  match s with
  | EmptyString => true
  | String c s' => p c && all p s'
  end.

(** [s.isdigit()]: non-empty and made of digits only *)
Definition isdigit (s : string) : bool :=
  match s with
  | EmptyString => false
  | _ => all is_digit s
  end.

(** [int(s)] for a string of decimal digits *)
Fixpoint int_from (acc : Z) (s : string) : Z :=
  match s with
  | EmptyString => acc
  | String c s' => int_from (10 * acc + (Z.of_nat (nat_of_ascii c) - 48)) s'
  end.
Definition int : string → Z := int_from 0.

End Str.

(** ** The intent identifier *)

(** [intent_name = Lazy(lambda s: '.'.join(reversed(s.name.split('-'))))] *)
Definition intent_name (name : string) : string :=
  Str.join "." (rev (Str.split "-" name)).

(** The name prompt's normalisation of the raw answer:
    [.strip(' -').lower().replace(' ', '-')] *)
Definition normalize_name (raw : string) : string :=
  Str.replace " " "-" (Str.lower (Str.strip " -" raw)).

(** ** Entity extraction

    [re.findall(r'(?<={)[a-z_A-Z]*(?=})', text)].  A match starts right
    after an opening brace, takes the longest run of letters and
    underscores, and needs a closing brace next.  Backtracking to a shorter
    run never helps (the next character would be a letter, not a closing
    brace), and no match can start inside an earlier one (no position there
    follows an opening brace), so scanning every position in turn yields
    the matches [findall] returns, in order. *)

Definition is_ident (c : ascii) : bool :=
  is_alpha c || Ascii.eqb c "_".

Fixpoint ident_run (s : string) : string * string :=
  match s with
  | String c s' =>
      if is_ident c then let '(r, t) := ident_run s' in (String c r, t)
      else (EmptyString, s)
  | EmptyString => (EmptyString, EmptyString)
  end.

Definition match_here (prev : option ascii) (s : string) : option string :=
  match prev with
  | Some "{"%char =>
      match ident_run s with
      | (r, String "}" _) => Some r
      | _ => None
      end
  | _ => None
  end.

Fixpoint findall_from (prev : option ascii) (s : string) : list string :=
  let here := match match_here prev s with Some m => [m] | None => [] end in
  match s with
  | EmptyString => here
  | String c s' => here ++ findall_from (Some c) s'
  end.

Definition findall (text : string) : list string := findall_from None text.

(** [set(re.findall(..., '\n'.join(lines)))] *)
Definition entities (lines : list string) : gset string :=
  list_to_set (findall (Str.join nl lines)).

(** [sorted(X)] for a set of strings: Python orders [str] by code point *)
Definition str_le (a b : string) : Prop := String.leb a b = true.
#[global] Instance str_le_dec : RelDecision str_le :=
  λ a b, decide (String.leb a b = true).
Definition sorted (X : gset string) : list string :=
  merge_sort str_le (elements X).

(** Truthiness of a set, [bool(X)] *)
Definition truthy (X : gset string) : bool := bool_decide (X ≠ ∅).

(** [l * b] for a list [l] and a boolean [b] *)
Definition times {A} (l : list A) (b : bool) : list A := if b then l else [].
(** [s * b] for a string [s] and a boolean [b] *)
Definition stimes (s : string) (b : bool) : string := if b then s else "".

(** ** Prompt validators *)

Inductive exn : Type :=
  | KeyboardInterrupt
  | IndexError
  | FileExistsError (p : list string)
  | FileNotFoundError (p : list string)
  | NotADirectoryError (p : list string)
  | IsADirectoryError (p : list string)
  | SameFileError (p : list string)
  | GitCommandNotFound
  | GitCommandError (status : Z)
  | GithubException (status : Z)
  | GithubRepoExists (repo_name : string) (cause : exn)
  | UnrelatedGithubHistory (repo_name : string) (cause : exn).

Inductive result (A : Type) : Type :=
  | Ok (a : A)
  | Raise (e : exn).
Arguments Ok {A} a.
Arguments Raise {A} e.

(** [x[0]]: indexing a string at 0 *)
Definition str_head (x : string) : result string :=
  match x with
  | EmptyString => Raise IndexError
  | String c _ => Ok (String c EmptyString)
  end.

(** The color prompt's [validator=lambda x: "#" in x[0]] *)
Definition color_validator (x : string) : result bool :=
  match str_head x with
  | Ok h => Ok (Str.mem "#" h)
  | Raise e => Raise e
  end.

(** The name prompt's [lambda x: re.match(r'^[a-zA-Z \-]+$', x)]: one
    or more letters, spaces and hyphens up to the end, where [$] also
    matches just before a line break that ends the string *)
Definition name_char (c : ascii) : bool :=
  is_alpha c || Ascii.eqb c " " || Ascii.eqb c "-".
Fixpoint name_rest (x : string) : bool :=
  match x with
  | EmptyString => true
  | String c EmptyString => name_char c || Ascii.eqb c "010"
  | String c x' => name_char c && name_rest x'
  end.
Definition name_validator (x : string) : bool :=
  match x with
  | EmptyString => false
  | String c x' => name_char c && name_rest x'
  end.

Definition category_options : list string :=
  ["Daily"; "Configuration"; "Entertainment"; "Information"; "IoT";
   "Music & Audio"; "Media"; "Productivity"; "Transport"].

(** The category prompt's [lambda x: x in s.category_options] *)
Definition category_validator (x : string) : bool :=
  bool_decide (x ∈ category_options).

(** ** Answers

    The values the prompts returned ([ask_input], [ask_input_lines]) and
    the fields of the global context; the [Lazy] attributes derived from
    them are the functions below. *)

Abbreviation fspath := (list string).

Record answers : Type := {
  name : string;
  lang : string;
  skills_dir : fspath;
  ask_short_description : string;
  ask_author : string;
  ask_intent_lines : list string;
  ask_dialog_lines : list string;
  ask_long_description : list string;
  ask_icon : string;
  ask_color : string;
  ask_category_primary : string;
  ask_categories_other : list string;
  ask_tags : list string
}.

Definition cat (l : list string) : string := foldr String.append EmptyString l.
Definition unlines (l : list string) : string := cat ((λ x, x +:+ nl) <$> l).

Section Answers.

(** [msk.util.to_camel] is not part of the sources at hand *)
Variable to_camel : string → string.
(** The order in which the interpreter iterates over a set of strings; it
    varies from one process to the next with the hash seed *)
Variable iter : gset string → list string.
Variable s : answers.

(** [path = Lazy(lambda s: join(s.msm.skills_dir, s.name + '-skill'))] *)
Definition path : fspath := (skills_dir s ++ [name s +:+ "-skill"])%list.

Definition short_description : string :=
  Str.capitalize (ask_short_description s).
Definition author : string := ask_author s.
Definition intent_lines : list string :=
  Str.capitalize <$> ask_intent_lines s.
Definition dialog_lines : list string :=
  Str.capitalize <$> ask_dialog_lines s.
Definition intent_entities : gset string := entities intent_lines.
Definition dialog_entities : gset string := entities dialog_lines.
Definition long_description : string :=
  Str.capitalize
    (Str.strip whitespace (Str.join (nl +:+ nl) (ask_long_description s))).
Definition icon : string := ask_icon s.
Definition color : string := ask_color s.
Definition category_primary : string := ask_category_primary s.
Definition categories_other : list string :=
  Str.capitalize <$> ask_categories_other s.
Definition tags : list string := Str.capitalize <$> ask_tags s.

Definition credits : string :=
  unlines ["## Credits"; author].

(** [readme_template.format(...)] *)
Definition readme : string :=
  unlines [
    cat ["# <img src="; dq;
         "https://raw.githack.com/FortAwesome/Font-Awesome/master/svgs/solid/";
         icon; ".svg"; dq; " card_color="; dq; Str.upper color; dq;
         " width="; dq; "50"; dq; " height="; dq; "50"; dq;
         " style="; dq; "vertical-align:bottom"; dq; "/> ";
         Str.title (Str.replace "-" " " (name s))];
    short_description;
    "";
    "## About";
    long_description;
    "";
    "## Examples";
    cat ((λ i, cat ["* "; dq; i; dq; nl]) <$> intent_lines);
    credits;
    "## Category";
    cat ["**"; category_primary; "**"];
    cat ((λ i, i +:+ nl) <$> categories_other);
    "## Tags";
    cat ((λ i, cat ["#"; i; nl]) <$> tags)
  ].

(** The lines joined into [handler_code], before indentation.  The
    bindings follow [sorted(...)]; the entries of the [data] dictionary
    follow the iteration order of the set. *)
Definition handler_lines : list string :=
  let both := dialog_entities ∪ intent_entities in
  ((λ ent, cat [ent; " = message.data.get("; sq; ent; sq; ")"])
     <$> sorted intent_entities)
  ++ ((λ ent, cat [ent; " = "; sq; sq])
        <$> sorted (dialog_entities ∖ intent_entities))
  ++ times [""] (truthy both)
  ++ Str.split "010"
       (cat ["self.speak_dialog("; sq; intent_name (name s); sq;
             stimes
               (cat [", data={"; nl;
                     Str.join ("," +:+ nl)
                       ((λ ent, cat ["    "; sq; ent; sq; ": "; ent])
                          <$> iter both);
                     nl; "}"])
               (truthy both);
             ")"]).

(** [' ' * 8 * bool(i) + i] *)
Definition indent (i : string) : string :=
  stimes "        " (negb (String.eqb i "")) +:+ i.

Definition handler_code : string := Str.join nl (indent <$> handler_lines).

(** [init_template.format(...)] *)
Definition init_file : string :=
  unlines [
    "from mycroft import MycroftSkill, intent_file_handler";
    "";
    "";
    cat ["class "; to_camel (Str.replace "-" "_" (name s)); "(MycroftSkill):"];
    "    def __init__(self):";
    "        MycroftSkill.__init__(self)";
    "";
    cat ["    @intent_file_handler("; sq; intent_name (name s); ".intent"; sq; ")"];
    cat ["    def handle_"; Str.replace "." "_" (intent_name (name s));
         "(self, message):"];
    handler_code;
    "";
    "";
    "def create_skill():";
    cat ["    return "; to_camel (Str.replace "-" "_" (name s)); "()"];
    ""
  ].

End Answers.

Definition gitignore_template : string :=
  unlines ["__pycache__/"; "*.qmlc"; "settings.json"; ""].

Definition settingsmeta_template : string :=
  unlines [
    "";
    "skillMetadata:";
    "  sections:";
    "    - name: Options << Name of section";
    "      fields:";
    "        - name: internal_python_variable_name";
    "          type: text";
    "          label: Setting Friendly Display Name";
    cat ["          value: "; dq; dq];
    "          placeholder: demo prompt in the input box";
    "    - name: Login << Name of another section";
    "      fields:";
    "        - type: label";
    "          label: Just a little bit of extra info for the user to understand following settings";
    "        - name: username";
    "          type: text";
    "          label: Username";
    cat ["          value: "; dq; dq];
    "        - name: password";
    "          type: password";
    "          label: Password";
    cat ["          value: "; dq; dq]
  ].

(** ** The process: file system, exit hooks, hosting service

    A path is the list of its components below the file-system root.  The
    version-control metadata directory carries the repository it stores:
    the messages of its commits (newest first) and its remotes. *)

Inductive node : Type :=
  | File (content : string)
  | Dir
  | GitDir (history : list string) (remotes : list (string * string)).

Inductive event : Type :=
  | EvPrint (text : string)
  | EvPrompt (message reply : string)
  | EvMkdir (p : fspath)
  | EvWrite (p : fspath) (content : string)
  | EvRmtree (p : fspath)
  | EvGit (command : list string)
  | EvCreateRepo (repo_name description : string).

(** A registered exit function: the [cleanup] closure of one call of
    [initialize_template], identified by the call, with the path it
    captured. *)
Record exitfunc : Type := Cleanup { closure_id : nat; captured : fspath }.

Record proc : Type := Proc {
  fs : gmap fspath node;
  exitfuncs : list exitfunc;       (* atexit registry, oldest first *)
  closures : nat;                  (* function objects created so far *)
  hosted : gset string;            (* repositories of the hosting account *)
  out : list event;                (* what the run did, newest first *)
  budget : option nat              (* effects left before an interrupt *)
}.

Definition set_fs (f : gmap fspath node → gmap fspath node) (st : proc) : proc :=
  Proc (f (fs st)) (exitfuncs st) (closures st) (hosted st) (out st) (budget st).
Definition set_exitfuncs (f : list exitfunc → list exitfunc) (st : proc) : proc :=
  Proc (fs st) (f (exitfuncs st)) (closures st) (hosted st) (out st) (budget st).
Definition set_closures (n : nat) (st : proc) : proc :=
  Proc (fs st) (exitfuncs st) n (hosted st) (out st) (budget st).
Definition set_hosted (f : gset string → gset string) (st : proc) : proc :=
  Proc (fs st) (exitfuncs st) (closures st) (f (hosted st)) (out st) (budget st).
Definition emit (e : event) (st : proc) : proc :=
  Proc (fs st) (exitfuncs st) (closures st) (hosted st) (e :: out st) (budget st).
Definition set_budget (b : option nat) (st : proc) : proc :=
  Proc (fs st) (exitfuncs st) (closures st) (hosted st) (out st) b.

(** *** State-and-exception monad: a raised exception keeps the effects
    performed before it *)

Definition M (A : Type) : Type := proc → result A * proc.

Definition ret {A} (a : A) : M A := λ st, (Ok a, st).
Definition raise {A} (e : exn) : M A := λ st, (Raise e, st).
Definition bind {A B} (m : M A) (k : A → M B) : M B :=
  λ st, match m st with
        | (Ok a, st') => k a st'
        | (Raise e, st') => (Raise e, st')
        end.
Definition gets {A} (f : proc → A) : M A := λ st, (Ok (f st), st).
Definition modify (f : proc → proc) : M unit := λ st, (Ok tt, f st).
(** [try: m  except <class h accepts> as e: h e] *)
Definition try_except {A} (m : M A) (h : exn → option (M A)) : M A :=
  λ st, match m st with
        | (Ok a, st') => (Ok a, st')
        | (Raise e, st') =>
            match h e with
            | Some k => k st'
            | None => (Raise e, st')
            end
        end.

Declare Scope proc_scope.
Delimit Scope proc_scope with proc.
Notation "x <- m ;; k" := (bind m (λ x, k))
  (at level 100, m at next level, right associativity) : proc_scope.
Notation "m ;; k" := (bind m (λ _, k))
  (at level 100, right associativity) : proc_scope.
Local Open Scope proc_scope.

Definition when (b : bool) (m : M unit) : M unit := if b then m else ret tt.

(** [for x in l: body x] *)
Fixpoint for_each {A} (l : list A) (body : A → M unit) : M unit :=
  match l with
  | [] => ret tt
  | x :: xs => body x ;; for_each xs body
  end.

(** One effect: an external interruption (Ctrl-C at a prompt, a signal)
    is delivered as [KeyboardInterrupt] once the budget is used up;
    [budget = None] is an undisturbed run. *)
Definition tick : M unit :=
  λ st, match budget st with
        | None => (Ok tt, st)
        | Some 0 => (Raise KeyboardInterrupt, st)
        | Some (S n) => (Ok tt, set_budget (Some n) st)
        end.

Definition print (text : string) : M unit := modify (emit (EvPrint text)).

(** *** File system ([os], [os.path], [shutil]) *)

Definition node_at (m : gmap fspath node) (p : fspath) : option node :=
  match p with
  | [] => Some Dir
  | _ => m !! p
  end.

Definition is_dir_node (n : option node) : bool :=
  match n with
  | Some Dir | Some (GitDir _ _) => true
  | _ => false
  end.

Definition exists_ (p : fspath) : M bool :=
  gets (λ st, bool_decide (is_Some (node_at (fs st) p))).
Definition isdir (p : fspath) : M bool :=
  gets (λ st, is_dir_node (node_at (fs st) p)).

Definition dirname (p : fspath) : fspath := removelast p.
Definition basename (p : fspath) : string := List.last p "".

(** [os.mkdir(p)] *)
Definition mkdir (p : fspath) : M unit :=
  tick ;;
  here <- exists_ p ;;
  up <- gets (λ st, node_at (fs st) (dirname p)) ;;
  if here then raise (FileExistsError p)
  else match up with
       | None => raise (FileNotFoundError p)
       | Some (File _) => raise (NotADirectoryError p)
       | Some _ => modify (set_fs (insert p Dir)) ;; modify (emit (EvMkdir p))
       end.

(** The non-empty proper prefixes of a path, shortest first *)
Fixpoint ancestors_from (base : fspath) (p : fspath) : list fspath :=
  match p with
  | [] | [_] => []
  | c :: p' => (base ++ [c])%list :: ancestors_from (base ++ [c])%list p'
  end.

(** [os.makedirs(p)]: the missing ancestors, then [p] itself *)
Definition makedirs (p : fspath) : M unit :=
  for_each (ancestors_from [] p)
    (λ q, there <- exists_ q ;; when (negb there) (mkdir q)) ;;
  mkdir p.

(** [open(p, 'w')]: the file is there, and empty, once it is open *)
Definition open_w (p : fspath) : M unit :=
  tick ;;
  here <- gets (λ st, node_at (fs st) p) ;;
  up <- gets (λ st, node_at (fs st) (dirname p)) ;;
  if is_dir_node here then raise (IsADirectoryError p)
  else match up with
       | None => raise (FileNotFoundError p)
       | Some (File _) => raise (NotADirectoryError p)
       | Some _ => modify (set_fs (insert p (File "")))
       end.

(** [f.write(content)] on the file opened at [p], up to the end of the
    [with] block that closes it *)
Definition f_write (p : fspath) (content : string) : M unit :=
  modify (set_fs (insert p (File content))) ;;
  modify (emit (EvWrite p content)).

(** [with open(p, 'w') as f: f.write(content)] for a [content] at hand *)
Definition write_file (p : fspath) (content : string) : M unit :=
  tick ;;
  here <- gets (λ st, node_at (fs st) p) ;;
  up <- gets (λ st, node_at (fs st) (dirname p)) ;;
  if is_dir_node here then raise (IsADirectoryError p)
  else match up with
       | None => raise (FileNotFoundError p)
       | Some (File _) => raise (NotADirectoryError p)
       | Some _ =>
           modify (set_fs (insert p (File content))) ;;
           modify (emit (EvWrite p content))
       end.

(** [shutil.copy(src, dst)] *)
Definition copy (src dst : fspath) : M unit :=
  into <- isdir dst ;;
  let dst := if into then (dst ++ [basename src])%list else dst in
  from <- gets (λ st, node_at (fs st) src) ;;
  match from with
  | None => raise (FileNotFoundError src)
  | Some n =>
      if bool_decide (src = dst) then raise (SameFileError src)
      else match n with
           | File content => write_file dst content
           | _ => raise (IsADirectoryError src)
           end
  end.

(** [shutil.rmtree(p)] *)
Definition rmtree (p : fspath) : M unit :=
  tick ;;
  at_p <- gets (λ st, node_at (fs st) p) ;;
  match at_p with
  | None => raise (FileNotFoundError p)
  | Some (File _) => raise (NotADirectoryError p)
  | Some _ =>
      modify (set_fs (filter (λ kv, ¬ p `prefix_of` kv.1))) ;;
      modify (emit (EvRmtree p))
  end.

(** *** [atexit] *)

Definition atexit_register (f : exitfunc) : M unit :=
  modify (set_exitfuncs (λ l, (l ++ [f])%list)).

(** [atexit.unregister(f)] drops every registration of that function
    object *)
Definition atexit_unregister (id : nat) : M unit :=
  modify (set_exitfuncs (filter (λ f, closure_id f ≠ id))).

(** Calling one exit function; the interpreter reports and drops what it
    raises *)
Definition call_exitfunc (f : exitfunc) (st : proc) : proc :=
  snd (rmtree (captured f) st).

(** Interpreter shutdown: the exit functions run, last registered first.
    One interruption per run is modelled, so they run undisturbed. *)
Definition process_exit (st : proc) : proc :=
  foldr call_exitfunc (set_budget None st) (exitfuncs st).

(** ** The collaborators of one run

    What the user types and what the external tools answer: the license
    files [get_licenses()] finds, the replies to the license and yes/no
    prompts, the exit status of a failing version-control command, a
    failure of the hosting service unrelated to the request, and the order
    in which this process iterates over a set of strings. *)

Record world : Type := {
  get_licenses : list fspath;
  license_choice : string;
  yes_no : string → bool → bool;
  git_fault : list string → option Z;
  api_fault : option Z;
  html_url : string → string;
  set_iter : gset string → list string
}.

(** [list[i]] with Python's negative indices *)
Definition py_index {A} (l : list A) (i : Z) : result A :=
  let n := Z.of_nat (length l) in
  let j := if (i <? 0)%Z then (i + n)%Z else i in
  if (0 <=? j)%Z && (j <? n)%Z then
    match l !! Z.to_nat j with
    | Some x => Ok x
    | None => Raise IndexError
    end
  else Raise IndexError.

Definition lift {A} (r : result A) : M A :=
  match r with
  | Ok a => ret a
  | Raise e => raise e
  end.

(** [os.path.splitext] on a file name: the extension starts at the last
    dot, unless only dots precede it *)
Fixpoint splitext_aux (lead : bool) (s : string) : option string :=
  match s with
  | EmptyString => None
  | String c s' =>
      let dot := Ascii.eqb c "." in
      match splitext_aux (lead && dot) s' with
      | Some r => Some (String c r)
      | None => if dot && negb lead then Some EmptyString else None
      end
  end.
Definition splitext_root (s : string) : string :=
  default s (splitext_aux true s).

Definition pretty_license (pth : fspath) : string :=
  Str.replace "-" " " (splitext_root (basename pth)).

(** The escape sequences of [colorama] that the prompts use *)
Record colorama : Type := {
  Fore_BLUE : string;
  Fore_YELLOW : string;
  Fore_RED : string;
  Style_BRIGHT : string;
  Style_RESET_ALL : string
}.

Section Scaffold.

Variable to_camel : string → string.
Variable s : answers.
Variable w : world.

Let root : fspath := path s.

(** [msk.util.ask_input] and [ask_yes_no] are not among the sources; the
    specification treats them as a black box that asks until the answer is
    valid.  Here a prompt is one effect that hands back the answer the
    user ends up giving. *)
Definition ask_input (message reply : string) : M string :=
  tick ;; modify (emit (EvPrompt message reply)) ;; ret reply.

Definition ask_yes_no (message : string) (default : bool) : M bool :=
  let reply := yes_no w message default in
  tick ;;
  modify (emit (EvPrompt message (if reply then "y" else "n"))) ;;
  ret reply.

(** Modelled from the spec: the loop of [msk.util.ask_input] around its
    validator.  The spec has a prompt "validate input against a predicate
    and loop, re-prompting with an explanatory message, until the
    predicate holds", an error response being treated "identically to a
    failed local predicate", with "no retry limit (runs until valid input
    or process interruption)".  [replies] is what the user types, answer
    after answer; a user who stops answering interrupts the process. *)
Fixpoint ask_input_until (message : string) (validator : string → result bool)
    (on_fail : string) (replies : list string) : M string :=
  match replies with
  | [] => raise KeyboardInterrupt
  | reply :: replies =>
      tick ;;
      modify (emit (EvPrompt message reply)) ;;
      match validator reply with
      | Ok true => ret reply
      | _ => print on_fail ;; ask_input_until message validator on_fail replies
      end
  end.

(** The prompt behind [color]:
    [ask_input("Pick a ...", validator=lambda x: "#" in x[0], on_fail=...)] *)
Definition color_message (k : colorama) : string :=
  let blue := Fore_BLUE k +:+ Style_BRIGHT k in
  let yellow := Fore_YELLOW k in
  let reset := Style_RESET_ALL k in
  cat ["Pick a "; yellow; "color"; reset;
       " for your icon. Find a color that matches the color scheme at ";
       blue; "mycroft.ai/colors"; reset; ", or pick a color at: ";
       blue; "color-hex.com."; reset; nl;
       "Enter the color hex code (including the #):"].
Definition color_on_fail (k : colorama) : string :=
  let red := Fore_RED k +:+ Style_BRIGHT k in
  cat [nl; red; "Check that you entered the #, and try again.";
       Style_RESET_ALL k; nl].
Definition color_prompt (k : colorama) (replies : list string) : M string :=
  ask_input_until (color_message k) color_validator (color_on_fail k) replies.

(** *** The version-control tool, run in the project directory *)

Definition repo_path : fspath := (root ++ [".git"])%list.

Definition in_workdir {A} (m : M A) : M A :=
  tick ;;
  there <- isdir root ;;
  if there then m else raise GitCommandNotFound.

(** A command that raises [GitCommandError] with the exit status when
    the tool fails *)
Definition git_cmd {A} (command : list string) (m : M A) : M A :=
  in_workdir
    (match git_fault w command with
     | Some status => raise (GitCommandError status)
     | None => modify (emit (EvGit command)) ;; m
     end).

(** A command that needs a repository: status 128 without one *)
Definition with_repo {A}
    (k : list string → list (string * string) → M A) : M A :=
  r <- gets (λ st, fs st !! repo_path) ;;
  match r with
  | Some (GitDir history remotes) => k history remotes
  | _ => raise (GitCommandError 128)
  end.

Definition render (p : fspath) : string := "/" +:+ Str.join "/" p.

(** [git.init()] answers with the tool's message *)
Definition git_init : M string :=
  git_cmd ["init"]
    (r <- gets (λ st, fs st !! repo_path) ;;
     match r with
     | Some (GitDir _ _) =>
         ret (cat ["Reinitialized existing Git repository in ";
                   render repo_path; "/"])
     | Some _ => raise (GitCommandError 128)
     | None =>
         modify (set_fs (insert repo_path (GitDir [] []))) ;;
         ret (cat ["Initialized empty Git repository in ";
                   render repo_path; "/"])
     end).

(** The name of a commit: forty hexadecimal digits *)
Definition hex_digit (n : nat) : ascii :=
  ascii_of_nat (if (n <? 10)%nat then 48 + n else 87 + n).
Fixpoint hex (digits n : nat) : string :=
  match digits with
  | O => EmptyString
  | S d => hex d (n / 16) +:+ String (hex_digit (n mod 16)) EmptyString
  end.
Definition object_name (history : list string) : string :=
  hex 40 (length history).

(** [git.rev_parse('HEAD', with_exceptions=False)]: the tool's standard
    output whatever its exit status; without commits it echoes the
    argument *)
Definition git_rev_parse_HEAD : M string :=
  in_workdir
    (modify (emit (EvGit ["rev-parse"; "HEAD"])) ;;
     r <- gets (λ st, fs st !! repo_path) ;;
     ret match r with
         | Some (GitDir [] _) => "HEAD"
         | Some (GitDir history _) => object_name history
         | _ => ""
         end).

Definition git_add (what : string) : M unit :=
  git_cmd ["add"; what] (with_repo (λ _ _, ret tt)).

Definition git_commit (message : string) : M unit :=
  git_cmd ["commit"; "-m"; message]
    (with_repo (λ history remotes,
       modify (set_fs (insert repo_path (GitDir (message :: history) remotes))))).

(** [Git(self.path).remote()]: the remote names, one per line *)
Definition git_remote : M string :=
  git_cmd ["remote"]
    (with_repo (λ _ remotes, ret (Str.join nl (fst <$> remotes)))).

Definition git_remote_add (remote url : string) : M unit :=
  git_cmd ["remote"; "add"; remote; url]
    (with_repo (λ history remotes,
       modify (set_fs (insert repo_path
                         (GitDir history (remotes ++ [(remote, url)])%list))))).

Definition git_fetch : M unit :=
  git_cmd ["fetch"] (with_repo (λ _ _, ret tt)).
Definition git_pull (remote branch : string) : M unit :=
  git_cmd ["pull"; remote; branch] (with_repo (λ _ _, ret tt)).
Definition git_push (flags : list string) (remote branch : string) : M unit :=
  git_cmd (["push"] ++ flags ++ [remote; branch])%list
    (with_repo (λ _ _, ret tt)).

(** [subprocess.call(['git', 'push', '-u', 'origin', 'master'], cwd=...)]:
    the exit status is returned, not raised, and the caller drops it *)
Definition call_git_push : M unit :=
  in_workdir (modify (emit (EvGit ["push"; "-u"; "origin"; "master"]))).

(** *** The hosting service *)

Definition hosting {A} (m : M A) : M A :=
  tick ;;
  match api_fault w with
  | Some status => raise (GithubException status)
  | None => m
  end.

(** [self.user.create_repo(name, description)] answers 422 when the
    name is taken *)
Definition user_create_repo (repo_name description : string) : M string :=
  hosting
    (taken <- gets (λ st, bool_decide (repo_name ∈ hosted st)) ;;
     if taken then raise (GithubException 422)
     else
       modify (set_hosted (union {[repo_name]})) ;;
       modify (emit (EvCreateRepo repo_name description)) ;;
       ret (html_url w repo_name)).

(** [self.user.get_repo(name)] answers 404 for an unknown name *)
Definition user_get_repo (repo_name : string) : M string :=
  hosting
    (known <- gets (λ st, bool_decide (repo_name ∈ hosted st)) ;;
     if known then ret (html_url w repo_name)
     else raise (GithubException 404)).

(** *** The scaffold *)

(** Reading a [Lazy] answer: the first read runs its producer, which may
    ask the user *)
Definition read_lazy {A} (a : A) : M A := tick ;; ret a.

(** The file is opened before [self.intent_lines] is read *)
Definition add_vocab : M unit :=
  makedirs (root ++ ["vocab"; lang s])%list ;;
  let f := (root ++ ["vocab"; lang s; intent_name (name s) +:+ ".intent"])%list in
  open_w f ;;
  lines <- read_lazy (intent_lines s) ;;
  f_write f (Str.join nl (lines ++ [""])%list).

Definition add_dialog : M unit :=
  makedirs (root ++ ["dialog"; lang s])%list ;;
  let f := (root ++ ["dialog"; lang s; intent_name (name s) +:+ ".dialog"])%list in
  open_w f ;;
  lines <- read_lazy (dialog_lines s) ;;
  f_write f (Str.join nl (lines ++ [""])%list).

Definition license_path : fspath := (root ++ ["LICENSE.md"])%list.

(** Ask user to select a license for the repo. *)
Definition license : M unit :=
  let license_files := get_licenses w in
  print ("For uploading a skill a license is required." +:+ nl +:+
         "Choose one of the licenses listed below or add one later." +:+ nl) ;;
  for_each (zip (seq 1 (length license_files)) license_files)
    (λ '(num, pth), print (cat [pretty num; ": "; pretty_license pth])) ;;
  choice <- ask_input "Choose license above or press Enter to skip?"
                      (license_choice w) ;;
  when (Str.isdigit choice)
    (let index := (Str.int choice - 1)%Z in
     src <- lift (py_index license_files index) ;;
     copy src license_path ;;
     print (nl +:+ "Some of these require that you insert the project name "
            +:+ "and/or author" +:+ sq +:+ "s name. Please check the license file and "
            +:+ "add the appropriate information." +:+ nl)).

(** A content producer: an action, or text to be written ([None] stands
    for a result that is not a [str]).  Reading a [Lazy] answer may ask
    the user, hence the effect. *)
Definition text (body : string) : M (option string) :=
  tick ;; ret (Some body).
Definition action (m : M unit) : M (option string) :=
  m ;; ret None.

Definition skill_template : list (string * M (option string)) :=
  [ ("", action (makedirs root));
    ("vocab", action add_vocab);
    ("dialog", action add_dialog);
    ("__init__.py", text (init_file to_camel (set_iter w) s));
    ("README.md", text (readme s));
    ("LICENSE.md", action license);
    (".gitignore", text gitignore_template);
    ("settingsmeta.yaml", text settingsmeta_template);
    (".git", r <- git_init ;; ret (Some r)) ].

(** [exists(join(self.path, file))]; for the first entry the joined path
    ends in a separator, which only a directory answers to *)
Definition entry_exists (file : string) : M bool :=
  if String.eqb file "" then isdir root
  else exists_ (root ++ [file])%list.

(** [with open(join(self.path, file), 'w') as f: f.write(result)] *)
Definition write_entry (file body : string) : M unit :=
  if String.eqb file "" then raise (IsADirectoryError root)
  else write_file (root ++ [file])%list body.

(** [files and file not in files] *)
Definition restricted (files : option (gset string)) (file : string) : bool :=
  match files with
  | None => false
  | Some fileset => truthy fileset && bool_decide (file ∉ fileset)
  end.

(** [def cleanup(): rmtree(self.path)] makes a new function object *)
Definition new_closure : M nat :=
  λ st, (Ok (closures st), set_closures (S (closures st)) st).

Definition run_entry (files : option (gset string))
    (entry : string * M (option string)) : M unit :=
  let '(file, handler) := entry in
  if restricted files file then ret tt
  else
    there <- entry_exists file ;;
    when (negb there)
      (result <- handler ;;
       match result with
       | Some body =>
           there <- entry_exists file ;;
           when (negb there) (write_entry file body)
       | None => ret tt
       end).

Definition initialize_template (files : option (gset string)) : M unit :=
  cleanup <- new_closure ;;
  there <- isdir root ;;
  when (negb there) (atexit_register (Cleanup cleanup root)) ;;
  for_each skill_template (run_entry files) ;;
  atexit_unregister cleanup.

Definition commit_changes : M unit :=
  rev <- git_rev_parse_HEAD ;;
  when (String.eqb rev "HEAD")
    (git_add "." ;; git_commit "Initial commit").

(** [(get_repo_name and get_repo_name()) or (self.name + '-skill')] *)
Definition choose_repo_name (get_repo_name : option string) : string :=
  match get_repo_name with
  | Some given => if String.eqb given "" then name s +:+ "-skill" else given
  | None => name s +:+ "-skill"
  end.

Definition has_origin (listing : string) : bool :=
  bool_decide ("origin" ∈ Str.split "010" listing).

Definition force_push (get_repo_name : option string) : M (option string) :=
  yes <- ask_yes_no
           ("Are you sure you want to overwrite the remote github repo? "
            +:+ "This cannot be undone and you will lose your commit "
            +:+ "history! (y/N)") false ;;
  if yes then
    let repo_name := choose_repo_name get_repo_name in
    repo <- user_get_repo repo_name ;;
    git_push ["--force"] "origin" "master" ;;
    print ("Force pushed to GitHub repo: " +:+ repo) ;;
    ret (Some repo)
  else ret None.

Definition link_github_repo (get_repo_name : option string) : M (option string) :=
  listing <- git_remote ;;
  if has_origin listing then ret None
  else
    yes <- ask_yes_no
             "Would you like to link an existing GitHub repo to it? (Y/n)" true ;;
    if yes then
      let repo_name := choose_repo_name get_repo_name in
      repo <- user_get_repo repo_name ;;
      git_remote_add "origin" repo ;;
      git_fetch ;;
      try_except (git_pull "origin" "master")
        (λ e, match e with
              | GitCommandError status =>
                  Some (if (status =? 128)%Z
                        then raise (UnrelatedGithubHistory repo_name e)
                        else raise e)
              | _ => None
              end) ;;
      git_push ["--set-upstream"] "origin" "master" ;;
      print ("Linked and pushed to GitHub repo: " +:+ repo) ;;
      ret (Some repo)
    else ret None.

Definition create_github_repo (get_repo_name : option string) : M (option string) :=
  listing <- git_remote ;;
  if has_origin listing then ret None
  else
    yes <- ask_yes_no "Would you like to create a GitHub repo for it? (Y/n)" true ;;
    if yes then
      let repo_name := choose_repo_name get_repo_name in
      repo <- try_except (user_create_repo repo_name (short_description s))
                (λ e, match e with
                      | GithubException status =>
                          Some (if (status =? 422)%Z
                                then raise (GithubRepoExists repo_name e)
                                else raise e)
                      | _ => None
                      end) ;;
      git_remote_add "origin" repo ;;
      call_git_push ;;
      print ("Created GitHub repo: " +:+ repo) ;;
      ret (Some repo)
    else ret None.

Definition is_GithubRepoExists (e : exn) : bool :=
  match e with
  | GithubRepoExists _ _ => true
  | _ => false
  end.

(** Modelled from the spec: [msk.util.print_error], the context manager
    under which [perform] runs the remote step, is not among the sources.
    The spec has the naming collision "caught at the top level and
    printed rather than crashing the process": an exception of the named
    class leaving the body is caught and printed, any other one
    propagates. *)
Definition print_error (cls : exn → bool) (describe : exn → string)
    (body : M unit) : M unit :=
  try_except body (λ e, if cls e then Some (print (describe e)) else None).

Definition describe (e : exn) : string :=
  match e with
  | GithubRepoExists repo_name _ => "GithubRepoExists: " +:+ repo_name
  | _ => "error"
  end.

Definition perform : M unit :=
  initialize_template None ;;
  commit_changes ;;
  print_error is_GithubRepoExists describe
    (create_github_repo None ;; ret tt) ;;
  print ("Created skill at: " +:+ render root).

End Scaffold.

(** ** The end-to-end scenario of the specification *)

Definition siren : answers := {|
  name := normalize_name "siren alarm";
  lang := "en-us";
  skills_dir := ["opt"; "mycroft"; "skills"];
  ask_short_description := "Wakes you up with a loud siren";
  ask_author := "Jane";
  ask_intent_lines := ["set an alarm"];
  ask_dialog_lines := ["Your alarm is set"];
  ask_long_description := [];
  ask_icon := "bell";
  ask_color := "#FF0000";
  ask_category_primary := "Daily";
  ask_categories_other := [];
  ask_tags := []
|}.

Definition mit : fspath := ["usr"; "share"; "licenses"; "MIT-License.md"].
Definition apache : fspath := ["usr"; "share"; "licenses"; "Apache-2.0.md"].

(** A user who picks license [choice] and declines the remote step; tools
    that do not fail *)
Definition user (choice : string) : world := {|
  get_licenses := [mit; apache];
  license_choice := choice;
  yes_no := λ _ _, false;
  git_fault := λ _, None;
  api_fault := None;
  html_url := λ repo_name, "https://github.com/jane/" +:+ repo_name;
  set_iter := elements
|}.

(** A fresh process on a machine without the project *)
Definition boot (b : option nat) : proc := {|
  fs := {[ ["usr"] := Dir;
           ["usr"; "share"] := Dir;
           ["usr"; "share"; "licenses"] := Dir;
           mit := File "MIT License";
           apache := File "Apache License" ]};
  exitfuncs := [];
  closures := 0;
  hosted := ∅;
  out := [];
  budget := b
|}.

(** Some class-name rule stands in for [to_camel] where a closed run is
    needed; no statement below depends on which. *)
Definition some_camel (snake : string) : string :=
  Str.title snake.

(** The built project of the scenario: the first scaffold, undisturbed,
    by a user who skips the license *)
Definition built : proc :=
  snd (initialize_template some_camel siren (user "") None (boot None)).

Definition vocab_file (s : answers) : fspath :=
  (path s ++ ["vocab"; lang s; intent_name (name s) +:+ ".intent"])%list.
Definition dialog_file (s : answers) : fspath :=
  (path s ++ ["dialog"; lang s; intent_name (name s) +:+ ".dialog"])%list.

(** A file at [p] with [line] among its lines *)
Definition has_line (st : proc) (p : fspath) (line : string) : Prop :=
  ∃ content, fs st !! p = Some (File content) ∧ line ∈ Str.split "010" content.

(** A user who confirms every question, on an account that already hosts
    the scenario's repository *)
Definition eager : world := {|
  get_licenses := [mit; apache];
  license_choice := "";
  yes_no := λ _ _, true;
  git_fault := λ _, None;
  api_fault := None;
  html_url := λ repo_name, "https://github.com/jane/" +:+ repo_name;
  set_iter := elements
|}.

(** The same user with a remote whose history shares nothing with the
    local one: the pull ends with status 128 *)
Definition diverged : world := {|
  get_licenses := [mit; apache];
  license_choice := "";
  yes_no := λ _ _, true;
  git_fault := λ command,
    if bool_decide (command = ["pull"; "origin"; "master"]) then Some 128%Z
    else None;
  api_fault := None;
  html_url := λ repo_name, "https://github.com/jane/" +:+ repo_name;
  set_iter := elements
|}.

Definition taken : proc := set_hosted (λ _, {["siren-alarm-skill"]}) (boot None).

(** A skill whose only phrase holds three placeholders and whose only
    response names an entity of its own *)
Definition jukebox : answers := {|
  name := "jukebox";
  lang := "en-us";
  skills_dir := ["opt"; "mycroft"; "skills"];
  ask_short_description := "Plays music";
  ask_author := "Jane";
  ask_intent_lines := ["play {foo} on {bar} in {room}"];
  ask_dialog_lines := ["Playing {foo} for {listener}"];
  ask_long_description := [];
  ask_icon := "music";
  ask_color := "#22A7F0";
  ask_category_primary := "Music & Audio";
  ask_categories_other := [];
  ask_tags := []
|}.

(** A skill whose two phrases hold [{bar}] and [{foo}], in that order,
    among braces that enclose no entity name *)
Definition radio : answers := {|
  name := "radio";
  lang := "en-us";
  skills_dir := ["opt"; "mycroft"; "skills"];
  ask_short_description := "Plays the radio";
  ask_author := "Jane";
  ask_intent_lines := ["turn {bar} up {c1} {"; "tune {x y} to {foo} } now"];
  ask_dialog_lines := ["{station} is on"];
  ask_long_description := [];
  ask_icon := "music";
  ask_color := "#22A7F0";
  ask_category_primary := "Music & Audio";
  ask_categories_other := [];
  ask_tags := []
|}.

(** The terminal's escape sequences *)
Definition ansi : colorama := {|
  Fore_BLUE := String "027" "[34m";
  Fore_YELLOW := String "027" "[33m";
  Fore_RED := String "027" "[31m";
  Style_BRIGHT := String "027" "[1m";
  Style_RESET_ALL := String "027" "[0m"
|}.

(** The file writes among the effects of a run *)
Definition is_write (e : event) : bool :=
  match e with
  | EvWrite _ _ => true
  | _ => false
  end.
Definition writes (st : proc) : nat := length (filter is_write (out st)).

(** ** Vocabulary of the statements *)

(** [preserves R m]: whatever [m] does, and however it ends, the state it
    leaves is [R]-related to the one it started in. *)
Definition preserves {A} (R : relation proc) (m : M A) : Prop :=
  ∀ st r st', m st = (r, st') → R st st'.

(** The exit hooks are as they were *)
Definition same_hooks : relation proc :=
  λ st st', exitfuncs st' = exitfuncs st ∧ closures st' = closures st.

(** Nothing that was there has gone, and directories stay directories *)
Definition grows : relation proc :=
  λ st st', ∀ p, (is_Some (fs st !! p) → is_Some (fs st' !! p))
                 ∧ (is_dir_node (fs st !! p) = true →
                    is_dir_node (fs st' !! p) = true).

(** The project as a completed scaffold leaves it: the root is a
    directory and every entry of the template is there, the license
    perhaps excepted *)
Definition scaffolded (s : answers) (st : proc) : Prop :=
  is_dir_node (fs st !! path s) = true
  ∧ ∀ file, file ∈ ["vocab"; "dialog"; "__init__.py"; "README.md";
                    ".gitignore"; "settingsmeta.yaml"; ".git"] →
            is_Some (fs st !! (path s ++ [file])%list).

(** What a completed entry of the template leaves behind: the root
    directory, nothing for the license (the user may skip it), the entry's
    path otherwise *)
Definition entry_left (s : answers) (file : string) (st : proc) : Prop :=
  if String.eqb file "" then is_dir_node (fs st !! path s) = true
  else if String.eqb file "LICENSE.md" then True
  else is_Some (fs st !! (path s ++ [file])%list).

(** Only what lies at or below [q] may differ *)
Definition unchanged_outside (q : fspath) : relation proc :=
  λ st st', ∀ p, ¬ q `prefix_of` p → fs st' !! p = fs st !! p.

(** Same files, and as many writes recorded *)
Definition same_files : relation proc :=
  λ st st', fs st' = fs st ∧ writes st' = writes st.

(** What lies at or below [q] is as it was *)
Definition unchanged_under (q : fspath) : relation proc :=
  λ st st', ∀ p, q `prefix_of` p → fs st' !! p = fs st !! p.

(** Whatever exists at or below [root] has [root] for a directory *)
Definition rooted (root : fspath) (st : proc) : Prop :=
  ∀ p, root `prefix_of` p → is_Some (fs st !! p) →
       is_dir_node (fs st !! root) = true.

(** Outside [root] a path is as it was, or is a parent directory of
    [root] that was missing and has been made; and [rooted] is kept *)
Definition scoped (root : fspath) : relation proc :=
  λ st st',
    (∀ p, ¬ root `prefix_of` p →
          fs st' !! p = fs st !! p
          ∨ (fs st !! p = None ∧ p ≠ [] ∧ p `prefix_of` root
             ∧ fs st' !! p = Some Dir))
    ∧ (rooted root st → rooted root st').

(** [x] holds [sub] as a substring *)
Definition contains (sub x : string) : Prop :=
  ∃ pre post, x = pre +:+ sub +:+ post.

(** The line holds a placeholder for the entity [ent]: a run of letters
    and underscores in braces that reads [ent] once in lower case *)
Definition placeholder (ent line : string) : Prop :=
  ∃ e, Str.all is_ident e = true ∧ Str.lower e = ent
       ∧ contains ("{" +:+ e +:+ "}") line.

(** What the prompt prints, newest first, for the answers it turns down *)
Definition turned_down (message on_fail : string) (bad : list string) : list event :=
  flat_map (λ reply, [EvPrint on_fail; EvPrompt message reply]) (rev bad).

(** First and last character of a string *)
Definition first_char (x : string) : option ascii :=
  match x with
  | EmptyString => None
  | String c _ => Some c
  end.
Fixpoint last_char (x : string) : option ascii :=
  match x with
  | EmptyString => None
  | String c EmptyString => Some c
  | String _ x' => last_char x'
  end.

(** Neither a space nor a hyphen, if there is a character at all *)
Definition no_edge (c : option ascii) : Prop :=
  match c with
  | Some c => Str.mem c " -" = false
  | None => True
  end.

(** No directory at [p] *)
Definition no_dir (p : fspath) (st : proc) : Prop :=
  is_dir_node (node_at (fs st) p) = false.

(** * Properties *)

#[local] Arguments Ascii.eqb : simpl never.
#[local] Arguments is_ident : simpl never.
#[local] Arguments to_lower : simpl never.
#[local] Arguments to_upper : simpl never.
#[local] Arguments match_here : simpl never.

(** ** Strings *)

Lemma app_nil (y : string) : "" +:+ y = y.
Proof. reflexivity. Qed.

Lemma app_cons c (x y : string) : String c x +:+ y = String c (x +:+ y).
Proof. reflexivity. Qed.

Ltac str_simpl := rewrite ?app_cons, ?app_nil.

Lemma append_nil_r (x : string) : x +:+ "" = x.
Proof. induction x; str_simpl; congruence. Qed.

Lemma append_assoc (x y z : string) : (x +:+ y) +:+ z = x +:+ (y +:+ z).
Proof. induction x; str_simpl; congruence. Qed.

Lemma split_nonempty sep x : Str.split sep x ≠ [].
Proof.
  destruct x as [|c x]; simpl; [done|].
  destruct (Ascii.eqb c sep); [done|]. by destruct (Str.split sep x).
Qed.

Lemma split_free sep x : Str.mem sep x = false → Str.split sep x = [x].
Proof.
  induction x as [|c x IH]; simpl; [done|].
  rewrite (Ascii.eqb_sym sep c).
  destruct (Ascii.eqb c sep); simpl; [done|].
  intros H. by rewrite IH.
Qed.

Lemma split_token sep x rest :
  Str.mem sep x = false →
  Str.split sep (x +:+ String sep rest) = x :: Str.split sep rest.
Proof.
  induction x as [|c x IH]; str_simpl; simpl.
  - by rewrite Ascii.eqb_refl.
  - rewrite (Ascii.eqb_sym sep c).
    destruct (Ascii.eqb c sep); simpl; [done|].
    intros H. by rewrite IH.
Qed.

(** Splitting undoes joining separator-free tokens *)
Lemma split_join sep tokens :
  tokens ≠ [] →
  Forall (λ t, Str.mem sep t = false) tokens →
  Str.split sep (Str.join (String sep "") tokens) = tokens.
Proof.
  intros Hne Hall. induction Hall as [|t ts Ht Hts IH]; [done|].
  destruct ts as [|t' ts].
  - simpl. by apply split_free.
  - change (Str.join (String sep "") (t :: t' :: ts))
      with (t +:+ String sep "" +:+ Str.join (String sep "") (t' :: ts)).
    str_simpl. rewrite split_token by done. by rewrite IH.
Qed.

(** Joining undoes splitting, and the parts hold no separator *)
Lemma join_split sep x : Str.join (String sep "") (Str.split sep x) = x.
Proof.
  induction x as [|c x IH]; simpl; [done|].
  destruct (Ascii.eqb_spec c sep) as [->|Hne].
  - pose proof (split_nonempty sep x) as Hs.
    destruct (Str.split sep x) as [|t ts]; [done|].
    change (Str.join (String sep "") ("" :: t :: ts))
      with ("" +:+ String sep "" +:+ Str.join (String sep "") (t :: ts)).
    str_simpl. by rewrite IH.
  - pose proof (split_nonempty sep x) as Hs.
    destruct (Str.split sep x) as [|t ts]; [done|].
    destruct ts as [|t' ts]; simpl in *; str_simpl; by rewrite <- IH.
Qed.

Lemma split_parts_free sep x :
  Forall (λ t, Str.mem sep t = false) (Str.split sep x).
Proof.
  induction x as [|c x IH]; simpl.
  - by constructor.
  - destruct (Ascii.eqb_spec c sep) as [->|Hne].
    + by constructor.
    + destruct (Str.split sep x) as [|t ts].
      * constructor; [|done]. simpl.
        destruct (Ascii.eqb_spec sep c); [congruence|done].
      * inversion IH; subst. constructor; [|done]. simpl.
        destruct (Ascii.eqb_spec sep c); [congruence|done].
Qed.

(** ** The intent identifier *)

(** C4: the intent identifier is a function of the name alone:
    [Str.split] cuts the name into its hyphen-delimited tokens (they hold
    no hyphen and joined by hyphens they give the name back), and
    [intent_name] is these tokens reversed and joined by dots; the name
    [pizza-orderer] yields [orderer.pizza]. *)
Theorem intent_name_reverses_tokens :
  (∀ name : string,
      let tokens := Str.split "-" name in
      Forall (λ t, Str.mem "-" t = false) tokens
      ∧ Str.join "-" tokens = name
      ∧ intent_name name = Str.join "." (rev tokens))
  ∧ intent_name "pizza-orderer" = "orderer.pizza".
Proof.
  split; [|reflexivity].
  intros name tokens. split; [apply split_parts_free|].
  split; [apply (join_split "-")|reflexivity].
Qed.

(** The tokens are the only such cut: a name built from hyphen-free
    tokens has these tokens reversed as its identifier. *)
Lemma intent_name_of_tokens (tokens : list string) :
  tokens ≠ [] →
  Forall (λ t, Str.mem "-" t = false) tokens →
  intent_name (Str.join "-" tokens) = Str.join "." (rev tokens).
Proof.
  intros Hne Hall. unfold intent_name.
  by rewrite (split_join "-" tokens Hne Hall).
Qed.

(** ** Prompt validators *)

(** C5 as stated fails: on the empty answer the color validator indexes
    an empty string and raises [IndexError]; on any other answer it
    returns whether the first character is the hash sign. *)
Lemma color_validator_raises_on_empty :
  color_validator "" = Raise IndexError
  ∧ ∀ c rest, color_validator (String c rest) = Ok (Ascii.eqb c "#").
Proof.
  split; [reflexivity|]. intros c rest.
  unfold color_validator, str_head, Str.mem.
  by rewrite orb_false_r, Ascii.eqb_sym.
Qed.

(** ** Entity extraction *)

Lemma mem_app c (x y : string) :
  Str.mem c (x +:+ y) = Str.mem c x || Str.mem c y.
Proof.
  induction x as [|d x IH]; str_simpl; simpl; [done|].
  by rewrite IH, orb_assoc.
Qed.

Lemma map_app f (x y : string) :
  Str.map f (x +:+ y) = Str.map f x +:+ Str.map f y.
Proof. induction x as [|d x IH]; str_simpl; simpl; str_simpl; congruence. Qed.

Lemma brace_to_lower c : Ascii.eqb "{" (to_lower c) = Ascii.eqb "{" c.
Proof. by destruct c as [[] [] [] [] [] [] [] []]. Qed.

Lemma brace_to_upper c : Ascii.eqb "{" (to_upper c) = Ascii.eqb "{" c.
Proof. by destruct c as [[] [] [] [] [] [] [] []]. Qed.

Lemma brace_not_ident c : is_ident c = true → Ascii.eqb "{" c = false.
Proof. by destruct c as [[] [] [] [] [] [] [] []]. Qed.

Lemma newline_not_ident c : is_ident c = true → Ascii.eqb "010" c = false.
Proof. by destruct c as [[] [] [] [] [] [] [] []]. Qed.

Lemma mem_brace_lower x : Str.mem "{" (Str.lower x) = Str.mem "{" x.
Proof.
  unfold Str.lower. induction x as [|c x IH]; simpl; [done|].
  by rewrite brace_to_lower, IH.
Qed.

Lemma ident_free c x :
  (∀ d, is_ident d = true → Ascii.eqb c d = false) →
  Str.all is_ident x = true → Str.mem c x = false.
Proof.
  intros Hc. induction x as [|d x IH]; simpl; [done|].
  intros [Hd Hx]%andb_prop. by rewrite (Hc d Hd), IH.
Qed.

Lemma ident_run_closed e rest :
  Str.all is_ident e = true →
  ident_run (e +:+ String "}" rest) = (e, String "}" rest).
Proof.
  induction e as [|c e IH]; str_simpl; simpl; [done|].
  intros [Hc He]%andb_prop. by rewrite Hc, IH.
Qed.

Lemma ident_run_ident x : Str.all is_ident (ident_run x).1 = true.
Proof.
  induction x as [|c x IH]; simpl; [done|].
  destruct (is_ident c) eqn:Hc; [|done].
  destruct (ident_run x) as [r t]. simpl in *. by rewrite Hc, IH.
Qed.

Lemma match_here_not_after prev x : prev ≠ Some "{"%char → match_here prev x = None.
Proof.
  intros Hp. unfold match_here. destruct prev as [c|]; [|done].
  destruct (Ascii.eqb_spec c "{") as [->|Hne]; [done|].
  by destruct c as [[] [] [] [] [] [] [] []].
Qed.

Lemma findall_prev prev x :
  prev ≠ Some "{"%char → findall_from prev x = findall_from None x.
Proof.
  intros Hp. destruct x as [|c x]; simpl; by rewrite match_here_not_after.
Qed.

Lemma findall_step prev c x :
  prev ≠ Some "{"%char →
  findall_from prev (String c x) = findall_from (Some c) x.
Proof. intros Hp. simpl. by rewrite match_here_not_after. Qed.

Lemma not_brace c : Ascii.eqb "{" c = false → Some c ≠ Some "{"%char.
Proof. intros H [= ->]. by rewrite Ascii.eqb_refl in H. Qed.

(** Text without an opening brace holds no match and is skipped *)
Lemma findall_skip prev a rest :
  prev ≠ Some "{"%char → Str.mem "{" a = false →
  findall_from prev (a +:+ rest) = findall_from None rest.
Proof.
  revert prev. induction a as [|c a IH]; intros prev Hp Ha; str_simpl.
  - by apply findall_prev.
  - simpl in Ha. apply orb_false_elim in Ha as [Hc Ha].
    rewrite findall_step by done. apply IH; [by apply not_brace|done].
Qed.

Lemma findall_none prev a :
  prev ≠ Some "{"%char → Str.mem "{" a = false → findall_from prev a = [].
Proof.
  intros Hp Ha. rewrite <- (append_nil_r a), findall_skip by done.
  reflexivity.
Qed.

(** Right after an opening brace, a run of letters and underscores that a
    closing brace ends is a match, and the scan goes on behind it *)
Lemma findall_after_brace e rest :
  Str.all is_ident e = true →
  findall_from (Some "{"%char) (e +:+ String "}" rest)
  = e :: findall_from None rest.
Proof.
  intros He.
  assert (match_here (Some "{"%char) (e +:+ String "}" rest) = Some e) as Hm.
  { unfold match_here. by rewrite ident_run_closed. }
  destruct e as [|c e].
  - rewrite app_nil in *. simpl findall_from.
    f_equal. by apply findall_prev.
  - rewrite app_cons in *. simpl findall_from. rewrite Hm. simpl. f_equal.
    simpl in He. apply andb_prop in He as [Hc He].
    rewrite (findall_skip (Some c) e).
    + rewrite findall_step by done. by apply findall_prev.
    + apply not_brace. by apply brace_not_ident.
    + apply ident_free; [apply brace_not_ident|done].
Qed.

Lemma findall_entity prev a e rest :
  prev ≠ Some "{"%char → Str.mem "{" a = false → Str.all is_ident e = true →
  findall_from prev (a +:+ String "{" (e +:+ String "}" rest))
  = e :: findall_from None rest.
Proof.
  intros Hp Ha He. rewrite findall_skip by done.
  rewrite findall_step by done. by apply findall_after_brace.
Qed.

(** Whatever stands before it, a braced run is found *)
Lemma findall_contains prev a e rest :
  Str.all is_ident e = true →
  e ∈ findall_from prev (a +:+ String "{" (e +:+ String "}" rest)).
Proof.
  intros He. revert prev. induction a as [|c a IH]; intros prev; str_simpl.
  - simpl. rewrite findall_after_brace by done.
    apply elem_of_app. right. apply elem_of_cons. by left.
  - simpl. apply elem_of_app. right. apply IH.
Qed.

Lemma findall_ident prev x m :
  m ∈ findall_from prev x → Str.all is_ident m = true.
Proof.
  assert (∀ prev x m, match_here prev x = Some m → Str.all is_ident m = true)
    as Hhere.
  { intros p y k. unfold match_here. destruct p as [c|]; [|done].
    destruct (Ascii.eqb_spec c "{") as [->|Hne].
    - pose proof (ident_run_ident y) as Hr.
      destruct (ident_run y) as [r [|d t]]; [done|].
      destruct (Ascii.eqb_spec d "}") as [->|Hd].
      + by intros [= <-].
      + by destruct d as [[] [] [] [] [] [] [] []].
    - by destruct c as [[] [] [] [] [] [] [] []]. }
  revert prev. induction x as [|c x IH]; intros prev; simpl.
  - destruct (match_here prev "") eqn:Hm; [|by intros ?%elem_of_nil].
    intros ->%list_elem_of_singleton. by eapply Hhere.
  - intros [Hin|Hin]%elem_of_app; [|by eapply IH].
    destruct (match_here prev (String c x)) eqn:Hm; [|by apply elem_of_nil in Hin].
    apply list_elem_of_singleton in Hin as ->. by eapply Hhere.
Qed.

Lemma capitalize_brace a x :
  Str.capitalize (a +:+ String "{" x)
  = Str.capitalize a +:+ String "{" (Str.lower x).
Proof.
  destruct a as [|c a]; str_simpl; [done|].
  unfold Str.capitalize, Str.lower. str_simpl. f_equal.
  by rewrite map_app.
Qed.

Lemma mem_brace_capitalize a : Str.mem "{" (Str.capitalize a) = Str.mem "{" a.
Proof.
  destruct a as [|c a]; [done|].
  unfold Str.capitalize. simpl. by rewrite brace_to_upper, mem_brace_lower.
Qed.

(** *** What the scan finds *)

Lemma ident_run_split x : x = (ident_run x).1 +:+ (ident_run x).2.
Proof.
  induction x as [|c x IH]; simpl; [done|].
  destruct (is_ident c); [|done].
  destruct (ident_run x) as [r t]. simpl in *. str_simpl. by rewrite <- IH.
Qed.

Lemma match_here_inv prev x m :
  match_here prev x = Some m →
  prev = Some "{"%char ∧ Str.all is_ident m = true
  ∧ ∃ post, x = m +:+ String "}" post.
Proof.
  unfold match_here. destruct prev as [c|]; [|done].
  destruct (Ascii.eqb_spec c "{") as [->|Hne].
  - pose proof (ident_run_ident x) as Hr. pose proof (ident_run_split x) as Hx.
    destruct (ident_run x) as [r [|d t]]; [done|].
    destruct (Ascii.eqb_spec d "}") as [->|Hd].
    + intros [= <-]. simpl in *. eauto.
    + by destruct d as [[] [] [] [] [] [] [] []].
  - by destruct c as [[] [] [] [] [] [] [] []].
Qed.

(** The matches are the runs of letters and underscores that stand
    between an opening and a closing brace, wherever in the text *)
Lemma findall_elem prev x m :
  m ∈ findall_from prev x
  ↔ Str.all is_ident m = true
    ∧ ((prev = Some "{"%char ∧ ∃ post, x = m +:+ String "}" post)
       ∨ ∃ pre post, x = pre +:+ String "{" (m +:+ String "}" post)).
Proof.
  split.
  - revert prev. induction x as [|c x IH]; intros prev; simpl.
    + destruct (match_here prev "") as [k|] eqn:Hm; [|by intros ?%elem_of_nil].
      apply match_here_inv in Hm as (_ & _ & post & Hpost).
      destruct k; rewrite ?app_cons, ?app_nil in Hpost; discriminate.
    + intros [Hin|Hin]%elem_of_app.
      * destruct (match_here prev (String c x)) as [k|] eqn:Hm;
          [|by apply elem_of_nil in Hin].
        apply list_elem_of_singleton in Hin as ->.
        apply match_here_inv in Hm as (-> & Hk & post & Hpost).
        split; [done|]. left. eauto.
      * apply IH in Hin as [Hm [[[= ->] [post ->]]|(pre & post & ->)]];
          (split; [done|]); right.
        -- by exists "", post.
        -- by exists (String c pre), post.
  - intros [Hm [[-> [post ->]]|(pre & post & ->)]].
    + rewrite findall_after_brace by done. apply list_elem_of_here.
    + by apply findall_contains.
Qed.

Lemma contains_braced e x :
  contains ("{" +:+ e +:+ "}") x
  ↔ ∃ pre post, x = pre +:+ String "{" (e +:+ String "}" post).
Proof.
  assert (∀ post, ("{" +:+ e +:+ "}") +:+ post = String "{" (e +:+ String "}" post))
    as Heq by (intros post; by rewrite !app_cons, !app_nil, append_assoc).
  unfold contains. split; intros (pre & post & ->); exists pre, post;
    by rewrite Heq.
Qed.

Lemma prefix_cut w post x c y :
  w +:+ post = x +:+ String c y → Str.mem c w = false → ∃ x2, x = w +:+ x2.
Proof.
  revert x. induction w as [|a w IH]; intros x; str_simpl.
  - intros _ _. by exists x.
  - simpl. intros Heq [Ha Hw]%orb_false_elim.
    destruct x as [|b x]; rewrite ?app_cons, ?app_nil in Heq.
    + injection Heq as -> _. by rewrite Ascii.eqb_refl in Ha.
    + injection Heq as -> Heq. destruct (IH x Heq Hw) as [x2 ->].
      by exists x2.
Qed.

(** A substring free of [c] lies on one side of an occurrence of [c] *)
Lemma contains_cut w x c y :
  Str.mem c w = false →
  contains w (x +:+ String c y) → contains w x ∨ contains w y.
Proof.
  intros Hc (pre & post & Heq). revert pre Heq.
  induction x as [|d x IH]; intros pre Heq.
  - rewrite app_nil in Heq.
    destruct pre as [|p pre]; rewrite ?app_cons, ?app_nil in Heq.
    + destruct w as [|a w]; [left; by exists "", ""|].
      rewrite app_cons in Heq. injection Heq as <- _.
      simpl in Hc. by rewrite Ascii.eqb_refl in Hc.
    + injection Heq as _ ->. right. by exists pre, post.
  - destruct pre as [|p pre]; rewrite ?app_nil in Heq.
    + symmetry in Heq.
      destruct (prefix_cut w post (String d x) c y Heq Hc) as [x2 Hx].
      left. exists "", x2. by rewrite app_nil.
    + rewrite !app_cons in Heq. injection Heq as -> Heq.
      destruct (IH pre Heq) as [(a & b & ->)|Hy]; [|by right].
      left. by exists (String p a), b.
Qed.

Lemma join_elem sep (l : list string) x :
  x ∈ l → ∃ a b, Str.join sep l = a +:+ x +:+ b.
Proof.
  induction l as [|y l IH]; [by intros ?%elem_of_nil|].
  intros [->|Hin]%elem_of_cons.
  - destruct l as [|z l].
    + exists "", "". simpl. by rewrite app_nil, append_nil_r.
    + exists "", (sep +:+ Str.join sep (z :: l)). by rewrite app_nil.
  - destruct (IH Hin) as (a & b & Hab).
    destruct l as [|z l]; [by apply elem_of_nil in Hin|].
    exists (y +:+ sep +:+ a), b.
    change (Str.join sep (y :: z :: l))
      with (y +:+ sep +:+ Str.join sep (z :: l)).
    by rewrite Hab, !append_assoc.
Qed.

(** A substring without a line break lies within one of the joined
    lines *)
Lemma contains_join w (l : list string) :
  w ≠ "" → Str.mem "010" w = false →
  contains w (Str.join nl l) ↔ ∃ line, line ∈ l ∧ contains w line.
Proof.
  intros Hw Hnl. split.
  - induction l as [|x l IH].
    + intros (pre & post & Heq). simpl in Heq.
      destruct pre as [|p pre]; rewrite ?app_cons, ?app_nil in Heq;
        [|discriminate].
      destruct w as [|a w]; [done|]. rewrite app_cons in Heq. discriminate.
    + destruct l as [|y l].
      * intros H. exists x. split; [by left|done].
      * change (Str.join nl (x :: y :: l))
          with (x +:+ String "010" (Str.join nl (y :: l))).
        intros [H|H]%contains_cut; [| |done].
        -- exists x. split; [by left|done].
        -- destruct (IH H) as (line & Hin & Hline).
           exists line. split; [by right|done].
  - intros (line & Hin & pre & post & ->).
    destruct (join_elem nl l _ Hin) as (a & b & ->).
    exists (a +:+ pre), (post +:+ b). by rewrite !append_assoc.
Qed.

Lemma map_split f x u v :
  Str.map f x = u +:+ v →
  ∃ x1 x2, x = x1 +:+ x2 ∧ Str.map f x1 = u ∧ Str.map f x2 = v.
Proof.
  revert x. induction u as [|a u IH]; intros x; rewrite ?app_cons, ?app_nil.
  - intros H. by exists "", x.
  - destruct x as [|c x]; simpl; [done|]. intros [= <- H].
    destruct (IH x H) as (x1 & x2 & -> & <- & <-).
    by exists (String c x1), x2.
Qed.

Lemma lower_split x u v :
  Str.lower x = u +:+ v →
  ∃ x1 x2, x = x1 +:+ x2 ∧ Str.lower x1 = u ∧ Str.lower x2 = v.
Proof. apply map_split. Qed.

Lemma lower_brace_open c : to_lower c = "{"%char → c = "{"%char.
Proof. destruct c as [[] [] [] [] [] [] [] []]; vm_compute; congruence. Qed.

Lemma lower_brace_close c : to_lower c = "}"%char → c = "}"%char.
Proof. destruct c as [[] [] [] [] [] [] [] []]; vm_compute; congruence. Qed.

Lemma upper_brace_open c : to_upper c = "{"%char → c = "{"%char.
Proof. destruct c as [[] [] [] [] [] [] [] []]; vm_compute; congruence. Qed.

Lemma ident_to_lower c : is_ident (to_lower c) = is_ident c.
Proof. by destruct c as [[] [] [] [] [] [] [] []]. Qed.

Lemma all_ident_lower e : Str.all is_ident (Str.lower e) = Str.all is_ident e.
Proof.
  unfold Str.lower. induction e as [|c e IH]; simpl; [done|].
  by rewrite ident_to_lower, IH.
Qed.

(** Lower-casing moves no brace *)
Lemma lower_braced_inv x pre e post :
  Str.lower x = pre +:+ String "{" (e +:+ String "}" post) →
  ∃ x0 x1 x2, x = x0 +:+ String "{" (x1 +:+ String "}" x2)
              ∧ Str.lower x1 = e.
Proof.
  intros (x0 & r & -> & _ & Hr)%lower_split.
  destruct r as [|c r]; [done|]. injection Hr as Hc Hr.
  apply lower_brace_open in Hc as ->.
  apply lower_split in Hr as (x1 & r2 & -> & <- & Hr).
  destruct r2 as [|d r2]; [done|]. injection Hr as Hd Hr.
  apply lower_brace_close in Hd as ->.
  by exists x0, x1, r2.
Qed.

(** What [capitalize] makes of a line has the name in braces exactly
    when the line has a placeholder for it *)
Lemma capitalize_placeholder ent line :
  contains ("{" +:+ ent +:+ "}") (Str.capitalize line)
  ∧ Str.all is_ident ent = true
  ↔ placeholder ent line.
Proof.
  rewrite contains_braced. unfold placeholder. split.
  - intros [(pre & post & Heq) Hent].
    destruct line as [|c line]; simpl in Heq.
    { destruct pre; rewrite ?app_cons, ?app_nil in Heq; discriminate. }
    destruct pre as [|p pre]; rewrite ?app_cons, ?app_nil in Heq;
      injection Heq as Hc Heq.
    + apply upper_brace_open in Hc as ->.
      apply lower_split in Heq as (x1 & r & -> & <- & Hr).
      destruct r as [|d r]; [done|]. injection Hr as Hd Hr.
      apply lower_brace_close in Hd as ->.
      exists x1. split; [by rewrite <- all_ident_lower|]. split; [done|].
      apply contains_braced. by exists "", r.
    + apply lower_braced_inv in Heq as (x0 & x1 & x2 & -> & <-).
      exists x1. split; [by rewrite <- all_ident_lower|]. split; [done|].
      apply contains_braced. by exists (String c x0), x2.
  - intros (e & He & <- & (pre & post & ->)%contains_braced).
    split; [|by rewrite all_ident_lower].
    rewrite capitalize_brace. exists (Str.capitalize pre), (Str.lower post).
    unfold Str.lower. by rewrite map_app.
Qed.

Lemma braced_no_newline e :
  Str.all is_ident e = true → Str.mem "010" ("{" +:+ e +:+ "}") = false.
Proof.
  intros He. rewrite app_cons, app_nil. simpl. rewrite mem_app.
  by rewrite (ident_free "010" e newline_not_ident He).
Qed.

(** The entities of the capitalized lines are the placeholders of the
    lines as the user typed them *)
Lemma entities_placeholders (lines : list string) ent :
  ent ∈ entities (Str.capitalize <$> lines)
  ↔ ∃ line, line ∈ lines ∧ placeholder ent line.
Proof.
  unfold entities, findall. rewrite elem_of_list_to_set, findall_elem. split.
  - intros [Hent [[[=] _]|H]]. apply contains_braced in H.
    apply contains_join in H as (cl & Hin & Hcl);
      [|by rewrite app_cons|by apply braced_no_newline].
    apply list_elem_of_fmap in Hin as (line & -> & Hin).
    exists line. split; [done|]. by apply capitalize_placeholder.
  - intros (line & Hin & [Hc Hent]%capitalize_placeholder).
    split; [done|]. right. apply contains_braced.
    apply contains_join; [by rewrite app_cons|by apply braced_no_newline|].
    exists (Str.capitalize line). split; [|done].
    apply list_elem_of_fmap. eauto.
Qed.

Lemma entities_ident lines ent :
  ent ∈ entities lines → Str.all is_ident ent = true.
Proof. intros Hin%elem_of_list_to_set. by eapply findall_ident. Qed.

Lemma elem_of_sorted (X : gset string) x : x ∈ sorted X ↔ x ∈ X.
Proof.
  unfold sorted. rewrite merge_sort_Permutation. apply elem_of_elements.
Qed.

Lemma indent_free c t :
  Ascii.eqb c " " = false → Str.mem c t = false → Str.mem c (indent t) = false.
Proof.
  intros Hc Ht. unfold indent. rewrite mem_app, Ht, orb_false_r.
  destruct (negb _); simpl; [|done]. by rewrite Hc.
Qed.

(** ** The handler stub *)

(** No line of the handler body holds a line break *)
Lemma handler_lines_free iter s :
  Forall (λ t, Str.mem "010" t = false) (indent <$> handler_lines iter s).
Proof.
  apply Forall_fmap, Forall_forall. intros t Ht. simpl.
  apply indent_free; [done|].
  assert (∀ X ent, ent ∈ sorted X → X ⊆ dialog_entities s ∪ intent_entities s →
                   Str.mem "010" ent = false) as Hent.
  { intros X ent Hin%elem_of_sorted Hsub.
    apply ident_free; [apply newline_not_ident|].
    apply Hsub in Hin as [Hin|Hin]%elem_of_union; by eapply entities_ident. }
  unfold handler_lines in Ht.
  apply elem_of_app in Ht as [Ht|Ht]; [|apply elem_of_app in Ht as [Ht|Ht]];
    [| |apply elem_of_app in Ht as [Ht|Ht]].
  - apply list_elem_of_fmap in Ht as (ent & -> & Hin).
    unfold cat; simpl. rewrite !mem_app.
    rewrite (Hent _ _ Hin) by apply union_subseteq_r. reflexivity.
  - apply list_elem_of_fmap in Ht as (ent & -> & Hin).
    unfold cat; simpl. rewrite !mem_app.
    rewrite (Hent _ _ Hin)
      by (etrans; [apply subseteq_difference_l; reflexivity|apply union_subseteq_l]).
    reflexivity.
  - unfold times in Ht. destruct (truthy _); [|by apply elem_of_nil in Ht].
    by apply list_elem_of_singleton in Ht as ->.
  - pose proof (split_parts_free "010" (cat
      ["self.speak_dialog("; sq; intent_name (name s); sq;
       stimes
         (cat [", data={"; nl;
               Str.join ("," +:+ nl)
                 ((λ ent, cat ["    "; sq; ent; sq; ": "; ent])
                    <$> iter (dialog_entities s ∪ intent_entities s));
               nl; "}"])
         (truthy (dialog_entities s ∪ intent_entities s));
       ")"])) as Hall.
    rewrite Forall_forall in Hall. by apply Hall.
Qed.

(** The lines of [handler_code] are the handler lines, indented *)
Lemma handler_code_lines iter s :
  Str.split "010" (handler_code iter s) = indent <$> handler_lines iter s.
Proof.
  unfold handler_code. apply (split_join "010").
  - unfold handler_lines. intros Hnil%fmap_nil_inv.
    apply app_eq_nil in Hnil as [_ Hnil]. apply app_eq_nil in Hnil as [_ Hnil].
    apply app_eq_nil in Hnil as [_ Hnil]. by apply split_nonempty in Hnil.
  - apply handler_lines_free.
Qed.

Lemma split_sep_app sep x y :
  Str.split sep (x +:+ String sep y) = (Str.split sep x ++ Str.split sep y)%list.
Proof.
  induction x as [|c x IH]; str_simpl; simpl.
  - by rewrite Ascii.eqb_refl.
  - destruct (Ascii.eqb c sep); [by rewrite IH|].
    rewrite IH. pose proof (split_nonempty sep x) as Hne.
    by destruct (Str.split sep x).
Qed.

Lemma unlines_cons x l : unlines (x :: l) = x +:+ String "010" (unlines l).
Proof. unfold unlines, cat. simpl. by rewrite append_assoc. Qed.

(** A line of one of the pieces is a line of the whole *)
Lemma unlines_lines x h l :
  h ∈ l → x ∈ Str.split "010" h → x ∈ Str.split "010" (unlines l).
Proof.
  intros Hh Hx. induction l as [|y l IH]; [by apply elem_of_nil in Hh|].
  rewrite unlines_cons, split_sep_app. apply elem_of_app.
  apply elem_of_cons in Hh as [->|Hh]; [by left|right; by apply IH].
Qed.

(** The lines of the handler body are lines of the generated module *)
Lemma handler_code_in_init to_camel iter s x :
  x ∈ Str.split "010" (handler_code iter s) →
  x ∈ Str.split "010" (init_file to_camel iter s).
Proof.
  unfold init_file. apply unlines_lines.
  do 9 apply list_elem_of_further. apply list_elem_of_here.
Qed.

(** An entity the response lines alone name is bound to the empty string
    by a line of the handler body *)
Lemma default_binding iter s ent :
  ent ∈ dialog_entities s → ent ∉ intent_entities s →
  ("        " +:+ ent +:+ " = " +:+ sq +:+ sq)
    ∈ Str.split "010" (handler_code iter s).
Proof.
  intros Hd Hi. rewrite handler_code_lines.
  apply list_elem_of_fmap. exists (cat [ent; " = "; sq; sq]). split.
  - unfold indent, cat. simpl. rewrite append_nil_r.
    destruct ent; reflexivity.
  - unfold handler_lines. apply elem_of_app. right. apply elem_of_app. left.
    apply list_elem_of_fmap. exists ent. split; [done|].
    apply elem_of_sorted. set_solver.
Qed.

(** C3, as the code has it: the entities extracted from the example
    phrases, and from the response lines, are exactly the names for which
    some line holds a placeholder, a run of letters and underscores
    between braces, read in lower case.  So lines holding [{foo}] and
    [{bar}] yield foo and bar whatever surrounds them, and yield these two
    alone exactly when no line holds a placeholder for another name.  An
    entity found in the response lines only is bound to the empty string
    by a line of the handler body, which is a line of the generated
    module [init_file]. *)
Theorem entities_extracted_and_defaulted to_camel iter (s : answers) :
  (∀ ent, ent ∈ intent_entities s
          ↔ ∃ line, line ∈ ask_intent_lines s ∧ placeholder ent line)
  ∧ (∀ ent, ent ∈ dialog_entities s
            ↔ ∃ line, line ∈ ask_dialog_lines s ∧ placeholder ent line)
  ∧ (∀ lines : list string,
       (∃ line, line ∈ lines ∧ contains "{foo}" line) →
       (∃ line, line ∈ lines ∧ contains "{bar}" line) →
       let found := entities (Str.capitalize <$> lines) in
       {["foo"; "bar"]} ⊆ found
       ∧ (found = {["foo"; "bar"]}
          ↔ ∀ line ent, line ∈ lines → placeholder ent line →
                        ent = "foo" ∨ ent = "bar"))
  ∧ (∀ ent, ent ∈ dialog_entities s → ent ∉ intent_entities s →
       ("        " +:+ ent +:+ " = " +:+ sq +:+ sq)
         ∈ Str.split "010" (handler_code iter s)
       ∧ ("        " +:+ ent +:+ " = " +:+ sq +:+ sq)
           ∈ Str.split "010" (init_file to_camel iter s)).
Proof.
  split; [|split; [|split]].
  - intros ent. apply entities_placeholders.
  - intros ent. apply entities_placeholders.
  - intros lines (l1 & Hl1 & Hfoo) (l2 & Hl2 & Hbar) found.
    assert ({["foo"; "bar"]} ⊆ found) as Hsub.
    { intros ent [->%elem_of_singleton| ->%elem_of_singleton]%elem_of_union;
        apply entities_placeholders.
      - exists l1. split; [done|]. by exists "foo".
      - exists l2. split; [done|]. by exists "bar". }
    split; [done|]. split.
    + intros Heq line ent Hin Hp.
      assert (ent ∈ found) as Hent by (apply entities_placeholders; eauto).
      rewrite Heq in Hent.
      apply elem_of_union in Hent as [Hent|Hent];
        apply elem_of_singleton in Hent; auto.
    + intros Hall. apply set_eq. intros ent. split; [|apply Hsub].
      intros (line & Hin & Hp)%entities_placeholders.
      destruct (Hall line ent Hin Hp) as [->| ->]; set_solver.
  - intros ent Hd Hi.
    pose proof (default_binding iter s ent Hd Hi) as Hline.
    split; [done|]. by apply handler_code_in_init.
Qed.

(** Witness: two phrases with [{bar}] before [{foo}] among braces that
    enclose no name, and a response that names a station *)
Lemma entities_extracted_and_defaulted_witness :
  intent_entities radio = {["foo"; "bar"]}
  ∧ ("        station = " +:+ sq +:+ sq)
      ∈ Str.split "010" (init_file some_camel elements radio).
Proof.
  destruct (entities_extracted_and_defaulted some_camel elements radio)
    as (Hintent & _ & Hexact & Hdefault).
  assert (findall (Str.join nl (intent_lines radio)) = ["bar"; "foo"]) as Hfound
    by (vm_compute; reflexivity).
  split.
  - apply (Hexact (ask_intent_lines radio)).
    + exists "tune {x y} to {foo} } now". split; [apply list_elem_of_further, list_elem_of_here|].
      by exists "tune {x y} to ", " } now".
    + exists "turn {bar} up {c1} {". split; [apply list_elem_of_here|].
      by exists "turn ", " up {c1} {".
    + intros line ent Hin Hp.
      assert (ent ∈ intent_entities radio) as Hent by (apply Hintent; eauto).
      apply elem_of_list_to_set in Hent.
      rewrite Hfound in Hent.
      apply elem_of_cons in Hent as [->|Hent]; [by right|].
      apply elem_of_cons in Hent as [->|Hent]; [by left|].
      by apply elem_of_nil in Hent.
  - apply (Hdefault "station").
    + apply elem_of_list_to_set.
      replace (findall (Str.join nl (dialog_lines radio))) with ["station"]
        by (vm_compute; reflexivity).
      apply list_elem_of_here.
    + intros Hin%elem_of_list_to_set.
      rewrite Hfound in Hin.
      apply elem_of_cons in Hin as [[=]|Hin].
      apply elem_of_cons in Hin as [[=]|Hin].
      by apply elem_of_nil in Hin.
Defined.

(** C3 as stated fails: the phrase [play {foo} on {bar} in {room}] holds
    [{foo}] and [{bar}], and the entities extracted from it are foo, bar
    and room. *)
Lemma entities_third_placeholder :
  (∃ line, line ∈ ask_intent_lines jukebox
           ∧ contains "{foo}" line ∧ contains "{bar}" line)
  ∧ intent_entities jukebox = {["foo"; "bar"; "room"]}
  ∧ intent_entities jukebox ≠ {["foo"; "bar"]}.
Proof.
  assert (findall (Str.join nl (intent_lines jukebox)) = ["foo"; "bar"; "room"])
    as Hfound by (vm_compute; reflexivity).
  assert (intent_entities jukebox = {["foo"; "bar"; "room"]}) as Heq.
  { apply set_eq. intros ent. unfold intent_entities, entities.
    rewrite elem_of_list_to_set, Hfound.
    rewrite !elem_of_cons, !elem_of_union, !elem_of_singleton, elem_of_nil.
    tauto. }
  split; [|split; [done|]].
  - exists "play {foo} on {bar} in {room}". split; [apply list_elem_of_here|].
    split.
    + by exists "play ", " on {bar} in {room}".
    + by exists "play {foo} on ", " in {room}".
  - rewrite Heq. intros Hsame.
    assert ("room" ∈ ({["foo"; "bar"]} : gset string)) as Hroom.
    { rewrite <- Hsame. apply elem_of_union. right. by apply elem_of_singleton. }
    apply elem_of_union in Hroom as [Hroom|Hroom];
      by apply elem_of_singleton in Hroom.
Qed.

(** ** Running the process monad *)

Lemma bind_ok {A B} (m : M A) (k : A → M B) st a st1 :
  m st = (Ok a, st1) → bind m k st = k a st1.
Proof. intros H. unfold bind. by rewrite H. Qed.

Lemma bind_raise {A B} (m : M A) (k : A → M B) st e st1 :
  m st = (Raise e, st1) → bind m k st = (Raise e, st1).
Proof. intros H. unfold bind. by rewrite H. Qed.

Lemma run_eq {A} (m : M A) st r : fst (m st) = r → m st = (r, snd (m st)).
Proof. intros <-. apply surjective_pairing. Qed.

Lemma for_each_ext {A} (l : list A) (f g : A → M unit) :
  (∀ x st, f x st = g x st) → ∀ st, for_each l f st = for_each l g st.
Proof.
  intros Hfg. induction l as [|x l IH]; intros st; simpl; [done|].
  unfold bind. rewrite Hfg. destruct (g x st) as [[[]|e] st']; [apply IH|done].
Qed.

Section Preservation.

Context (R : relation proc) `{!PreOrder R}.

Lemma preserves_ret {A} (a : A) : preserves R (ret a).
Proof. by intros st r st' [= <- <-]. Qed.

Lemma preserves_raise {A} e : preserves R (@raise A e).
Proof. by intros st r st' [= <- <-]. Qed.

Lemma preserves_gets {A} (f : proc → A) : preserves R (gets f).
Proof. by intros st r st' [= <- <-]. Qed.

Lemma preserves_lift {A} (r : result A) : preserves R (lift r).
Proof. destruct r; [apply preserves_ret|apply preserves_raise]. Qed.

Lemma preserves_modify f : (∀ st, R st (f st)) → preserves R (modify f).
Proof. intros Hf st r st' [= <- <-]. apply Hf. Qed.

Lemma preserves_bind {A B} (m : M A) (k : A → M B) :
  preserves R m → (∀ a, preserves R (k a)) → preserves R (bind m k).
Proof.
  intros Hm Hk st r st'. unfold bind.
  destruct (m st) as [[a|e] st1] eqn:Hst.
  - intros Hr. etrans; [by eapply Hm|by eapply Hk].
  - intros [= <- <-]. by eapply Hm.
Qed.

Lemma preserves_try_except {A} (m : M A) h :
  preserves R m → (∀ e k, h e = Some k → preserves R k) →
  preserves R (try_except m h).
Proof.
  intros Hm Hh st r st'. unfold try_except.
  destruct (m st) as [[a|e] st1] eqn:Hst.
  - intros [= <- <-]. by eapply Hm.
  - destruct (h e) as [k|] eqn:He.
    + intros Hr. etrans; [by eapply Hm|by eapply Hh].
    + intros [= <- <-]. by eapply Hm.
Qed.

Lemma preserves_when b m : preserves R m → preserves R (when b m).
Proof. destruct b; [done|intros _; apply preserves_ret]. Qed.

Lemma preserves_for_each {A} (l : list A) body :
  (∀ x, preserves R (body x)) → preserves R (for_each l body).
Proof.
  intros Hb. induction l as [|x l IH]; simpl; [apply preserves_ret|].
  apply preserves_bind; [apply Hb|done].
Qed.

(** The relation is blind to the effects the scaffold performs: changes
    of the file system, of the record of effects and of the interrupt
    budget. *)
Context (R_fs : ∀ f st, R st (set_fs f st))
        (R_emit : ∀ e st, R st (emit e st))
        (R_budget : ∀ b st, R st (set_budget b st)).

Lemma preserves_tick : preserves R tick.
Proof.
  intros st r st'. unfold tick. destruct (budget st) as [[|n]|].
  - by intros [= <- <-].
  - intros [= <- <-]. apply R_budget.
  - by intros [= <- <-].
Qed.

End Preservation.

Ltac preserve_step :=
  match goal with
  | |- preserves _ (bind _ _) => apply preserves_bind; [try apply _| |intros ?]
  | |- preserves _ (ret _) => apply preserves_ret
  | |- preserves _ (raise _) => apply preserves_raise
  | |- preserves _ (gets _) => apply preserves_gets
  | |- preserves _ (lift _) => apply preserves_lift
  | |- preserves _ (modify _) => apply preserves_modify; intros ?
  | |- preserves _ tick => apply preserves_tick
  | |- preserves _ (when _ _) => apply preserves_when
  | |- preserves _ (for_each _ _) => apply preserves_for_each; [try apply _|intros ?]
  | |- preserves _ (try_except _ _) =>
      apply preserves_try_except; [try apply _| |intros ? ? ?]
  | |- preserves _ (if ?b then _ else _) => destruct b
  | |- preserves _ (match ?x with _ => _ end) => destruct x
  | |- PreOrder _ => apply _
  end.

Ltac preserve :=
  repeat first
    [ preserve_step
    | progress unfold exists_, isdir, mkdir, makedirs, open_w, f_write,
        read_lazy, write_file, copy, rmtree, print, ask_input, ask_yes_no, in_workdir, git_cmd, with_repo,
        git_init, git_rev_parse_HEAD, git_add, git_commit, git_remote,
        git_remote_add, git_fetch, git_pull, git_push, call_git_push,
        hosting, user_create_repo, user_get_repo, text, action ].

#[local] Instance same_hooks_preorder : PreOrder same_hooks.
Proof.
  split; [done|]. intros x y z [? ?] [? ?]. split; congruence.
Qed.

#[local] Instance grows_preorder : PreOrder grows.
Proof.
  split; [done|]. intros x y z Hxy Hyz p.
  destruct (Hxy p), (Hyz p). split; auto.
Qed.

Lemma grows_insert p n st :
  (is_dir_node (fs st !! p) = true → is_dir_node (Some n) = true) →
  grows st (set_fs (insert p n) st).
Proof.
  intros Hn q. simpl. destruct (decide (p = q)) as [->|Hne].
  - rewrite lookup_insert_eq. split; [by eauto|done].
  - by rewrite lookup_insert_ne.
Qed.

Lemma preserves_for_each_in {A} R `{!PreOrder R} (l : list A) body :
  (∀ x, x ∈ l → preserves R (body x)) → preserves R (for_each l body).
Proof.
  intros Hb. induction l as [|x l IH]; simpl; [by apply preserves_ret|].
  apply preserves_bind; [done|apply Hb; by left|].
  intros _. apply IH. intros y Hy. apply Hb. by right.
Qed.

(** ** Prompts with a validator *)

Section Prompt.

Variables (message on_fail : string) (validator : string → result bool).

(** Whatever the validator does with an answer, the one exception that
    leaves the prompt is the interrupt *)
Lemma ask_input_until_raises replies st e :
  fst (ask_input_until message validator on_fail replies st) = Raise e →
  e = KeyboardInterrupt.
Proof.
  revert st. induction replies as [|reply replies IH]; intros st; simpl.
  - by intros [= <-].
  - unfold bind, tick, modify, print. destruct (budget st) as [[|n]|]; simpl.
    + by intros [= <-].
    + destruct (validator reply) as [[]|e']; simpl; [done|apply IH..].
    + destruct (validator reply) as [[]|e']; simpl; [done|apply IH..].
Qed.

(** The answer the prompt hands back is one the user gave and the
    validator accepted *)
Lemma ask_input_until_returns replies st reply :
  fst (ask_input_until message validator on_fail replies st) = Ok reply →
  reply ∈ replies ∧ validator reply = Ok true.
Proof.
  revert st. induction replies as [|r replies IH]; intros st; simpl; [done|].
  unfold bind, tick, modify, print. destruct (budget st) as [[|n]|]; simpl;
    [done| |];
    (destruct (validator r) as [[]|e'] eqn:Hv; simpl;
     [intros [= <-]; split; [by left|done]
     |intros [Hin Hok]%IH; split; [by right|done]..]).
Qed.

(** Undisturbed, the prompt turns down answer after answer, with its
    message each time, up to the first one the validator accepts *)
Lemma ask_input_until_run bad good rest st :
  budget st = None →
  Forall (λ reply, validator reply ≠ Ok true) bad →
  validator good = Ok true →
  ask_input_until message validator on_fail (bad ++ good :: rest) st
  = (Ok good,
     Proc (fs st) (exitfuncs st) (closures st) (hosted st)
          (EvPrompt message good :: turned_down message on_fail bad ++ out st)
          None).
Proof.
  intros Hb Hbad Hgood. revert st Hb.
  induction Hbad as [|b bad Hb' Hbad IH]; intros st Hb.
  - destruct st as [m e c h o bu]. simpl in Hb. subst bu. simpl.
    unfold bind, tick, modify. simpl. by rewrite Hgood.
  - destruct st as [m e c h o bu]. simpl in Hb. subst bu.
    change ((b :: bad) ++ good :: rest)%list with (b :: (bad ++ good :: rest))%list.
    simpl ask_input_until. unfold bind at 1, tick at 1. simpl.
    unfold bind at 1, modify at 1. simpl.
    assert (∀ k : M string,
              match validator b with Ok true => ret b | _ => k end = k) as ->.
    { intros k. by destruct (validator b) as [[]|e']. }
    unfold bind at 1, print, modify at 1. simpl.
    rewrite IH by done. simpl. do 3 f_equal.
    unfold turned_down. simpl. rewrite flat_map_app. simpl.
    by rewrite <- app_assoc.
Qed.

(** When no answer is accepted the prompt goes on asking, to the point
    where the user stops answering *)
Lemma ask_input_until_gives_up replies st :
  budget st = None →
  Forall (λ reply, validator reply ≠ Ok true) replies →
  fst (ask_input_until message validator on_fail replies st)
  = Raise KeyboardInterrupt.
Proof.
  intros Hb Hbad. revert st Hb.
  induction Hbad as [|b bad Hb' Hbad IH]; intros st Hb; simpl; [done|].
  unfold bind, tick, modify, print. rewrite Hb. simpl.
  destruct (validator b) as [[]|e']; [done|by apply IH..].
Qed.

End Prompt.

Lemma color_validator_accepts x :
  color_validator x = Ok true ↔ first_char x = Some "#"%char.
Proof.
  destruct x as [|c x]; simpl; [done|].
  unfold color_validator. simpl. rewrite orb_false_r.
  destruct (Ascii.eqb_spec "#" c) as [Heq|Hne]; [by subst c|].
  split; [done|]. intros [= Hc]. by destruct Hne.
Qed.

(** C5, as the code has it: on every non-empty answer the color
    validator returns a boolean, on the empty one it raises; the prompt
    counts either kind of failure as a rejection and asks again, so no
    answer makes the prompt raise: the only exception that leaves it is
    the interrupt, the answer it returns is one the user gave and begins
    with the hash sign, and undisturbed it returns the first such answer,
    having printed its hint once for each answer before that one. *)
Theorem color_prompt_reprompts (k : colorama) (replies : list string) (st : proc) :
  (∀ reply, (∃ b, color_validator reply = Ok b) ↔ reply ≠ "")
  ∧ (∀ e, fst (color_prompt k replies st) = Raise e → e = KeyboardInterrupt)
  ∧ (∀ reply, fst (color_prompt k replies st) = Ok reply →
        reply ∈ replies ∧ first_char reply = Some "#"%char)
  ∧ (budget st = None →
     ∀ bad good rest,
       replies = (bad ++ good :: rest)%list →
       Forall (λ reply, first_char reply ≠ Some "#"%char) bad →
       first_char good = Some "#"%char →
       color_prompt k replies st
       = (Ok good,
          Proc (fs st) (exitfuncs st) (closures st) (hosted st)
               (EvPrompt (color_message k) good
                  :: turned_down (color_message k) (color_on_fail k) bad
                  ++ out st)
               None))
  ∧ (budget st = None →
     Forall (λ reply, first_char reply ≠ Some "#"%char) replies →
     fst (color_prompt k replies st) = Raise KeyboardInterrupt).
Proof.
  split; [|split; [|split; [|split]]].
  - intros [|c reply]; [split; [by intros [b [=]]|done]|].
    split; [done|]. intros _. by eexists.
  - intros e. apply ask_input_until_raises.
  - intros reply [Hin Hok]%ask_input_until_returns.
    split; [done|]. by apply color_validator_accepts.
  - intros Hb bad good rest -> Hbad Hgood. apply ask_input_until_run; [done| |].
    + eapply Forall_impl; [exact Hbad|]. intros reply Hr Hok. apply Hr.
      by apply color_validator_accepts.
    + by apply color_validator_accepts.
  - intros Hb Hbad. apply ask_input_until_gives_up; [done|].
    eapply Forall_impl; [exact Hbad|]. intros reply Hr Hok. apply Hr.
    by apply color_validator_accepts.
Qed.

(** Witness: the user presses Enter, then forgets the hash sign, then
    gets it right *)
Lemma color_prompt_reprompts_witness :
  let run := color_prompt ansi [""; "FF0000"; "#FF0000"] (boot None) in
  fst run = Ok "#FF0000"
  ∧ out (snd run)
    = [EvPrompt (color_message ansi) "#FF0000";
       EvPrint (color_on_fail ansi); EvPrompt (color_message ansi) "FF0000";
       EvPrint (color_on_fail ansi); EvPrompt (color_message ansi) ""].
Proof.
  intros run. subst run.
  destruct (color_prompt_reprompts ansi [""; "FF0000"; "#FF0000"] (boot None))
    as (_ & _ & _ & Hrun & _).
  rewrite (Hrun eq_refl [""; "FF0000"] "#FF0000" [] eq_refl).
  - split; reflexivity.
  - repeat constructor; discriminate.
  - reflexivity.
Defined.

(** A prompt without a validator takes the first answer: it is the one
    effect [ask_input] stands for *)
Lemma ask_input_first message on_fail reply replies st :
  ask_input_until message (λ _, Ok true) on_fail (reply :: replies) st
  = ask_input message reply st.
Proof. reflexivity. Qed.

(** ** Exit hooks *)

Lemma node_at_cons m c p : node_at m (c :: p) = m !! (c :: p).
Proof. reflexivity. Qed.

Lemma path_cons s : ∃ c p, path s = c :: p.
Proof.
  unfold path. destruct (skills_dir s) as [|c p]; simpl; eauto.
Qed.

(** What [rmtree] leaves of the file system: all of it, or what is not
    below the path *)
Lemma rmtree_fs q st :
  fs (snd (rmtree q st)) = fs st
  ∨ (is_dir_node (node_at (fs st) q) = true
     ∧ fs (snd (rmtree q st)) = filter (λ kv, ¬ q `prefix_of` kv.1) (fs st)).
Proof.
  destruct st as [m e c h o b]. unfold rmtree, bind, tick; simpl.
  destruct b as [[|n]|]; simpl; [by left| |].
  - unfold gets, modify; simpl.
    destruct (node_at m q) as [[| |]|] eqn:Hq; simpl; auto.
  - unfold gets, modify; simpl.
    destruct (node_at m q) as [[| |]|] eqn:Hq; simpl; auto.
Qed.

Lemma rmtree_undisturbed q st :
  budget st = None → is_dir_node (node_at (fs st) q) = true →
  fs (snd (rmtree q st)) = filter (λ kv, ¬ q `prefix_of` kv.1) (fs st).
Proof.
  destruct st as [m e c h o b]. simpl. intros -> Hq.
  unfold rmtree, bind, tick, gets, modify; simpl.
  by destruct (node_at m q) as [[| |]|].
Qed.

Lemma rmtree_budget q st : budget st = None → budget (snd (rmtree q st)) = None.
Proof.
  destruct st as [m e c h o b]. simpl. intros ->.
  unfold rmtree, bind, tick, gets, modify; simpl.
  by destruct (node_at m q) as [[| |]|].
Qed.

(** An exit function never creates a directory *)
Lemma call_exitfunc_no_dir p f st : no_dir p st → no_dir p (call_exitfunc f st).
Proof.
  unfold no_dir, call_exitfunc. intros Hp.
  destruct (rmtree_fs (captured f) st) as [->|[_ ->]]; [done|].
  destruct p as [|c p]; [done|]. rewrite node_at_cons in *.
  destruct (filter _ (fs st) !! (c :: p)) as [n|] eqn:Hn; [|done].
  apply map_lookup_filter_Some in Hn as [Hn _]. by rewrite Hn in Hp.
Qed.

(** The cleanup removes the directory it was registered for *)
Lemma cleanup_removes id c p st :
  budget st = None → no_dir (c :: p) (call_exitfunc (Cleanup id (c :: p)) st).
Proof.
  intros Hb. unfold no_dir, call_exitfunc. simpl captured.
  destruct (is_dir_node (node_at (fs st) (c :: p))) eqn:Hd.
  - rewrite rmtree_undisturbed by done. rewrite node_at_cons.
    destruct (filter _ (fs st) !! (c :: p)) as [n|] eqn:Hn; [|done].
    apply map_lookup_filter_Some in Hn as [_ Hn]. simpl in Hn. by destruct Hn.
  - by destruct (rmtree_fs (c :: p) st) as [->|[Hd' _]]; [|congruence].
Qed.

Lemma exitfuncs_no_dir p l st : no_dir p st → no_dir p (foldr call_exitfunc st l).
Proof.
  intros Hp. induction l as [|f l IH]; simpl; [done|].
  by apply call_exitfunc_no_dir.
Qed.

Section Pipeline.

Variable to_camel : string → string.
Variable s : answers.
Variable w : world.

(** The entries of the template leave the exit hooks alone *)
Lemma run_entry_same_hooks files entry :
  entry ∈ skill_template to_camel s w →
  preserves same_hooks (run_entry s files entry).
Proof.
  intros Hin. unfold skill_template in Hin.
  repeat (apply elem_of_cons in Hin as [->|Hin]); [..|by apply elem_of_nil in Hin];
    unfold run_entry, entry_exists, write_entry, add_vocab, add_dialog,
      license; simpl String.eqb; cbv iota zeta.
  all: preserve.
  all: try done.
Qed.

Lemma template_same_hooks files :
  preserves same_hooks
    (for_each (skill_template to_camel s w) (run_entry s files)).
Proof.
  apply preserves_for_each_in; [apply _|]. intros entry Hin.
  by apply run_entry_same_hooks.
Qed.

(** How [initialize_template] ends, in terms of the exit hooks: with a
    pre-existing root the loop runs with the registry as it was, without
    one it runs with the cleanup registered last; completion drops the
    cleanup, an exception leaves the registry as the loop had it. *)
Lemma initialize_template_hooks files st r st' :
  initialize_template to_camel s w files st = (r, st') →
  let cleanup := Cleanup (closures st) (path s) in
  let during :=
    if is_dir_node (node_at (fs st) (path s)) then exitfuncs st
    else (exitfuncs st ++ [cleanup])%list in
  match r with
  | Ok _ => exitfuncs st' = filter (λ f, closure_id f ≠ closures st) during
  | Raise _ => exitfuncs st' = during
  end.
Proof.
  intros Hrun cleanup during. unfold initialize_template in Hrun.
  set (loop := for_each _ _) in Hrun.
  unfold bind, new_closure, isdir, gets in Hrun. simpl in Hrun.
  set (st0 := set_closures (S (closures st)) st) in *.
  assert (∃ st1, (when (negb (is_dir_node (node_at (fs st) (path s))))
                    (atexit_register (Cleanup (closures st) (path s))) st0
                  = (Ok tt, st1)) ∧ exitfuncs st1 = during) as (st1 & Hreg & Hst1).
  { subst during cleanup. destruct (is_dir_node _); simpl; eauto. }
  rewrite Hreg in Hrun.
  destruct (loop st1) as [[[]|e] st2] eqn:Hloop.
  - apply template_same_hooks in Hloop as [Hh _].
    unfold atexit_unregister, modify in Hrun. injection Hrun as <- <-.
    simpl. by rewrite Hh, Hst1.
  - apply template_same_hooks in Hloop as [Hh _].
    injection Hrun as <- <-. by rewrite Hh, Hst1.
Qed.

(** C1: when no directory stood at the project root, an exception
    leaving [initialize_template] finds the cleanup registered, and the
    process exit that follows leaves no directory at the root; on
    completion the registry holds nothing of this call, only what was
    registered before it; with a pre-existing root nothing is ever
    registered; so in a process with no other exit function, after
    completion or with a pre-existing root, the exit deletes nothing. *)
Theorem rollback_invariant files st r st' :
  initialize_template to_camel s w files st = (r, st') →
  let cleanup := Cleanup (closures st) (path s) in
  (is_dir_node (node_at (fs st) (path s)) = false →
     ∀ e, r = Raise e →
     cleanup ∈ exitfuncs st' ∧ no_dir (path s) (process_exit st'))
  ∧ (r = Ok tt →
     ∀ f, f ∈ exitfuncs st' → f ∈ exitfuncs st ∧ closure_id f ≠ closures st)
  ∧ (is_dir_node (node_at (fs st) (path s)) = true →
     ∀ f, f ∈ exitfuncs st' → f ∈ exitfuncs st)
  ∧ (exitfuncs st = [] →
     r = Ok tt ∨ is_dir_node (node_at (fs st) (path s)) = true →
     exitfuncs st' = [] ∧ fs (process_exit st') = fs st').
Proof.
  intros Hrun cleanup.
  pose proof (initialize_template_hooks files st r st' Hrun) as Hh.
  simpl in Hh. fold cleanup in Hh.
  split; [|split; [|split]].
  - intros Hd e ->. rewrite Hd in Hh. split.
    + rewrite Hh. apply elem_of_app. right. by apply list_elem_of_singleton.
    + unfold process_exit. rewrite Hh, foldr_app. simpl.
      apply exitfuncs_no_dir. subst cleanup.
      destruct (path_cons s) as (c & p & ->). by apply cleanup_removes.
  - intros -> f Hf. rewrite Hh in Hf.
    apply list_elem_of_filter in Hf as [Hid Hf]. split; [|done].
    destruct (is_dir_node _); [done|].
    apply elem_of_app in Hf as [Hf|Hf]; [done|].
    apply list_elem_of_singleton in Hf as ->. by destruct Hid.
  - intros Hd f Hf. rewrite Hd in Hh. destruct r as [[]|e].
    + rewrite Hh in Hf. by apply list_elem_of_filter in Hf as [_ Hf].
    + by rewrite Hh in Hf.
  - intros Hnil Hor.
    assert (exitfuncs st' = []) as Hnone.
    { rewrite Hnil in Hh. destruct Hor as [->|Hd].
      - rewrite Hh. destruct (is_dir_node _); [done|]. simpl.
        rewrite filter_cons_False; [done|]. simpl. by intros Hne.
      - rewrite Hd in Hh. by destruct r. }
    split; [done|]. unfold process_exit. by rewrite Hnone.
Qed.

End Pipeline.

(** Witness: the first scaffold of the scenario, interrupted after seven
    effects, at the prompt for the example phrases: the vocabulary file is
    open and still empty; the project root, built by then, is gone after
    the exit. *)
Lemma rollback_invariant_witness :
  let st' := snd (initialize_template some_camel siren (user "") None (boot (Some 7))) in
  is_dir_node (node_at (fs st') (path siren)) = true
  ∧ fs st' !! vocab_file siren = Some (File "")
  ∧ no_dir (path siren) (process_exit st').
Proof.
  intros st'. split; [vm_compute; reflexivity|].
  split; [vm_compute; reflexivity|].
  refine (proj2 (proj1 (rollback_invariant some_camel siren (user "") None
                          (boot (Some 7)) (Raise KeyboardInterrupt) st'
                          (run_eq _ _ _ _))
                       _ KeyboardInterrupt eq_refl));
    vm_compute; reflexivity.
Defined.


(** ** Restricting the template to a subset of its entries *)

Lemma restricted_iff files file :
  restricted files file = true
  ↔ ∃ fileset, files = Some fileset ∧ fileset ≠ ∅ ∧ file ∉ fileset.
Proof.
  unfold restricted, truthy. destruct files as [fileset|].
  - rewrite andb_true_iff, !bool_decide_eq_true. split.
    + intros [? ?]. by exists fileset.
    + by intros (? & [= <-] & ? & ?).
  - split; [done|]. by intros (? & ? & _).
Qed.

(** ** Running file-system operations *)

Lemma dirname_app p c : dirname (p ++ [c]) = p.
Proof. apply removelast_last. Qed.

Lemma write_file_new p content st :
  budget st = None →
  is_dir_node (node_at (fs st) p) = false →
  is_dir_node (node_at (fs st) (dirname p)) = true →
  write_file p content st
  = (Ok tt, emit (EvWrite p content) (set_fs (insert p (File content)) st)).
Proof.
  destruct st as [m e c h o b]. simpl. intros -> Hp Hup.
  unfold write_file, bind, tick, gets, modify. simpl. rewrite Hp.
  by destruct (node_at m (dirname p)) as [[| |]|].
Qed.

Lemma copy_file src dst content st :
  budget st = None →
  node_at (fs st) src = Some (File content) →
  node_at (fs st) dst = None →
  is_dir_node (node_at (fs st) (dirname dst)) = true →
  copy src dst st
  = (Ok tt, emit (EvWrite dst content) (set_fs (insert dst (File content)) st)).
Proof.
  intros Hb Hsrc Hdst Hup. unfold copy, bind at 1, isdir, gets. simpl.
  rewrite Hdst. simpl. unfold bind at 1. simpl. rewrite Hsrc.
  rewrite bool_decide_eq_false_2 by (intros ->; congruence).
  apply write_file_new; [done| |done]. by rewrite Hdst.
Qed.

(** ** License selection *)

Lemma for_each_emits {A} (l : list A) (body : A → M unit) (g : A → event) :
  (∀ x st, body x st = (Ok tt, emit (g x) st)) →
  ∀ st, ∃ o, for_each l body st
             = (Ok tt, Proc (fs st) (exitfuncs st) (closures st) (hosted st)
                            o (budget st)).
Proof.
  intros Hb. induction l as [|x l IH]; intros st; simpl.
  - exists (out st). by destruct st.
  - unfold bind. rewrite Hb. destruct (IH (emit (g x) st)) as [o ->]. by exists o.
Qed.

(** Up to the prompt, [license] only prints; the user's reply comes back
    when nothing interrupts. *)
Lemma license_asks s w st :
  budget st = None →
  ∃ o, license s w st
       = when (Str.isdigit (license_choice w))
           (src <- lift (py_index (get_licenses w) (Str.int (license_choice w) - 1)) ;;
            copy src (license_path s) ;;
            print (nl +:+ "Some of these require that you insert the project name "
                   +:+ "and/or author" +:+ sq +:+ "s name. Please check the license file and "
                   +:+ "add the appropriate information." +:+ nl))%proc
           (Proc (fs st) (exitfuncs st) (closures st) (hosted st) o None).
Proof.
  destruct st as [m e c h o b]. simpl. intros ->.
  unfold license. unfold bind at 1. unfold print at 1, modify. simpl.
  unfold bind at 1.
  edestruct (for_each_emits
               (zip (seq 1 (length (get_licenses w))) (get_licenses w))
               (λ '(num, pth), print (cat [pretty num; ": "; pretty_license pth]))
               (λ x, EvPrint (cat [pretty x.1; ": "; pretty_license x.2])))
    as [o' ->].
  { by intros [num pth] st. }
  simpl. unfold bind at 1. unfold ask_input, bind, tick, modify, ret. simpl.
  by eexists.
Qed.

Lemma py_index_last {A} (l : list A) x : py_index (l ++ [x]) (-1) = Ok x.
Proof.
  unfold py_index. rewrite length_app, Nat.add_1_r. simpl length.
  change (-1 <? 0)%Z with true. cbv iota.
  replace (-1 + Z.of_nat (S (length l)))%Z with (Z.of_nat (length l)) by lia.
  rewrite Nat2Z.id.
  assert ((0 <=? Z.of_nat (length l))%Z && (Z.of_nat (length l) <? Z.of_nat (S (length l)))%Z = true) as ->.
  { apply andb_true_iff. split; [apply Z.leb_le|apply Z.ltb_lt]; lia. }
  by rewrite list_lookup_middle.
Qed.

Lemma py_index_beyond {A} (l : list A) i :
  (Z.of_nat (length l) <= i)%Z → py_index l i = Raise IndexError.
Proof.
  intros Hi. unfold py_index.
  assert ((i <? 0)%Z = false) as -> by (apply Z.ltb_ge; lia).
  assert ((i <? Z.of_nat (length l))%Z = false) as -> by (apply Z.ltb_ge; lia).
  by rewrite andb_false_r.
Qed.

Lemma py_index_raises {A} (l : list A) i e : py_index l i = Raise e → e = IndexError.
Proof.
  unfold py_index. destruct (_ && _); [|congruence].
  destruct (l !! _); congruence.
Qed.

(** C10: a digit string is turned into an index and used as it is.  The
    file named by Python's indexing is copied to [LICENSE.md]; where that
    indexing fails, [license] raises [IndexError] and copies nothing.  In
    particular [0] selects the last listed license, and a number beyond
    the list raises. *)
Theorem license_index_unguarded s w st :
  budget st = None →
  Str.isdigit (license_choice w) = true →
  let index := (Str.int (license_choice w) - 1)%Z in
  (∀ e, py_index (get_licenses w) index = Raise e →
        fst (license s w st) = Raise IndexError
        ∧ fs (snd (license s w st)) = fs st)
  ∧ (∀ src content,
        py_index (get_licenses w) index = Ok src →
        node_at (fs st) src = Some (File content) →
        is_dir_node (node_at (fs st) (path s)) = true →
        fs st !! license_path s = None →
        fst (license s w st) = Ok tt
        ∧ fs (snd (license s w st)) = <[license_path s := File content]> (fs st))
  ∧ (license_choice w = "0" →
     ∀ others last, get_licenses w = (others ++ [last])%list →
     py_index (get_licenses w) index = Ok last)
  ∧ ((Z.of_nat (length (get_licenses w)) < Str.int (license_choice w))%Z →
     py_index (get_licenses w) index = Raise IndexError).
Proof.
  intros Hb Hdigit index.
  destruct (license_asks s w st Hb) as [o Hrun]. rewrite Hdigit in Hrun.
  simpl when in Hrun. fold index in Hrun.
  split; [|split; [|split]].
  - intros e He. rewrite Hrun.
    erewrite bind_raise; [|by rewrite He].
    by rewrite (py_index_raises _ _ _ He).
  - intros src content Hsrc Hfile Hroot Hfree. rewrite Hrun.
    erewrite bind_ok; [|by rewrite Hsrc].
    erewrite bind_ok.
    2:{ apply (copy_file src (license_path s) content); simpl; [done..| |].
        - unfold license_path in *. by destruct (path s).
        - unfold license_path. by rewrite dirname_app. }
    done.
  - intros H0 others last Hl. subst index. rewrite H0, Hl.
    apply py_index_last.
  - intros Hlt. apply py_index_beyond. lia.
Qed.

(** Witness: with two licenses listed, the answer [0] copies the second *)
Lemma license_index_unguarded_witness :
  let st := snd (makedirs (path siren) (boot None)) in
  fst (license siren (user "0") st) = Ok tt
  ∧ fs (snd (license siren (user "0") st))
    = <[license_path siren := File "Apache License"]> (fs st).
Proof.
  intros st.
  refine (proj1 (proj2 (license_index_unguarded siren (user "0") st _ _))
            apache "Apache License" _ _ _ _);
    vm_compute; reflexivity.
Defined.

(** ** The end-to-end scenario *)

Lemma cat_app l1 l2 : cat (l1 ++ l2) = cat l1 +:+ cat l2.
Proof.
  induction l1 as [|x l1 IH]; simpl; [done|].
  unfold cat in *. simpl. by rewrite IH, append_assoc.
Qed.

(** The category section of every rendered README *)
Lemma readme_category s :
  ∃ pre post,
    readme s
    = pre +:+ unlines ["## Category"; "**" +:+ category_primary s +:+ "**"]
          +:+ post.
Proof.
  unfold readme.
  match goal with
  | |- ∃ _ _, unlines [?a; ?b; ?c; ?d; ?e; ?f; ?g; ?h; ?i; ?j; ?k; ?l; ?m; ?n] = _ =>
      exists (unlines [a; b; c; d; e; f; g; h; i]), (unlines [l; m; n]);
      change [a; b; c; d; e; f; g; h; i; j; k; l; m; n]
        with ([a; b; c; d; e; f; g; h; i] ++ [j; k] ++ [l; m; n])%list
  end.
  unfold unlines. by rewrite !fmap_app, !cat_app.
Qed.

(** What the scaffold of the scenario writes for vocabulary and dialog *)
Lemma scenario_files_content to_camel :
  let st := snd (initialize_template to_camel siren (user "") None (boot None)) in
  fs st !! vocab_file siren = Some (File ("Set an alarm" +:+ nl))
  ∧ fs st !! dialog_file siren = Some (File ("Your alarm is set" +:+ nl)).
Proof. by vm_compute. Qed.

(** C8, as the code has it: the prompts capitalize every line, so the
    scenario's vocabulary file holds the line [Set an alarm], its dialog
    file the line [Your alarm is set], and the category section of its
    README reads [**Daily**]. *)
Theorem scenario_files to_camel :
  let st := snd (initialize_template to_camel siren (user "") None (boot None)) in
  fs st !! vocab_file siren = Some (File ("Set an alarm" +:+ nl))
  ∧ has_line st (vocab_file siren) "Set an alarm"
  ∧ fs st !! dialog_file siren = Some (File ("Your alarm is set" +:+ nl))
  ∧ has_line st (dialog_file siren) "Your alarm is set"
  ∧ fs st !! (path siren ++ ["README.md"])%list = Some (File (readme siren))
  ∧ ∃ pre post,
      readme siren = pre +:+ unlines ["## Category"; "**Daily**"] +:+ post.
Proof.
  intros st. destruct (scenario_files_content to_camel) as [Hv Hd].
  fold st in Hv, Hd.
  split; [done|]. split.
  { eexists. split; [done|]. by vm_compute; left. }
  split; [done|]. split.
  { eexists. split; [done|]. by vm_compute; left. }
  split; [by vm_compute|]. apply (readme_category siren).
Qed.

(** C8 as stated fails: in the built project of the scenario neither the
    vocabulary file has the line [set an alarm] nor the dialog file the
    line [your alarm is set]. *)
Lemma scenario_lines_not_lowercase :
  ¬ has_line built (vocab_file siren) "set an alarm"
  ∧ ¬ has_line built (dialog_file siren) "your alarm is set".
Proof.
  destruct (scenario_files_content some_camel) as [Hv Hd].
  fold built in Hv, Hd.
  split; intros (content & Hfile & Hline).
  - rewrite Hv in Hfile. injection Hfile as <-. vm_compute in Hline.
    repeat (apply elem_of_cons in Hline as [Hline|Hline]; [done|]).
    by apply elem_of_nil in Hline.
  - rewrite Hd in Hfile. injection Hfile as <-. vm_compute in Hline.
    repeat (apply elem_of_cons in Hline as [Hline|Hline]; [done|]).
    by apply elem_of_nil in Hline.
Qed.

(** ** The remote repository *)

Section Remote.

Variable s : answers.
Variable w : world.

Lemma ask_yes_no_run message default st :
  budget st = None →
  ask_yes_no w message default st
  = (Ok (yes_no w message default),
     emit (EvPrompt message (if yes_no w message default then "y" else "n")) st).
Proof.
  destruct st as [m e c h o b]; simpl; intros ->.
  by unfold ask_yes_no, bind, tick, modify, ret.
Qed.

Lemma git_cmd_run {A} command (m : M A) st :
  budget st = None → is_dir_node (node_at (fs st) (path s)) = true →
  git_fault w command = None →
  git_cmd s w command m st = m (emit (EvGit command) st).
Proof.
  destruct st as [f e c h o b]; simpl; intros -> Hd Hf.
  unfold git_cmd, in_workdir, bind, tick, isdir, gets. simpl.
  rewrite Hd, Hf. by unfold modify.
Qed.

Lemma git_cmd_fault {A} command (m : M A) st status :
  budget st = None → is_dir_node (node_at (fs st) (path s)) = true →
  git_fault w command = Some status →
  git_cmd s w command m st = (Raise (GitCommandError status), st).
Proof.
  destruct st as [f e c h o b]; simpl; intros -> Hd Hf.
  unfold git_cmd, in_workdir, bind, tick, isdir, gets. simpl.
  by rewrite Hd, Hf.
Qed.

Lemma with_repo_run {A} (k : list string → list (string * string) → M A)
    st history remotes :
  fs st !! repo_path s = Some (GitDir history remotes) →
  with_repo s k st = k history remotes st.
Proof. intros Hr. unfold with_repo, bind, gets. by rewrite Hr. Qed.

Lemma hosting_run {A} (m : M A) st :
  budget st = None → api_fault w = None → hosting w m st = m st.
Proof.
  destruct st as [f e c h o b]; simpl; intros -> Hf.
  unfold hosting, bind, tick. by rewrite Hf.
Qed.

Lemma hosting_fault {A} (m : M A) st status :
  budget st = None → api_fault w = Some status →
  hosting w m st = (Raise (GithubException status), st).
Proof.
  destruct st as [f e c h o b]; simpl; intros -> Hf.
  unfold hosting, bind, tick. by rewrite Hf.
Qed.

(** The listing of the remotes, when the tool works *)
Lemma git_remote_run st history remotes :
  budget st = None → is_dir_node (node_at (fs st) (path s)) = true →
  git_fault w ["remote"] = None →
  fs st !! repo_path s = Some (GitDir history remotes) →
  git_remote s w st
  = (Ok (Str.join nl remotes.*1), emit (EvGit ["remote"]) st).
Proof.
  intros Hb Hd Hf Hr. unfold git_remote.
  rewrite git_cmd_run by done. by erewrite with_repo_run.
Qed.

(** What [create_repo] answers: the fault of the service if it has one,
    422 if the name is taken *)
Lemma user_create_repo_refused repo_name description st status :
  budget st = None →
  api_fault w = Some status
  ∨ (api_fault w = None ∧ repo_name ∈ hosted st ∧ status = 422%Z) →
  user_create_repo w repo_name description st
  = (Raise (GithubException status), st).
Proof.
  intros Hb [Hf|(Hf & Hin & ->)]; unfold user_create_repo.
  - by apply hosting_fault.
  - rewrite hosting_run by done. unfold bind, gets.
    by rewrite bool_decide_eq_true_2.
Qed.

(** [create_github_repo] once the service has refused with [status] *)
Lemma create_github_repo_refused get_repo_name st history remotes status :
  budget st = None →
  is_dir_node (node_at (fs st) (path s)) = true →
  fs st !! repo_path s = Some (GitDir history remotes) →
  git_fault w ["remote"] = None →
  has_origin (Str.join nl remotes.*1) = false →
  yes_no w "Would you like to create a GitHub repo for it? (Y/n)" true = true →
  api_fault w = Some status
  ∨ (api_fault w = None ∧ choose_repo_name s get_repo_name ∈ hosted st
     ∧ status = 422%Z) →
  ∃ st',
    create_github_repo s w get_repo_name st
    = (Raise (if (status =? 422)%Z
              then GithubRepoExists (choose_repo_name s get_repo_name)
                     (GithubException status)
              else GithubException status), st')
    ∧ out st' = EvPrompt "Would you like to create a GitHub repo for it? (Y/n)" "y"
                  :: EvGit ["remote"] :: out st.
Proof.
  intros Hb Hd Hr Hg Ho Hy Hrefuse. unfold create_github_repo.
  erewrite bind_ok; [|by eapply git_remote_run]. rewrite Ho.
  erewrite bind_ok; [|by apply ask_yes_no_run]. rewrite Hy.
  eexists. split.
  - erewrite bind_raise; [done|]. unfold try_except.
    rewrite (user_create_repo_refused _ _ _ status); [|done|].
    + by destruct (status =? 422)%Z.
    + destruct Hrefuse as [?|(? & ? & ?)]; [by left|by right].
  - done.
Qed.

(** C6: when the hosting service refuses [create_repo] because the name
    is taken (status 422), [create_github_repo] raises
    [GithubRepoExists] for that name with the service's exception as its
    cause; a refusal with any other status leaves it as it came; and
    [perform] catches [GithubRepoExists], prints it and goes on to its
    closing message. *)
Theorem create_repo_collision get_repo_name st history remotes :
  budget st = None →
  is_dir_node (node_at (fs st) (path s)) = true →
  fs st !! repo_path s = Some (GitDir history remotes) →
  git_fault w ["remote"] = None →
  has_origin (Str.join nl remotes.*1) = false →
  yes_no w "Would you like to create a GitHub repo for it? (Y/n)" true = true →
  let repo_name := choose_repo_name s get_repo_name in
  (api_fault w = None → repo_name ∈ hosted st →
     fst (create_github_repo s w get_repo_name st)
     = Raise (GithubRepoExists repo_name (GithubException 422)))
  ∧ (api_fault w = Some 422%Z →
     fst (create_github_repo s w get_repo_name st)
     = Raise (GithubRepoExists repo_name (GithubException 422)))
  ∧ (∀ status, api_fault w = Some status → status ≠ 422%Z →
     fst (create_github_repo s w get_repo_name st)
     = Raise (GithubException status))
  ∧ (∀ to_camel st0 st1,
       get_repo_name = None →
       (api_fault w = None ∧ repo_name ∈ hosted st) ∨ api_fault w = Some 422%Z →
       initialize_template to_camel s w None st0 = (Ok tt, st1) →
       commit_changes s w st1 = (Ok tt, st) →
       ∃ st', perform to_camel s w st0 = (Ok tt, st')
              ∧ out st' = EvPrint ("Created skill at: " +:+ render (path s))
                            :: EvPrint ("GithubRepoExists: " +:+ repo_name)
                            :: EvPrompt "Would you like to create a GitHub repo for it? (Y/n)" "y"
                            :: EvGit ["remote"] :: out st).
Proof.
  intros Hb Hd Hr Hg Ho Hy repo_name.
  split; [|split; [|split]].
  - intros Hf Hin.
    destruct (create_github_repo_refused get_repo_name st history remotes 422)
      as (st' & -> & _); auto.
  - intros Hf.
    destruct (create_github_repo_refused get_repo_name st history remotes 422)
      as (st' & -> & _); auto.
  - intros status Hf Hne.
    destruct (create_github_repo_refused get_repo_name st history remotes status)
      as (st' & -> & _); auto.
    simpl. by rewrite (proj2 (Z.eqb_neq status 422) Hne).
  - intros to_camel st0 st1 -> Hrefuse Hinit Hcommit.
    destruct (create_github_repo_refused None st history remotes 422)
      as (st' & Hrun & Hout); auto.
    { destruct Hrefuse as [[? ?]|?]; [right|left]; done. }
    simpl in Hrun. unfold perform.
    erewrite bind_ok by done. erewrite bind_ok by done.
    eexists. split.
    + erewrite bind_ok; [done|]. unfold print_error, try_except.
      erewrite bind_raise by done. simpl. done.
    + simpl. by rewrite Hout.
Qed.

(** C7: when the pull from the linked remote fails with status 128,
    [link_github_repo] raises [UnrelatedGithubHistory] for the repository
    name with the tool's error as its cause; a pull failing with any
    other status leaves the tool's error as it came. *)
Theorem link_divergent_history get_repo_name st history remotes status :
  budget st = None →
  is_dir_node (node_at (fs st) (path s)) = true →
  fs st !! repo_path s = Some (GitDir history remotes) →
  has_origin (Str.join nl remotes.*1) = false →
  yes_no w "Would you like to link an existing GitHub repo to it? (Y/n)" true = true →
  let repo_name := choose_repo_name s get_repo_name in
  api_fault w = None →
  repo_name ∈ hosted st →
  git_fault w ["remote"] = None →
  git_fault w ["remote"; "add"; "origin"; html_url w repo_name] = None →
  git_fault w ["fetch"] = None →
  git_fault w ["pull"; "origin"; "master"] = Some status →
  (status = 128%Z →
     fst (link_github_repo s w get_repo_name st)
     = Raise (UnrelatedGithubHistory repo_name (GitCommandError 128)))
  ∧ (status ≠ 128%Z →
     fst (link_github_repo s w get_repo_name st)
     = Raise (GitCommandError status)).
Proof.
  intros Hb Hd Hr Ho Hy repo_name Hapi Hin Hg1 Hg2 Hg3 Hg4.
  assert (∃ st', link_github_repo s w get_repo_name st
                 = (Raise (if (status =? 128)%Z
                           then UnrelatedGithubHistory repo_name
                                  (GitCommandError status)
                           else GitCommandError status), st')) as [st' Hrun].
  { unfold link_github_repo.
    erewrite bind_ok; [|by eapply git_remote_run]. rewrite Ho.
    erewrite bind_ok; [|by apply ask_yes_no_run]. rewrite Hy.
    fold repo_name.
    erewrite bind_ok.
    2:{ unfold user_get_repo. rewrite hosting_run by done.
        unfold bind, gets. simpl. by rewrite bool_decide_eq_true_2. }
    erewrite bind_ok.
    2:{ unfold git_remote_add. rewrite git_cmd_run by done.
        by erewrite with_repo_run. }
    set (st2 := set_fs _ _).
    assert (fs st2 !! repo_path s
            = Some (GitDir history
                      (remotes ++ [("origin", html_url w repo_name)])%list)) as Hr2.
    { subst st2. simpl. apply lookup_insert_eq. }
    assert (is_dir_node (node_at (fs st2) (path s)) = true) as Hd2.
    { subst st2. simpl. destruct (path_cons s) as (c & p & Hp).
      rewrite Hp, node_at_cons, lookup_insert_ne.
      - by rewrite <- node_at_cons, <- Hp.
      - unfold repo_path. rewrite Hp. intros Heq.
        apply (f_equal length) in Heq. rewrite length_app in Heq.
        simpl in Heq. lia. }
    erewrite bind_ok.
    2:{ unfold git_fetch. rewrite git_cmd_run by done.
        by erewrite with_repo_run. }
    eexists. erewrite bind_raise; [done|]. unfold try_except, git_pull.
    erewrite git_cmd_fault by done. simpl.
    by destruct (status =? 128)%Z. }
  rewrite Hrun. simpl. split.
  - intros ->. done.
  - intros Hne. by rewrite (proj2 (Z.eqb_neq status 128) Hne).
Qed.

End Remote.

(** Witness: in the scenario the account already hosts
    [siren-alarm-skill]; [perform] prints the collision and ends well. *)
Lemma create_repo_collision_witness :
  ∃ st', perform some_camel siren eager taken = (Ok tt, st')
         ∧ EvPrint "GithubRepoExists: siren-alarm-skill" ∈ out st'.
Proof.
  set (st1 := snd (initialize_template some_camel siren eager None taken)).
  set (st := snd (commit_changes siren eager st1)).
  assert (∃ st', perform some_camel siren eager taken = (Ok tt, st')
                 ∧ out st' = EvPrint ("Created skill at: " +:+ render (path siren))
                      :: EvPrint ("GithubRepoExists: " +:+ choose_repo_name siren None)
                      :: EvPrompt "Would you like to create a GitHub repo for it? (Y/n)" "y"
                      :: EvGit ["remote"] :: out st) as (st' & Hrun & Hout).
  { refine (proj2 (proj2 (proj2
              (create_repo_collision siren eager None st ["Initial commit"] []
                 _ _ _ _ _ _)))
              some_camel taken st1 eq_refl (or_introl (conj eq_refl _))
              (run_eq _ _ _ _) (run_eq _ _ _ _));
      vm_compute; reflexivity. }
  exists st'. split; [exact Hrun|]. rewrite Hout.
  apply list_elem_of_further, list_elem_of_here.
Defined.

(** Witness: the scenario's project linked to a remote with an unrelated
    history *)
Lemma link_divergent_history_witness :
  let st := snd (commit_changes siren diverged
                   (snd (initialize_template some_camel siren diverged None taken))) in
  fst (link_github_repo siren diverged None st)
  = Raise (UnrelatedGithubHistory "siren-alarm-skill" (GitCommandError 128)).
Proof.
  intros st.
  refine (proj1 (link_divergent_history siren diverged None st
                   ["Initial commit"] [] 128 _ _ _ _ _ _ _ _ _ _ _) eq_refl);
                   vm_compute; reflexivity.
Defined.


(** ** Running the scaffold twice *)

Lemma bind_inv {A B} (m : M A) (k : A → M B) st r st' :
  bind m k st = (r, st') →
  (∃ a st1, m st = (Ok a, st1) ∧ k a st1 = (r, st'))
  ∨ (∃ e, m st = (Raise e, st') ∧ r = Raise e).
Proof.
  unfold bind. destruct (m st) as [[a|e] st1]; intros H.
  - left. by exists a, st1.
  - right. injection H as <- <-. by exists e.
Qed.

Lemma bind_ok_inv {A B} (m : M A) (k : A → M B) st b st' :
  bind m k st = (Ok b, st') →
  ∃ a st1, m st = (Ok a, st1) ∧ k a st1 = (Ok b, st').
Proof.
  intros [H|(e & _ & [=])]%bind_inv. done.
Qed.

Lemma grows_same st st' : fs st' = fs st → grows st st'.
Proof. intros H p. by rewrite H. Qed.

Lemma grows_fs_insert p n st st' :
  fs st' = <[p := n]> (fs st) →
  (is_dir_node (fs st !! p) = true → is_dir_node (Some n) = true) →
  grows st st'.
Proof.
  intros Hfs Hn q. rewrite Hfs. destruct (decide (p = q)) as [->|Hne].
  - rewrite lookup_insert_eq. split; [by eauto|done].
  - by rewrite lookup_insert_ne.
Qed.

(** Writing a file removes nothing and replaces no directory *)
Lemma write_file_grows p content : preserves grows (write_file p content).
Proof.
  intros st r st'. destruct st as [m e c h o b].
  unfold write_file, bind, tick, gets, modify. simpl.
  destruct b as [[|n]|]; simpl.
  - intros [= <- <-]. by apply grows_same.
  - destruct (is_dir_node (node_at m p)) eqn:Hp.
    + intros [= <- <-]. by apply grows_same.
    + destruct (node_at m (dirname p)) as [[| |]|];
        intros [= <- <-]; try by apply grows_same.
      all: apply (grows_fs_insert p (File content)); [done|]; simpl;
        destruct p; [done|]; simpl in Hp; congruence.
  - destruct (is_dir_node (node_at m p)) eqn:Hp.
    + intros [= <- <-]. by apply grows_same.
    + destruct (node_at m (dirname p)) as [[| |]|];
        intros [= <- <-]; try by apply grows_same.
      all: apply (grows_fs_insert p (File content)); [done|]; simpl;
        destruct p; [done|]; simpl in Hp; congruence.
Qed.

(** What opening a file for writing does to the file system *)
Lemma open_w_inv p st r st1 :
  open_w p st = (r, st1) →
  (∃ e, r = Raise e ∧ fs st1 = fs st)
  ∨ (r = Ok tt ∧ fs st1 = <[p := File ""]> (fs st)
     ∧ is_dir_node (fs st !! p) = false).
Proof.
  destruct st as [m e c h o b]. unfold open_w, bind, tick, gets, modify.
  simpl. destruct b as [[|n]|]; simpl; [intros [= <- <-]; left; by eexists| |];
    (destruct (is_dir_node (node_at m p)) eqn:Hp;
     [intros [= <- <-]; left; by eexists|];
     destruct (node_at m (dirname p)) as [[| |]|]; intros [= <- <-];
     try (left; by eexists); right; (split; [done|]); (split; [done|]);
     by destruct p).
Qed.

Lemma read_lazy_fs {A} (a : A) st r st' :
  read_lazy a st = (r, st') → fs st' = fs st.
Proof.
  destruct st as [m e c h o b]. unfold read_lazy, bind, tick, ret. simpl.
  destruct b as [[|n]|]; by intros [= <- <-].
Qed.

(** A file opened, then written once its content has been read: nothing
    is removed and no directory replaced, however that ends *)
Lemma open_write_grows {A} p (a : A) (content : A → string) :
  preserves grows (open_w p ;; x <- read_lazy a ;; f_write p (content x)).
Proof.
  intros st r st' [([] & st1 & Hopen & Hrest)|(e & Hopen & ->)]%bind_inv.
  - apply open_w_inv in Hopen as [(e & [=] & _)|(_ & Hfs & Hp)].
    assert (is_dir_node (fs st !! p) = true → False) as Hfile
      by (rewrite Hp; discriminate).
    apply bind_inv in Hrest as [(x & st2 & Hlazy & Hw)|(e & Hlazy & ->)].
    + apply read_lazy_fs in Hlazy. unfold f_write, bind, modify in Hw.
      injection Hw as <- <-.
      apply (grows_fs_insert p (File (content x))); [|by intros ?%Hfile].
      simpl. by rewrite Hlazy, Hfs, insert_insert_eq.
    + apply read_lazy_fs in Hlazy.
      apply (grows_fs_insert p (File "")); [|by intros ?%Hfile].
      by rewrite Hlazy.
  - apply open_w_inv in Hopen as [(e' & _ & Hfs)|([=] & _)].
    by apply grows_same.
Qed.

Create HintDb pres discriminated.
#[local] Hint Resolve write_file_grows open_write_grows : pres.

Ltac preserve_grows :=
  repeat first
    [ solve [auto 1 with pres nocore]
    | preserve_step
    | apply grows_insert; by intros
    | by intros; apply grows_same
    | progress unfold exists_, isdir, mkdir, makedirs, copy,
        print, ask_input, ask_yes_no, in_workdir, git_cmd, with_repo,
        git_init, text, action ].

Section Twice.

Variable to_camel : string → string.
Variable s : answers.

(** No entry of the template removes anything *)
Lemma run_entry_grows w files entry :
  entry ∈ skill_template to_camel s w →
  preserves grows (run_entry s files entry).
Proof.
  intros Hin. unfold skill_template in Hin.
  repeat (apply elem_of_cons in Hin as [->|Hin]); [..|by apply elem_of_nil in Hin];
    unfold run_entry, entry_exists, write_entry, add_vocab, add_dialog,
      license; simpl String.eqb; cbv iota zeta.
  all: preserve_grows.
Qed.

Lemma template_grows w files :
  preserves grows (for_each (skill_template to_camel s w) (run_entry s files)).
Proof.
  apply preserves_for_each_in; [apply _|]. intros entry Hin.
  by apply (run_entry_grows w).
Qed.

Lemma mkdir_ok p st st' :
  mkdir p st = (Ok tt, st') →
  fs st' = <[p := Dir]> (fs st)
  ∧ is_dir_node (node_at (fs st) (dirname p)) = true.
Proof.
  destruct st as [m e c h o b]. unfold mkdir, bind, tick, exists_, gets, modify.
  simpl. destruct b as [[|n]|]; simpl; [done| |];
    (destruct (bool_decide (is_Some (node_at m p))); [done|]);
    by destruct (node_at m (dirname p)) as [[| |]|]; intros [= <-].
Qed.

Lemma makedirs_ok p st st' :
  makedirs p st = (Ok tt, st') →
  is_dir_node (fs st' !! p) = true
  ∧ is_dir_node (node_at (fs st') (dirname p)) = true.
Proof.
  unfold makedirs. intros ([] & st1 & _ & [Hfs Hup]%mkdir_ok)%bind_ok_inv.
  rewrite Hfs. split; [by rewrite lookup_insert_eq|].
  destruct (dirname p) as [|c q] eqn:Hq; [done|]. rewrite node_at_cons in *.
  destruct (decide (p = c :: q)) as [->|Hne].
  - by rewrite lookup_insert_eq.
  - by rewrite lookup_insert_ne.
Qed.

Lemma write_file_ok p content st st' :
  write_file p content st = (Ok tt, st') → fs st' !! p = Some (File content).
Proof.
  destruct st as [m e c h o b]. unfold write_file, bind, tick, gets, modify.
  simpl. destruct b as [[|n]|]; simpl; [done| |];
    (destruct (is_dir_node (node_at m p)); [done|]);
    destruct (node_at m (dirname p)) as [[| |]|]; intros [= <-]; simpl;
    by rewrite lookup_insert_eq.
Qed.

(** A directory made for the lines of a kind ([vocab], [dialog]) and the
    file written into it leave the directory of that kind behind *)
Lemma add_lines_ok {A} kind file (a : A) (content : A → string) st st' :
  (makedirs (path s ++ [kind; lang s]) ;;
   open_w (path s ++ [kind; lang s; file]) ;;
   x <- read_lazy a ;;
   f_write (path s ++ [kind; lang s; file]) (content x))%proc st = (Ok tt, st') →
  is_Some (fs st' !! (path s ++ [kind])%list).
Proof.
  intros ([] & st1 & [_ Hup]%makedirs_ok & Hw)%bind_ok_inv.
  apply open_write_grows in Hw. apply Hw.
  replace (path s ++ [kind; lang s])%list
    with ((path s ++ [kind]) ++ [lang s])%list in Hup
    by by rewrite <- app_assoc.
  rewrite dirname_app in Hup.
  destruct (path s ++ [kind])%list as [|c q] eqn:Hq.
  - by destruct (path s).
  - rewrite node_at_cons in Hup. by destruct (fs st1 !! (c :: q)).
Qed.

Lemma entry_left_grows file st st' :
  grows st st' → entry_left s file st → entry_left s file st'.
Proof.
  unfold entry_left. intros Hg.
  destruct (String.eqb file ""); [apply Hg|].
  destruct (String.eqb file "LICENSE.md"); [done|apply Hg].
Qed.

Lemma isdir_root st : isdir (path s) st = (Ok (is_dir_node (fs st !! path s)), st).
Proof. unfold isdir, gets. by destruct (path_cons s) as (c & p & ->). Qed.

Lemma exists_below file st :
  exists_ (path s ++ [file]) st
  = (Ok (bool_decide (is_Some (fs st !! (path s ++ [file])%list))), st).
Proof. unfold exists_, gets. by destruct (path s). Qed.

(** An entry whose producer yields text is there once the entry is done *)
Lemma run_entry_text file producer st st' :
  String.eqb file "" = false →
  (∀ st0 r st1, producer st0 = (Ok r, st1) → is_Some r) →
  run_entry s None (file, producer) st = (Ok tt, st') →
  is_Some (fs st' !! (path s ++ [file])%list).
Proof.
  intros Hfile Hsome. unfold run_entry, entry_exists, write_entry. simpl.
  rewrite Hfile.
  intros (there & st1 & Hex & Hrest)%bind_ok_inv.
  rewrite exists_below in Hex. injection Hex as <- <-.
  case_bool_decide as Hthere; simpl in Hrest.
  - by injection Hrest as <-.
  - apply bind_ok_inv in Hrest as (r & st1 & Hp & Hrest).
    destruct (Hsome _ _ _ Hp) as [body ->].
    apply bind_ok_inv in Hrest as (there & st2 & Hex & Hrest).
    rewrite exists_below in Hex. injection Hex as <- <-.
    case_bool_decide as Hthere'; simpl in Hrest.
    + by injection Hrest as <-.
    + apply write_file_ok in Hrest. by rewrite Hrest.
Qed.

Lemma action_ok (m : M unit) st r st' :
  action m st = (Ok r, st') → r = None ∧ m st = (Ok tt, st').
Proof.
  unfold action. intros ([] & st1 & Hm & [= <- <-])%bind_ok_inv. done.
Qed.

Lemma run_entry_left w entry st st' :
  entry ∈ skill_template to_camel s w →
  run_entry s None entry st = (Ok tt, st') →
  entry_left s entry.1 st'.
Proof.
  intros Hin. unfold skill_template in Hin.
  repeat (apply elem_of_cons in Hin as [->|Hin]); [..|by apply elem_of_nil in Hin];
    unfold entry_left; simpl; try done.
  - unfold run_entry, entry_exists. simpl.
    intros (there & st1 & Hex & Hrest)%bind_ok_inv.
    rewrite isdir_root in Hex. injection Hex as <- <-.
    destruct (is_dir_node (fs st !! path s)) eqn:Hd; simpl in Hrest.
    + by injection Hrest as <-.
    + apply bind_ok_inv in Hrest as (r & st1 & [-> Hm]%action_ok & [= <-]).
      by apply makedirs_ok in Hm as [? _].
  - unfold run_entry, entry_exists. simpl.
    intros (there & st1 & Hex & Hrest)%bind_ok_inv.
    rewrite exists_below in Hex. injection Hex as <- <-.
    case_bool_decide as Hthere; simpl in Hrest.
    + by injection Hrest as <-.
    + apply bind_ok_inv in Hrest as (r & st1 & [-> Hm]%action_ok & [= <-]).
      exact (add_lines_ok "vocab" _ (intent_lines s)
               (λ lines, Str.join nl (lines ++ [""])%list) _ _ Hm).
  - unfold run_entry, entry_exists. simpl.
    intros (there & st1 & Hex & Hrest)%bind_ok_inv.
    rewrite exists_below in Hex. injection Hex as <- <-.
    case_bool_decide as Hthere; simpl in Hrest.
    + by injection Hrest as <-.
    + apply bind_ok_inv in Hrest as (r & st1 & [-> Hm]%action_ok & [= <-]).
      exact (add_lines_ok "dialog" _ (dialog_lines s)
               (λ lines, Str.join nl (lines ++ [""])%list) _ _ Hm).
  - apply run_entry_text; [done|]. unfold text.
    by intros st0 r st1 (x & st2 & Hx & [= <- _])%bind_ok_inv.
  - apply run_entry_text; [done|]. unfold text.
    by intros st0 r st1 (x & st2 & Hx & [= <- _])%bind_ok_inv.
  - apply run_entry_text; [done|]. unfold text.
    by intros st0 r st1 (x & st2 & Hx & [= <- _])%bind_ok_inv.
  - apply run_entry_text; [done|]. unfold text.
    by intros st0 r st1 (x & st2 & Hx & [= <- _])%bind_ok_inv.
  - apply run_entry_text; [done|].
    by intros st0 r st1 (x & st2 & Hx & [= <- _])%bind_ok_inv.
Qed.

(** After a completed loop every entry has left its mark *)
Lemma template_left w (l : list (string * M (option string))) st st' :
  l ⊆ skill_template to_camel s w →
  for_each l (run_entry s None) st = (Ok tt, st') →
  ∀ entry, entry ∈ l → entry_left s entry.1 st'.
Proof.
  revert st. induction l as [|x l IH]; intros st Hsub Hrun entry Hin.
  - by apply elem_of_nil in Hin.
  - simpl in Hrun. apply bind_ok_inv in Hrun as ([] & st1 & Hx & Hl).
    apply elem_of_cons in Hin as [->|Hin].
    + eapply entry_left_grows.
      * eapply (preserves_for_each_in grows); [|exact Hl].
        intros y Hy. apply (run_entry_grows w). apply Hsub. by right.
      * eapply run_entry_left; [|exact Hx]. apply Hsub. by left.
    + eapply IH; [|exact Hl|exact Hin]. intros y Hy. apply Hsub. by right.
Qed.

(** A completed first run leaves the scaffold *)
Lemma first_run_scaffolds w st st' :
  initialize_template to_camel s w None st = (Ok tt, st') →
  scaffolded s st'.
Proof.
  unfold initialize_template.
  intros (id & st1 & _ & Hrun)%bind_ok_inv.
  apply bind_ok_inv in Hrun as (there & st2 & _ & Hrun).
  apply bind_ok_inv in Hrun as ([] & st3 & _ & Hrun).
  apply bind_ok_inv in Hrun as ([] & st4 & Hloop & Hun).
  unfold atexit_unregister, modify in Hun. injection Hun as <-.
  pose proof (template_left w _ _ _ (reflexivity _) Hloop) as Hleft.
  assert (∀ file, file ∈ (skill_template to_camel s w).*1 →
                  entry_left s file st4) as Hfile.
  { intros file ([f p] & -> & Hin)%list_elem_of_fmap. by apply Hleft. }
  split.
  - apply (Hfile ""). unfold skill_template. simpl. by left.
  - intros file Hin.
    assert (entry_left s file st4) as Hl.
    { apply Hfile. unfold skill_template. simpl.
      repeat (apply elem_of_cons in Hin as [->|Hin]);
        [..|by apply elem_of_nil in Hin]; set_solver. }
    repeat (apply elem_of_cons in Hin as [->|Hin]);
      [..|by apply elem_of_nil in Hin]; exact Hl.
Qed.

(** An entry that is there is passed over: nothing runs, nothing changes *)
Lemma run_entry_present files file producer st :
  (if String.eqb file "" then is_dir_node (fs st !! path s) = true
   else is_Some (fs st !! (path s ++ [file])%list)) →
  run_entry s files (file, producer) st = (Ok tt, st).
Proof.
  intros Hthere. unfold run_entry, entry_exists.
  destruct (restricted files file); [done|].
  destruct (String.eqb file "").
  - erewrite bind_ok; [|apply isdir_root]. by rewrite Hthere.
  - erewrite bind_ok; [|apply exists_below]. by rewrite bool_decide_eq_true_2.
Qed.

#[local] Instance unchanged_outside_preorder q : PreOrder (unchanged_outside q).
Proof.
  split; [done|]. intros x y z Hxy Hyz p Hp. by rewrite Hyz, Hxy.
Qed.

#[local] Instance same_files_preorder : PreOrder same_files.
Proof.
  split; [done|]. intros x y z [? ?] [? ?]. split; congruence.
Qed.

Lemma unchanged_outside_insert q p n st :
  q `prefix_of` p → unchanged_outside q st (set_fs (insert p n) st).
Proof.
  intros Hq p' Hp'. simpl. apply lookup_insert_ne. by intros ->.
Qed.

(** The license entry touches nothing outside [LICENSE.md] *)
Lemma license_entry_outside w files :
  preserves (unchanged_outside (license_path s))
    (run_entry s files ("LICENSE.md", action (license s w))).
Proof.
  unfold run_entry, entry_exists, write_entry, license. simpl String.eqb.
  cbv iota. preserve.
  all: try (intros; by intros ? ?).
  all: apply unchanged_outside_insert; unfold license_path;
    try match goal with |- context [if ?b then _ else _] => destruct b end.
  all: first [done | by apply prefix_app_r].
Qed.

Lemma bind_ext {A B} (m : M A) (k k' : A → M B) st :
  (∀ a st1, k a st1 = k' a st1) → bind m k st = bind m k' st.
Proof. intros H. unfold bind. destruct (m st) as [[a|e] st1]; [apply H|done]. Qed.

Lemma ask_input_bind {B} message reply (k : string → M B) st :
  bind (ask_input message reply) k st
  = bind (ask_input message reply) (λ _, k reply) st.
Proof.
  destruct st as [m e c h o b]. unfold ask_input, bind, tick, modify, ret.
  simpl. by destruct b as [[|n]|].
Qed.

(** Without a number for an answer, [license] prints, asks, and is done *)
Lemma license_no_digit w :
  Str.isdigit (license_choice w) = false →
  preserves same_files (license s w).
Proof.
  intros Hdigit st r st' Hrun.
  assert (preserves same_files
            (print ("For uploading a skill a license is required." +:+ nl +:+
                    "Choose one of the licenses listed below or add one later." +:+ nl) ;;
             for_each (zip (seq 1 (length (get_licenses w))) (get_licenses w))
               (λ '(num, pth), print (cat [pretty num; ": "; pretty_license pth])) ;;
             ask_input "Choose license above or press Enter to skip?"
               (license_choice w) ;;
             ret tt)%proc) as Hpres.
  { preserve. all: intros; by split. }
  apply (Hpres st r st'). rewrite <- Hrun. unfold license.
  apply bind_ext. intros _ st1. apply bind_ext. intros _ st2.
  symmetry. etrans; [apply ask_input_bind|]. apply bind_ext. intros _ st3.
  by rewrite Hdigit.
Qed.

Lemma action_bind {B} (m : M unit) (k : option string → M B) st :
  bind (action m) k st = bind m (λ _, k None) st.
Proof.
  unfold action, bind. by destruct (m st) as [[[]|e] st1].
Qed.

Lemma license_entry_no_digit w files :
  Str.isdigit (license_choice w) = false →
  preserves same_files (run_entry s files ("LICENSE.md", action (license s w))).
Proof.
  intros Hdigit st r st' Hrun.
  assert (preserves same_files
            (if restricted files "LICENSE.md" then ret tt
             else there <- exists_ (path s ++ ["LICENSE.md"]) ;;
                  when (negb there) (license s w ;; ret tt))%proc) as Hpres.
  { destruct (restricted files "LICENSE.md"); [apply preserves_ret; apply _|].
    repeat first [ by apply license_no_digit
                 | preserve_step
                 | progress unfold exists_ ]. }
  apply (Hpres st r st'). rewrite <- Hrun. unfold run_entry, entry_exists.
  simpl String.eqb. cbv iota.
  destruct (restricted files "LICENSE.md"); [done|].
  apply bind_ext. intros there st1. destruct there; [done|]. simpl.
  by rewrite action_bind.
Qed.

Lemma for_each_app {A} (l1 l2 : list A) body st :
  for_each (l1 ++ l2) body st = (for_each l1 body ;; for_each l2 body)%proc st.
Proof.
  revert st. induction l1 as [|x l1 IH]; intros st; simpl;
    unfold bind in *; [done|].
  destruct (body x st) as [[[]|e] st1]; [apply IH|done].
Qed.

Lemma for_each_cons {A} (x : A) l body st :
  for_each (x :: l) body st = (body x ;; for_each l body)%proc st.
Proof. reflexivity. Qed.

Lemma for_each_present files (l : list (string * M (option string))) st :
  (∀ entry, entry ∈ l → run_entry s files entry st = (Ok tt, st)) →
  for_each l (run_entry s files) st = (Ok tt, st).
Proof.
  induction l as [|x l IH]; intros Hl; simpl; [done|].
  erewrite bind_ok; [|apply Hl; by left]. apply IH. intros y Hy.
  apply Hl. by right.
Qed.

Lemma scaffolded_grows st st' : grows st st' → scaffolded s st → scaffolded s st'.
Proof.
  intros Hg [Hd Hfiles]. split; [by apply Hg|].
  intros file Hfile. apply Hg. by apply Hfiles.
Qed.

(** A run over a scaffold comes down to its license entry *)
Lemma second_run w st1 r st2 :
  scaffolded s st1 →
  initialize_template to_camel s w None st1 = (r, st2) →
  ∃ sta st6,
    fs sta = fs st1 ∧ out sta = out st1
    ∧ run_entry s None ("LICENSE.md", action (license s w)) sta = (r, st6)
    ∧ fs st2 = fs st6 ∧ out st2 = out st6.
Proof.
  intros Hsc Hrun. pose proof Hsc as [Hd Hfiles].
  unfold initialize_template in Hrun.
  set (sta := set_closures (S (closures st1)) st1).
  erewrite bind_ok in Hrun; [|reflexivity]. fold sta in Hrun.
  erewrite bind_ok in Hrun; [|apply isdir_root].
  change (fs sta) with (fs st1) in Hrun. rewrite Hd in Hrun.
  erewrite bind_ok in Hrun; [|reflexivity].
  change (skill_template to_camel s w)
    with ((take 5 (skill_template to_camel s w))
          ++ [("LICENSE.md", action (license s w))]
          ++ drop 6 (skill_template to_camel s w))%list in Hrun.
  exists sta.
  assert (∀ st, scaffolded s st →
            ∀ entry, entry ∈ (take 5 (skill_template to_camel s w)
                              ++ drop 6 (skill_template to_camel s w))%list →
                     run_entry s None entry st = (Ok tt, st)) as Hskip.
  { intros st [Hd' Hf'] entry Hin. unfold skill_template in Hin. simpl in Hin.
    repeat (apply elem_of_cons in Hin as [->|Hin]);
      [..|by apply elem_of_nil in Hin];
      apply run_entry_present; simpl; try done; apply Hf'; set_solver. }
  assert (for_each (take 5 (skill_template to_camel s w)
                    ++ [("LICENSE.md", action (license s w))]
                    ++ drop 6 (skill_template to_camel s w))
            (run_entry s None) sta
          = run_entry s None ("LICENSE.md", action (license s w)) sta) as Hloop.
  { rewrite for_each_app. erewrite bind_ok.
    2:{ apply for_each_present. intros entry Hin. apply Hskip; [done|].
        apply elem_of_app. by left. }
    change ([?x] ++ ?l)%list with (x :: l). rewrite for_each_cons.
    destruct (run_entry s None ("LICENSE.md", action (license s w)) sta)
      as [[[]|e] st6] eqn:Hlic.
    - erewrite bind_ok by exact Hlic. apply for_each_present.
      intros entry Hin. apply Hskip; [|apply elem_of_app; by right].
      apply (scaffolded_grows sta st6); [|exact Hsc].
      eapply (run_entry_grows w None); [|exact Hlic].
      unfold skill_template. set_solver.
    - by erewrite bind_raise. }
  apply bind_inv in Hrun as [([] & st6 & Hl & Hun)|(e & Hl & ->)];
    rewrite Hloop in Hl.
  - unfold atexit_unregister, modify in Hun. injection Hun as <- <-.
    by exists st6.
  - by exists st2.
Qed.

Lemma length_app_str (x y : string) :
  String.length (x +:+ y) = String.length x + String.length y.
Proof. induction x as [|c x IH]; str_simpl; simpl; [done|]. by rewrite IH. Qed.

Lemma hex_length digits n : String.length (hex digits n) = digits.
Proof.
  revert n. induction digits as [|d IH]; intros n; simpl; [done|].
  rewrite length_app_str, IH. simpl. lia.
Qed.

(** The name of a commit is never the word the tool echoes without one *)
Lemma object_name_not_HEAD history : String.eqb (object_name history) "HEAD" = false.
Proof.
  apply String.eqb_neq. intros Heq. apply (f_equal String.length) in Heq.
  unfold object_name in Heq. by rewrite hex_length in Heq.
Qed.

(** Once there is a commit, [commit_changes] asks for [HEAD] and stops *)
Lemma commit_changes_with_history w st commit history remotes r st' :
  fs st !! repo_path s = Some (GitDir (commit :: history) remotes) →
  commit_changes s w st = (r, st') →
  fs st' = fs st
  ∧ (r = Ok tt → out st' = EvGit ["rev-parse"; "HEAD"] :: out st).
Proof.
  intros Hrepo. destruct st as [m e c h o b]. simpl in Hrepo.
  unfold commit_changes, git_rev_parse_HEAD, in_workdir, bind, tick, isdir,
    gets, modify, ret. simpl.
  destruct b as [[|n]|]; simpl; [by intros [= <- <-]| |];
    (destruct (is_dir_node (node_at m (path s))); simpl;
     [|by intros [= <- <-]]);
    rewrite Hrepo, object_name_not_HEAD; simpl; by intros [= <- <-].
Qed.

(** C2, as the code has it: a run of the scaffold over the project a
    completed run has left changes nothing outside [LICENSE.md]; when the
    license is there it changes no file and performs no effect at all;
    when the user again gives no number it changes no file and writes
    none; and once the repository has a commit, [commit_changes] leaves
    every file, the history included, as it is. *)
Theorem second_run_idempotent w1 w2 st0 st1 r st2 :
  initialize_template to_camel s w1 None st0 = (Ok tt, st1) →
  initialize_template to_camel s w2 None st1 = (r, st2) →
  (∀ p, ¬ license_path s `prefix_of` p → fs st2 !! p = fs st1 !! p)
  ∧ (is_Some (fs st1 !! license_path s) →
     r = Ok tt ∧ fs st2 = fs st1 ∧ out st2 = out st1)
  ∧ (Str.isdigit (license_choice w2) = false →
     fs st2 = fs st1 ∧ writes st2 = writes st1)
  ∧ (∀ w st commit history remotes r' st',
        fs st !! repo_path s = Some (GitDir (commit :: history) remotes) →
        commit_changes s w st = (r', st') →
        fs st' = fs st).
Proof.
  intros Hfirst Hsecond. apply first_run_scaffolds in Hfirst.
  destruct (second_run w2 st1 r st2 Hfirst Hsecond)
    as (sta & st6 & Hfs & Hout & Hlic & Hfs2 & Hout2).
  split; [|split; [|split]].
  - intros p Hp. rewrite Hfs2, <- Hfs.
    by apply (license_entry_outside w2 None sta r st6 Hlic).
  - intros Hthere. rewrite run_entry_present in Hlic.
    + injection Hlic as <- <-. by rewrite Hfs2, Hout2.
    + simpl. by rewrite Hfs.
  - intros Hdigit.
    destruct (license_entry_no_digit w2 None Hdigit sta r st6 Hlic) as [Hf Hw].
    split; [by rewrite Hfs2, Hf|].
    unfold writes in *. by rewrite Hout2, Hw, Hout.
  - intros w st commit history remotes r' st' Hrepo Hrun.
    by destruct (commit_changes_with_history w st commit history remotes r' st'
                   Hrepo Hrun).
Qed.

End Twice.

(** ** Restricting the template to a subset of its entries *)

(** C9: with [files] the empty set the restriction is off:
    [initialize_template] does exactly what it does with [files = None],
    so a run that completes has gone through every entry of the template
    and leaves the scaffold, and an entry that is not there has its
    producer run; an entry is passed over only when [files] is a non-empty
    set that lacks its name, and then its producer is not run; any other
    entry is handled as without a restriction. *)
Theorem empty_files_restrict_nothing to_camel s w :
  (∀ st, initialize_template to_camel s w (Some ∅) st
         = initialize_template to_camel s w None st)
  ∧ (∀ st st', initialize_template to_camel s w (Some ∅) st = (Ok tt, st') →
               scaffolded s st')
  ∧ (∀ file producer st,
        fst (entry_exists s file st) = Ok false →
        run_entry s (Some ∅) (file, producer) st
        = (result <- producer ;;
           match result with
           | Some body =>
               there <- entry_exists s file ;;
               when (negb there) (write_entry s file body)
           | None => ret tt
           end)%proc st)
  ∧ (∀ files file,
        restricted files file = true
        ↔ ∃ fileset, files = Some fileset ∧ fileset ≠ ∅ ∧ file ∉ fileset)
  ∧ (∀ files file producer st,
        restricted files file = true →
        run_entry s files (file, producer) st = (Ok tt, st))
  ∧ (∀ files file producer st,
        restricted files file = false →
        run_entry s files (file, producer) st
        = run_entry s None (file, producer) st).
Proof.
  assert (∀ st, initialize_template to_camel s w (Some ∅) st
                = initialize_template to_camel s w None st) as Hsame.
  { intros st. unfold initialize_template, bind.
    destruct (new_closure st) as [[id|e] st0]; [|done].
    destruct (isdir (path s) st0) as [[there|e] st1]; [|done].
    destruct (when _ _ st1) as [[[]|e] st2]; [|done].
    rewrite (for_each_ext _ (run_entry s (Some ∅)) (run_entry s None)); [done|].
    by intros [file producer] st3. }
  split; [done|]. split; [|split; [|split; [|split]]].
  - intros st st' Hrun. rewrite Hsame in Hrun.
    by eapply first_run_scaffolds.
  - intros file producer st Habsent. unfold run_entry.
    change (restricted (Some ∅) file) with false. cbv iota.
    unfold bind at 1.
    destruct (entry_exists s file st) as [r st1] eqn:Hex. simpl in Habsent.
    subst r. assert (st1 = st) as ->.
    { unfold entry_exists, isdir, exists_, gets in Hex.
      destruct (String.eqb file ""); by injection Hex. }
    reflexivity.
  - apply restricted_iff.
  - intros files file producer st Hr. unfold run_entry. by rewrite Hr.
  - intros files file producer st Hr. unfold run_entry. by rewrite Hr.
Qed.

(** Witness: the scenario scaffolded with the empty set for [files] is
    complete; and on a machine without the project, asking for
    [README.md] alone passes over the vocabulary entry and makes nothing. *)
Lemma empty_files_restrict_nothing_witness :
  scaffolded siren
    (snd (initialize_template some_camel siren (user "") (Some ∅) (boot None)))
  ∧ run_entry siren (Some {["README.md"]}) ("vocab", action (add_vocab siren))
      (boot None)
    = (Ok tt, boot None).
Proof.
  destruct (empty_files_restrict_nothing some_camel siren (user ""))
    as (_ & Hall & _ & _ & Hskip & _).
  split.
  - apply (Hall (boot None)). apply run_eq. vm_compute; reflexivity.
  - apply Hskip. vm_compute; reflexivity.
Defined.

(** Witness: the scenario scaffolded by a user who picks the first
    license, then run again by one who asks for the second *)
Lemma second_run_idempotent_witness :
  let st1 := snd (initialize_template some_camel siren (user "1") None (boot None)) in
  let st2 := snd (initialize_template some_camel siren (user "2") None st1) in
  fs st2 = fs st1 ∧ out st2 = out st1.
Proof.
  intros st1 st2.
  refine (proj2 (proj1 (proj2
            (second_run_idempotent some_camel siren (user "1") (user "2")
               (boot None) st1 _ st2 (run_eq _ _ _ _) (run_eq _ _ _ eq_refl)))
            _));
    vm_compute; eauto.
Defined.

(** C2 as stated fails: the user skips the license in the first run of
    the scenario and picks the first one in the second; both runs
    complete, and the second writes [LICENSE.md]. *)
Lemma second_run_writes_license :
  let st2 := snd (initialize_template some_camel siren (user "1") None built) in
  fst (initialize_template some_camel siren (user "") None (boot None)) = Ok tt
  ∧ fst (initialize_template some_camel siren (user "1") None built) = Ok tt
  ∧ fs built !! license_path siren = None
  ∧ fs st2 !! license_path siren = Some (File "MIT License")
  ∧ writes st2 = S (writes built).
Proof. vm_compute. repeat split. Qed.

(** * Further properties *)

(** ** The name prompt *)

Lemma str_map_map f g (x : string) : Str.map f (Str.map g x) = Str.map (λ c, f (g c)) x.
Proof. induction x as [|c x IH]; simpl; congruence. Qed.

Lemma map_ext_str f g (x : string) : (∀ c, f c = g c) → Str.map f x = Str.map g x.
Proof. intros H. induction x as [|c x IH]; simpl; congruence. Qed.

Lemma all_map p f (x : string) : Str.all p (Str.map f x) = Str.all (λ c, p (f c)) x.
Proof. induction x as [|c x IH]; simpl; congruence. Qed.

Lemma all_true p (x : string) : (∀ c, p c = true) → Str.all p x = true.
Proof. intros H. induction x as [|c x IH]; simpl; [done|]. by rewrite H, IH. Qed.

Lemma first_char_map f x : first_char (Str.map f x) = f <$> first_char x.
Proof. by destruct x. Qed.

Lemma last_char_map f x : last_char (Str.map f x) = f <$> last_char x.
Proof.
  induction x as [|c x IH]; [done|]. destruct x as [|d x]; [done|].
  exact IH.
Qed.

Lemma lstrip_first chars x c :
  first_char (Str.lstrip chars x) = Some c → Str.mem c chars = false.
Proof.
  induction x as [|d x IH]; simpl; [done|].
  destruct (Str.mem d chars) eqn:Hd; [done|]. simpl. by intros [= <-].
Qed.

Lemma rstrip_cons chars c x :
  Str.rstrip chars (String c x)
  = match Str.rstrip chars x with
    | EmptyString => if Str.mem c chars then EmptyString else String c EmptyString
    | r => String c r
    end.
Proof. reflexivity. Qed.

Lemma rstrip_last chars x c :
  last_char (Str.rstrip chars x) = Some c → Str.mem c chars = false.
Proof.
  induction x as [|d x IH]; [done|]. rewrite rstrip_cons.
  destruct (Str.rstrip chars x) as [|e r] eqn:Hr.
  - destruct (Str.mem d chars) eqn:Hd; [done|]. simpl. by intros [= <-].
  - exact IH.
Qed.

Lemma rstrip_first chars x c :
  first_char (Str.rstrip chars x) = Some c → first_char x = Some c.
Proof.
  destruct x as [|d x]; [done|]. rewrite rstrip_cons.
  destruct (Str.rstrip chars x); [|done].
  by destruct (Str.mem d chars).
Qed.

Lemma lstrip_id chars x :
  match first_char x with Some c => Str.mem c chars = false | None => True end →
  Str.lstrip chars x = x.
Proof. destruct x as [|c x]; simpl; [done|]. by intros ->. Qed.

Lemma rstrip_id chars x :
  match last_char x with Some c => Str.mem c chars = false | None => True end →
  Str.rstrip chars x = x.
Proof.
  induction x as [|c x IH]; [done|]. rewrite rstrip_cons.
  destruct x as [|d x].
  - simpl. by intros ->.
  - intros H. rewrite IH by exact H. done.
Qed.

(** Lower-casing and then turning spaces into hyphens, one character *)
Lemma normalize_char_twice g c :
  g = (λ c, if Ascii.eqb (to_lower c) " " then "-"%char else to_lower c) →
  g (g c) = g c ∧ is_upper (g c) = false ∧ Ascii.eqb " " (g c) = false
  ∧ (Str.mem c " -" = false → Str.mem (g c) " -" = false).
Proof. intros ->. by destruct c as [[] [] [] [] [] [] [] []]. Qed.

Lemma normalize_name_map raw :
  normalize_name raw
  = Str.map (λ c, if Ascii.eqb (to_lower c) " " then "-"%char else to_lower c)
      (Str.strip " -" raw).
Proof. unfold normalize_name, Str.replace, Str.lower. apply str_map_map. Qed.

Lemma mem_map_false a f (x : string) :
  (∀ c, Ascii.eqb a (f c) = false) → Str.mem a (Str.map f x) = false.
Proof. intros H. induction x as [|c x IH]; simpl; [done|]. by rewrite H, IH. Qed.

(** X1: the normalized name holds no space and no upper-case letter,
    neither begins nor ends with a space or a hyphen, and normalizing it
    again changes nothing. *)
Theorem normalize_name_shape (raw : string) :
  let n := normalize_name raw in
  Str.mem " " n = false
  ∧ Str.all (λ c, negb (is_upper c)) n = true
  ∧ no_edge (first_char n)
  ∧ no_edge (last_char n)
  ∧ normalize_name n = n.
Proof.
  intros n. subst n. rewrite normalize_name_map.
  set (g := λ c, if Ascii.eqb (to_lower c) " " then "-"%char else to_lower c).
  set (t := Str.strip " -" raw).
  assert (no_edge (first_char (Str.map g t))) as Hfirst.
  { rewrite first_char_map. destruct (first_char t) as [c|] eqn:Hc; [|done].
    simpl. apply (normalize_char_twice g c eq_refl).
    eapply lstrip_first, rstrip_first. exact Hc. }
  assert (no_edge (last_char (Str.map g t))) as Hlast.
  { rewrite last_char_map. destruct (last_char t) as [c|] eqn:Hc; [|done].
    simpl. apply (normalize_char_twice g c eq_refl). eapply rstrip_last. exact Hc. }
  split; [|split; [|split; [|split]]]; try done.
  - apply mem_map_false. intros c. apply (normalize_char_twice g c eq_refl).
  - rewrite all_map. apply all_true. intros c.
    by rewrite (proj1 (proj2 (normalize_char_twice g c eq_refl))).
  - rewrite normalize_name_map. fold g. unfold Str.strip.
    rewrite (lstrip_id " -" (Str.map g t)) by exact Hfirst.
    rewrite (rstrip_id " -" (Str.map g t)) by exact Hlast.
    rewrite str_map_map. apply map_ext_str. intros c.
    apply (normalize_char_twice g c eq_refl).
Qed.

Lemma lstrip_all chars x :
  Str.all (λ c, Str.mem c chars) x = true → Str.lstrip chars x = "".
Proof.
  induction x as [|c x IH]; simpl; [done|].
  intros [Hc Hx]%andb_prop. by rewrite Hc, IH.
Qed.

Lemma name_rest_all x :
  Str.all (λ c, Str.mem c " -") x = true → name_rest x = true.
Proof.
  assert (∀ c, Str.mem c " -" = true → name_char c = true) as Hc.
  { intros c. by destruct c as [[] [] [] [] [] [] [] []]. }
  induction x as [|c x IH]; [done|].
  simpl Str.all. intros [H1 H2]%andb_prop.
  destruct x as [|d x].
  - simpl. by rewrite (Hc c H1).
  - change (name_rest (String c (String d x)))
      with (name_char c && name_rest (String d x)).
    by rewrite (Hc c H1), IH.
Qed.

(** X2: an answer made of spaces and hyphens only passes the name
    validator, and its normalized name is empty. *)
Theorem blank_name_accepted (x : string) :
  x ≠ "" →
  Str.all (λ c, Str.mem c " -") x = true →
  name_validator x = true ∧ normalize_name x = "".
Proof.
  intros Hne Hall. split.
  - destruct x as [|c x]; [done|]. simpl in Hall.
    apply andb_prop in Hall as [Hc Hx]. unfold name_validator.
    rewrite (name_rest_all x Hx).
    by destruct c as [[] [] [] [] [] [] [] []].
  - unfold normalize_name, Str.strip. by rewrite lstrip_all.
Qed.

Lemma blank_name_accepted_witness :
  name_validator " - " = true ∧ normalize_name " - " = "".
Proof. apply blank_name_accepted; [discriminate|reflexivity]. Defined.

(** ** The intent identifier, read backwards *)

Lemma split_parts_keep c sep x :
  Str.mem c x = false → Forall (λ t, Str.mem c t = false) (Str.split sep x).
Proof.
  induction x as [|d x IH]; simpl.
  - by constructor.
  - intros [Hd Hx]%orb_false_elim. specialize (IH Hx).
    destruct (Ascii.eqb d sep).
    + by constructor.
    + destruct (Str.split sep x) as [|t ts].
      * constructor; [|done]. simpl. by rewrite Hd.
      * inversion IH; subst. constructor; [|done]. simpl. by rewrite Hd.
Qed.

(** X3: a name without a dot is recovered from its intent identifier by
    the same reversal with dot and hyphen exchanged, so two such names
    with the same identifier are the same name. *)
Theorem intent_name_recovers (name : string) :
  Str.mem "." name = false →
  Str.join "-" (rev (Str.split "." (intent_name name))) = name
  ∧ ∀ other, Str.mem "." other = false →
             intent_name other = intent_name name → other = name.
Proof.
  assert (∀ n, Str.mem "." n = false →
               Str.join "-" (rev (Str.split "." (intent_name n))) = n) as Hback.
  { intros n Hn. unfold intent_name. rewrite (split_join ".").
    - rewrite rev_involutive. apply (join_split "-").
    - intros Hnil. apply (f_equal (@rev string)) in Hnil.
      rewrite rev_involutive in Hnil. by apply split_nonempty in Hnil.
    - apply Forall_rev. by apply split_parts_keep. }
  intros Hname. split; [by apply Hback|].
  intros other Hother Heq.
  rewrite <- (Hback other Hother), <- (Hback name Hname). by rewrite Heq.
Qed.

Lemma intent_name_recovers_witness :
  Str.join "-" (rev (Str.split "." (intent_name "pizza-orderer"))) = "pizza-orderer".
Proof. exact (proj1 (intent_name_recovers "pizza-orderer" eq_refl)). Defined.

(** ** Entity names *)

Lemma entities_single x : entities [x] = list_to_set (findall x).
Proof. reflexivity. Qed.

(** X4: an extracted entity consists of letters and underscores only,
    possibly of none at all: a pair of braces with nothing between them
    yields the empty name; and text without an opening brace yields no
    entity. *)
Theorem entity_names (lines : list string) :
  (∀ ent, ent ∈ entities lines → Str.all is_ident ent = true)
  ∧ (Str.mem "{" (Str.join nl lines) = false → entities lines = ∅)
  ∧ (∀ before after, "" ∈ entities [before +:+ "{}" +:+ after]).
Proof.
  split; [|split].
  - intros ent. apply entities_ident.
  - intros Hfree. unfold entities, findall.
    by rewrite findall_none.
  - intros before after. rewrite entities_single.
    apply elem_of_list_to_set. unfold findall.
    change ("{}" +:+ after) with (String "{" ("" +:+ String "}" after)).
    by apply findall_contains.
Qed.

Lemma entity_names_witness :
  entities ["say hello"; "how are you"] = ∅.
Proof. apply (entity_names ["say hello"; "how are you"]). reflexivity. Defined.

(** ** The handler stub *)

Lemma mem_join c sep (l : list string) :
  Str.mem c sep = false → Forall (λ t, Str.mem c t = false) l →
  Str.mem c (Str.join sep l) = false.
Proof.
  intros Hsep Hl. induction Hl as [|t ts Ht Hts IH]; [done|].
  destruct ts as [|t' ts]; [done|].
  change (Str.join sep (t :: t' :: ts)) with (t +:+ sep +:+ Str.join sep (t' :: ts)).
  by rewrite !mem_app, Ht, Hsep, IH.
Qed.

Lemma intent_name_keeps c name :
  Ascii.eqb c "." = false → Str.mem c name = false →
  Str.mem c (intent_name name) = false.
Proof.
  intros Hc Hname. unfold intent_name. apply mem_join.
  - simpl. by rewrite Hc.
  - apply Forall_rev. by apply split_parts_keep.
Qed.

(** X5: every entity of the example phrases is read from the message by a
    line of the handler stub; and without any entity the handler is the
    one call of [speak_dialog] with the intent identifier and no data. *)
Theorem handler_reads_entities iter (s : answers) :
  (∀ ent, ent ∈ intent_entities s →
     ("        " +:+ ent +:+ " = message.data.get(" +:+ sq +:+ ent +:+ sq +:+ ")")
       ∈ Str.split "010" (handler_code iter s))
  ∧ (intent_entities s = ∅ → dialog_entities s = ∅ →
     Str.mem "010" (name s) = false →
     handler_code iter s
     = "        self.speak_dialog(" +:+ sq +:+ intent_name (name s) +:+ sq +:+ ")").
Proof.
  split.
  - intros ent Hent. rewrite handler_code_lines.
    apply list_elem_of_fmap.
    exists (cat [ent; " = message.data.get("; sq; ent; sq; ")"]). split.
    + unfold indent, cat. simpl. rewrite append_nil_r.
      destruct ent; reflexivity.
    + unfold handler_lines. apply elem_of_app. left.
      apply list_elem_of_fmap. exists ent. split; [done|].
      by apply elem_of_sorted.
  - intros Hi Hd Hname. unfold handler_code, handler_lines.
    rewrite Hi, Hd. unfold sorted.
    replace (elements (∅ : gset string)) with (@nil string) by by rewrite elements_empty.
    replace (∅ ∖ ∅ : gset string) with (∅ : gset string) by set_solver.
    replace (elements (∅ : gset string)) with (@nil string) by by rewrite elements_empty.
    replace (truthy (∅ ∪ ∅)) with false.
    2:{ symmetry. apply bool_decide_eq_false. intros H. apply H. set_solver. }
    simpl. rewrite split_free.
    + simpl. unfold indent, cat. simpl. by rewrite !append_nil_r.
    + unfold cat. simpl. rewrite !mem_app.
      rewrite intent_name_keeps by done. reflexivity.
Qed.

Lemma handler_reads_entities_witness :
  handler_code elements siren
  = "        self.speak_dialog(" +:+ sq +:+ "alarm.siren" +:+ sq +:+ ")".
Proof.
  refine (proj2 (handler_reads_entities elements siren) _ _ _);
    vm_compute; reflexivity.
Defined.

(** ** Vocabulary and dialog files *)

Lemma mem_nl_capitalize x : Str.mem "010" (Str.capitalize x) = Str.mem "010" x.
Proof.
  assert (∀ c, Ascii.eqb "010" (to_lower c) = Ascii.eqb "010" c) as Hl
    by (intros c; by destruct c as [[] [] [] [] [] [] [] []]).
  assert (∀ c, Ascii.eqb "010" (to_upper c) = Ascii.eqb "010" c) as Hu
    by (intros c; by destruct c as [[] [] [] [] [] [] [] []]).
  destruct x as [|c x]; [done|]. unfold Str.capitalize, Str.lower. simpl.
  rewrite Hu. f_equal. induction x as [|d x IH]; simpl; [done|].
  by rewrite Hl, IH.
Qed.

(** What a file of lines reads back as *)
Lemma lines_read_back (lines : list string) :
  Forall (λ l, Str.mem "010" l = false) lines →
  Str.split "010" (Str.join nl ((Str.capitalize <$> lines) ++ [""])%list)
  = ((Str.capitalize <$> lines) ++ [""])%list.
Proof.
  intros Hfree. apply (split_join "010").
  - intros Hnil. by apply app_eq_nil in Hnil as [_ ?].
  - apply Forall_app. split; [|by constructor].
    apply Forall_fmap. eapply Forall_impl; [exact Hfree|]. intros l Hl. simpl.
    by rewrite mem_nl_capitalize.
Qed.

Lemma lines_written {A} p (a : A) (content : A → string) st st' :
  (open_w p ;; x <- read_lazy a ;; f_write p (content x))%proc st = (Ok tt, st') →
  fs st' !! p = Some (File (content a)).
Proof.
  intros ([] & st1 & _ & Hrest)%bind_ok_inv.
  apply bind_ok_inv in Hrest as (x & st2 & Hlazy & Hw).
  unfold read_lazy in Hlazy.
  apply bind_ok_inv in Hlazy as ([] & st3 & _ & [= <- <-]).
  unfold f_write, bind, modify in Hw. injection Hw as <-. simpl.
  apply lookup_insert_eq.
Qed.

(** X6: when [add_vocab] (or [add_dialog]) completes, the file of the
    intent holds the capitalized lines, each ended by a line break: read
    back and split at line breaks it gives these lines and one empty
    string, provided no answer holds a line break. *)
Theorem lines_files_read_back (s : answers) (st st' : proc) :
  (add_vocab s st = (Ok tt, st') →
   ∃ content, fs st' !! vocab_file s = Some (File content)
     ∧ (Forall (λ l, Str.mem "010" l = false) (ask_intent_lines s) →
        Str.split "010" content = (intent_lines s ++ [""])%list))
  ∧ (add_dialog s st = (Ok tt, st') →
     ∃ content, fs st' !! dialog_file s = Some (File content)
       ∧ (Forall (λ l, Str.mem "010" l = false) (ask_dialog_lines s) →
          Str.split "010" content = (dialog_lines s ++ [""])%list)).
Proof.
  split.
  - unfold add_vocab.
    intros ([] & st1 & _ & Hw%lines_written)%bind_ok_inv.
    eexists. split; [exact Hw|]. intros Hfree. unfold intent_lines.
    by apply lines_read_back.
  - unfold add_dialog.
    intros ([] & st1 & _ & Hw%lines_written)%bind_ok_inv.
    eexists. split; [exact Hw|]. intros Hfree. unfold dialog_lines.
    by apply lines_read_back.
Qed.

Lemma lines_files_read_back_witness :
  let st := snd (makedirs (path siren) (boot None)) in
  ∃ content, fs (snd (add_vocab siren st)) !! vocab_file siren = Some (File content)
    ∧ Str.split "010" content = ["Set an alarm"; ""].
Proof.
  intros st.
  assert (fst (add_vocab siren st) = Ok tt) as Hok by (vm_compute; reflexivity).
  destruct (proj1 (lines_files_read_back siren st (snd (add_vocab siren st)))
              (run_eq (add_vocab siren) st (Ok tt) Hok))
    as (content & Hfile & Hsplit).
  exists content. split; [exact Hfile|].
  apply Hsplit. repeat constructor.
Defined.

(** ** License selection, the other answers *)

Lemma py_index_nat {A} (l : list A) k x :
  l !! k = Some x → py_index l (Z.of_nat k) = Ok x.
Proof.
  intros Hk. unfold py_index.
  assert ((Z.of_nat k <? 0)%Z = false) as -> by (apply Z.ltb_ge; lia).
  pose proof (lookup_lt_Some _ _ _ Hk) as Hlt.
  assert ((0 <=? Z.of_nat k)%Z && (Z.of_nat k <? Z.of_nat (length l))%Z = true) as ->.
  { apply andb_true_iff. split; [apply Z.leb_le|apply Z.ltb_lt]; lia. }
  by rewrite Nat2Z.id, Hk.
Qed.

(** X7: an answer that is not a string of digits (the empty answer, a
    word, a signed or fractional number) copies no license: [license]
    completes and leaves every file as it is. *)
Theorem license_skipped (s : answers) (w : world) (st : proc) :
  budget st = None →
  Str.isdigit (license_choice w) = false →
  fst (license s w st) = Ok tt
  ∧ fs (snd (license s w st)) = fs st
  ∧ writes (snd (license s w st)) = writes st.
Proof.
  intros Hb Hdigit.
  destruct (license_asks s w st Hb) as [o Hrun].
  rewrite Hdigit in Hrun. simpl in Hrun.
  destruct (license_no_digit s w Hdigit st _ _ (surjective_pairing _)) as [Hfs Hw].
  rewrite Hrun. simpl. split; [done|]. split; [done|].
  rewrite <- Hw. by rewrite Hrun.
Qed.

Lemma license_skipped_witness :
  fs (snd (license siren (user "-1") (boot None))) = fs (boot None).
Proof.
  refine (proj1 (proj2 (license_skipped siren (user "-1") (boot None) _ _)));
    reflexivity.
Defined.

(** X8: the answer [k], for [k] from 1 to the number of listed licenses,
    copies the [k]-th listed file to [LICENSE.md] of a project that has
    none. *)
Theorem license_picks (s : answers) (w : world) (st : proc)
    (k : nat) (src : list string) (content : string) :
  budget st = None →
  Str.isdigit (license_choice w) = true →
  Str.int (license_choice w) = Z.of_nat (S k) →
  get_licenses w !! k = Some src →
  node_at (fs st) src = Some (File content) →
  is_dir_node (node_at (fs st) (path s)) = true →
  fs st !! license_path s = None →
  fst (license s w st) = Ok tt
  ∧ fs (snd (license s w st)) = <[license_path s := File content]> (fs st).
Proof.
  intros Hb Hdigit Hk Hsrc Hfile Hroot Hfree.
  destruct (license_asks s w st Hb) as [o Hrun]. rewrite Hdigit in Hrun.
  simpl when in Hrun. rewrite Hrun.
  erewrite bind_ok.
  2:{ rewrite Hk. replace (Z.of_nat (S k) - 1)%Z with (Z.of_nat k) by lia.
      by rewrite (py_index_nat _ _ _ Hsrc). }
  erewrite bind_ok.
  2:{ apply (copy_file src (license_path s) content); simpl; [done..| |].
      - unfold license_path in *. by destruct (path s).
      - unfold license_path. by rewrite dirname_app. }
  done.
Qed.

Lemma license_picks_witness :
  let st := snd (makedirs (path siren) (boot None)) in
  fs (snd (license siren (user "2") st))
  = <[license_path siren := File "Apache License"]> (fs st).
Proof.
  intros st.
  refine (proj2 (license_picks siren (user "2") st 1 apache "Apache License"
                   _ _ _ _ _ _ _));
    vm_compute; reflexivity.
Defined.


(** ** The commit step, from the start *)


Lemma root_not_repo s : path s ≠ repo_path s.
Proof.
  unfold repo_path. intros Heq. apply (f_equal length) in Heq.
  rewrite length_app in Heq. simpl in Heq. lia.
Qed.

Lemma root_dir_insert_repo s m n :
  is_dir_node (node_at m (path s)) = true →
  is_dir_node (node_at (<[repo_path s := n]> m) (path s)) = true.
Proof.
  intros Hd. destruct (path_cons s) as (c & p & Hp).
  rewrite Hp, node_at_cons, lookup_insert_ne.
  - by rewrite <- node_at_cons, <- Hp.
  - rewrite <- Hp. intros Heq. by apply (root_not_repo s).
Qed.



(** ** The remote repository, when all goes well *)

Lemma join_snoc sep (l : list string) y :
  l ≠ [] → Str.join sep (l ++ [y]) = Str.join sep l +:+ sep +:+ y.
Proof.
  induction l as [|x l IH]; [done|]. intros _.
  destruct l as [|x' l]; [done|].
  change (Str.join sep ((x :: x' :: l) ++ [y]))
    with (x +:+ sep +:+ Str.join sep ((x' :: l) ++ [y])).
  rewrite IH by done.
  change (Str.join sep (x :: x' :: l)) with (x +:+ sep +:+ Str.join sep (x' :: l)).
  by rewrite !append_assoc.
Qed.

(** Once a remote named [origin] has been added, the listing shows it *)
Lemma has_origin_added (names : list string) :
  has_origin (Str.join nl (names ++ ["origin"])) = true.
Proof.
  unfold has_origin. apply bool_decide_eq_true.
  destruct names as [|n names]; [by left|].
  rewrite join_snoc by done. unfold nl. str_simpl.
  rewrite split_sep_app. apply elem_of_app. right. by left.
Qed.


Section RemoteRuns.

Variable s : answers.
Variable w : world.

Lemma user_create_repo_run repo_name description st :
  budget st = None → api_fault w = None → repo_name ∉ hosted st →
  user_create_repo w repo_name description st
  = (Ok (html_url w repo_name),
     emit (EvCreateRepo repo_name description)
       (set_hosted (union {[repo_name]}) st)).
Proof.
  intros Hb Hf Hfree. unfold user_create_repo.
  rewrite hosting_run by done. unfold bind, gets.
  by rewrite bool_decide_eq_false_2.
Qed.

Lemma user_get_repo_run repo_name st :
  budget st = None → api_fault w = None → repo_name ∈ hosted st →
  user_get_repo w repo_name st = (Ok (html_url w repo_name), st).
Proof.
  intros Hb Hf Hin. unfold user_get_repo.
  rewrite hosting_run by done. unfold bind, gets.
  by rewrite bool_decide_eq_true_2.
Qed.

Lemma git_remote_add_run remote url st history remotes :
  budget st = None → is_dir_node (node_at (fs st) (path s)) = true →
  git_fault w ["remote"; "add"; remote; url] = None →
  fs st !! repo_path s = Some (GitDir history remotes) →
  git_remote_add s w remote url st
  = (Ok tt, set_fs (insert (repo_path s)
                      (GitDir history (remotes ++ [(remote, url)])))
              (emit (EvGit ["remote"; "add"; remote; url]) st)).
Proof.
  intros Hb Hd Hf Hr. unfold git_remote_add.
  rewrite git_cmd_run by done. by erewrite with_repo_run.
Qed.

Lemma git_plain_run command st history remotes :
  budget st = None → is_dir_node (node_at (fs st) (path s)) = true →
  git_fault w command = None →
  fs st !! repo_path s = Some (GitDir history remotes) →
  git_cmd s w command (with_repo s (λ _ _, ret tt)) st
  = (Ok tt, emit (EvGit command) st).
Proof.
  intros Hb Hd Hf Hr. rewrite git_cmd_run by done. by erewrite with_repo_run.
Qed.

Lemma call_git_push_run st :
  budget st = None → is_dir_node (node_at (fs st) (path s)) = true →
  call_git_push s st = (Ok tt, emit (EvGit ["push"; "-u"; "origin"; "master"]) st).
Proof.
  destruct st as [m e c h o b]. simpl. intros -> Hd.
  unfold call_git_push, in_workdir, bind, tick, isdir, gets, modify. simpl.
  by rewrite Hd.
Qed.

(** With a remote named [origin] configured neither operation asks, nor
    contacts the hosting service: the listing of the remotes is all *)
Lemma origin_configured get_repo_name st history remotes :
  budget st = None →
  is_dir_node (node_at (fs st) (path s)) = true →
  fs st !! repo_path s = Some (GitDir history remotes) →
  git_fault w ["remote"] = None →
  has_origin (Str.join nl remotes.*1) = true →
  create_github_repo s w get_repo_name st = (Ok None, emit (EvGit ["remote"]) st)
  ∧ link_github_repo s w get_repo_name st = (Ok None, emit (EvGit ["remote"]) st).
Proof.
  intros Hb Hd Hr Hg Ho. split.
  - unfold create_github_repo.
    erewrite bind_ok; [|by eapply git_remote_run]. by rewrite Ho.
  - unfold link_github_repo.
    erewrite bind_ok; [|by eapply git_remote_run]. by rewrite Ho.
Qed.

(** X10: when the user confirms and the name is free, [create_github_repo]
    creates the repository on the account, adds it as the remote [origin]
    and returns it; called again, it and [link_github_repo] find [origin]
    and do nothing but list the remotes. *)
Theorem create_repo_configures_origin get_repo_name st history remotes :
  budget st = None →
  is_dir_node (node_at (fs st) (path s)) = true →
  fs st !! repo_path s = Some (GitDir history remotes) →
  git_fault w ["remote"] = None →
  has_origin (Str.join nl remotes.*1) = false →
  yes_no w "Would you like to create a GitHub repo for it? (Y/n)" true = true →
  api_fault w = None →
  let repo_name := choose_repo_name s get_repo_name in
  let url := html_url w repo_name in
  repo_name ∉ hosted st →
  git_fault w ["remote"; "add"; "origin"; url] = None →
  ∃ st1,
    create_github_repo s w get_repo_name st = (Ok (Some url), st1)
    ∧ hosted st1 = {[repo_name]} ∪ hosted st
    ∧ fs st1 = <[repo_path s := GitDir history (remotes ++ [("origin", url)])]> (fs st)
    ∧ create_github_repo s w get_repo_name st1
      = (Ok None, emit (EvGit ["remote"]) st1)
    ∧ link_github_repo s w get_repo_name st1
      = (Ok None, emit (EvGit ["remote"]) st1).
Proof.
  intros Hb Hd Hr Hg Ho Hy Hapi repo_name url Hfree Hadd.
  eexists. split; [|split; [|split]].
  - unfold create_github_repo.
    erewrite bind_ok; [|by eapply git_remote_run]. rewrite Ho.
    erewrite bind_ok; [|by apply ask_yes_no_run]. rewrite Hy.
    fold repo_name.
    erewrite bind_ok.
    2:{ unfold try_except. by rewrite user_create_repo_run. }
    fold url.
    erewrite bind_ok; [|by eapply git_remote_add_run].
    erewrite bind_ok.
    2:{ apply call_git_push_run; [done|]. by apply root_dir_insert_repo. }
    reflexivity.
  - done.
  - done.
  - apply (origin_configured get_repo_name _ history
             (remotes ++ [("origin", url)])); simpl; try done.
    + by apply root_dir_insert_repo.
    + apply lookup_insert_eq.
    + rewrite fmap_app. apply has_origin_added.
Qed.

(** X11: when the user confirms, the repository is on the account and
    the tool does not fail, [link_github_repo] adds it as [origin],
    fetches, pulls, pushes with upstream tracking, in this order, and
    returns it; nothing is created on the account. *)
Theorem link_repo_succeeds get_repo_name st history remotes :
  budget st = None →
  is_dir_node (node_at (fs st) (path s)) = true →
  fs st !! repo_path s = Some (GitDir history remotes) →
  has_origin (Str.join nl remotes.*1) = false →
  yes_no w "Would you like to link an existing GitHub repo to it? (Y/n)" true = true →
  api_fault w = None →
  let repo_name := choose_repo_name s get_repo_name in
  let url := html_url w repo_name in
  repo_name ∈ hosted st →
  git_fault w ["remote"] = None →
  git_fault w ["remote"; "add"; "origin"; url] = None →
  git_fault w ["fetch"] = None →
  git_fault w ["pull"; "origin"; "master"] = None →
  git_fault w ["push"; "--set-upstream"; "origin"; "master"] = None →
  ∃ st1,
    link_github_repo s w get_repo_name st = (Ok (Some url), st1)
    ∧ hosted st1 = hosted st
    ∧ fs st1 = <[repo_path s := GitDir history (remotes ++ [("origin", url)])]> (fs st)
    ∧ out st1 = EvPrint ("Linked and pushed to GitHub repo: " +:+ url)
                  :: EvGit ["push"; "--set-upstream"; "origin"; "master"]
                  :: EvGit ["pull"; "origin"; "master"]
                  :: EvGit ["fetch"]
                  :: EvGit ["remote"; "add"; "origin"; url]
                  :: EvPrompt "Would you like to link an existing GitHub repo to it? (Y/n)" "y"
                  :: EvGit ["remote"] :: out st.
Proof.
  intros Hb Hd Hr Ho Hy Hapi repo_name url Hin Hg1 Hg2 Hg3 Hg4 Hg5.
  eexists. split; [|split; [|split]].
  - unfold link_github_repo.
    erewrite bind_ok; [|by eapply git_remote_run]. rewrite Ho.
    erewrite bind_ok; [|by apply ask_yes_no_run]. rewrite Hy.
    fold repo_name.
    erewrite bind_ok; [|by apply user_get_repo_run]. fold url.
    erewrite bind_ok; [|by eapply git_remote_add_run].
    set (st2 := set_fs _ _).
    assert (fs st2 !! repo_path s
            = Some (GitDir history (remotes ++ [("origin", url)]))) as Hr2
      by apply lookup_insert_eq.
    assert (is_dir_node (node_at (fs st2) (path s)) = true) as Hd2
      by by apply root_dir_insert_repo.
    erewrite bind_ok; [|by eapply git_plain_run].
    erewrite bind_ok.
    2:{ unfold try_except, git_pull. by erewrite git_plain_run. }
    erewrite bind_ok.
    2:{ unfold git_push. simpl app. by erewrite git_plain_run. }
    reflexivity.
  - done.
  - done.
  - done.
Qed.

(** X12: a user who declines is left alone: [create_github_repo] and
    [link_github_repo] list the remotes, ask, and return nothing;
    [force_push] asks and returns nothing; no repository is created or
    looked up, nothing is added, fetched, pulled or pushed. *)
Theorem declined_remote_steps get_repo_name st history remotes :
  budget st = None →
  is_dir_node (node_at (fs st) (path s)) = true →
  fs st !! repo_path s = Some (GitDir history remotes) →
  git_fault w ["remote"] = None →
  has_origin (Str.join nl remotes.*1) = false →
  let create := "Would you like to create a GitHub repo for it? (Y/n)" in
  let link := "Would you like to link an existing GitHub repo to it? (Y/n)" in
  let force :=
    "Are you sure you want to overwrite the remote github repo? "
    +:+ "This cannot be undone and you will lose your commit "
    +:+ "history! (y/N)" in
  (yes_no w create true = false →
   create_github_repo s w get_repo_name st
   = (Ok None, emit (EvPrompt create "n") (emit (EvGit ["remote"]) st)))
  ∧ (yes_no w link true = false →
     link_github_repo s w get_repo_name st
     = (Ok None, emit (EvPrompt link "n") (emit (EvGit ["remote"]) st)))
  ∧ (yes_no w force false = false →
     force_push s w get_repo_name st = (Ok None, emit (EvPrompt force "n") st)).
Proof.
  intros Hb Hd Hr Hg Ho create link force. split; [|split]; intros Hno.
  - unfold create_github_repo.
    erewrite bind_ok; [|by eapply git_remote_run]. rewrite Ho.
    erewrite bind_ok; [|by apply ask_yes_no_run].
    fold create. by rewrite Hno.
  - unfold link_github_repo.
    erewrite bind_ok; [|by eapply git_remote_run]. rewrite Ho.
    erewrite bind_ok; [|by apply ask_yes_no_run].
    fold link. by rewrite Hno.
  - unfold force_push. fold force.
    erewrite bind_ok; [|by apply ask_yes_no_run].
    by rewrite Hno.
Qed.

(** X13: [force_push], once confirmed, looks the repository up before it
    pushes: for a name the account does not have, the lookup raises and
    nothing is pushed; for one it has, the push is forced. *)
Theorem force_push_confirmed get_repo_name st history remotes :
  budget st = None →
  is_dir_node (node_at (fs st) (path s)) = true →
  fs st !! repo_path s = Some (GitDir history remotes) →
  api_fault w = None →
  let message :=
    "Are you sure you want to overwrite the remote github repo? "
    +:+ "This cannot be undone and you will lose your commit "
    +:+ "history! (y/N)" in
  yes_no w message false = true →
  let repo_name := choose_repo_name s get_repo_name in
  (repo_name ∉ hosted st →
   force_push s w get_repo_name st
   = (Raise (GithubException 404), emit (EvPrompt message "y") st))
  ∧ (repo_name ∈ hosted st →
     git_fault w ["push"; "--force"; "origin"; "master"] = None →
     force_push s w get_repo_name st
     = (Ok (Some (html_url w repo_name)),
        emit (EvPrint ("Force pushed to GitHub repo: " +:+ html_url w repo_name))
          (emit (EvGit ["push"; "--force"; "origin"; "master"])
             (emit (EvPrompt message "y") st)))).
Proof.
  intros Hb Hd Hr Hapi message Hy repo_name. split.
  - intros Hfree. unfold force_push. fold message.
    erewrite bind_ok; [|by apply ask_yes_no_run]. rewrite Hy.
    fold repo_name. erewrite bind_raise; [done|].
    unfold user_get_repo. rewrite hosting_run by done. unfold bind, gets.
    by rewrite bool_decide_eq_false_2.
  - intros Hin Hpush. unfold force_push. fold message.
    erewrite bind_ok; [|by apply ask_yes_no_run]. rewrite Hy.
    fold repo_name.
    erewrite bind_ok; [|by apply user_get_repo_run].
    erewrite bind_ok.
    2:{ unfold git_push. simpl app. by erewrite git_plain_run. }
    done.
Qed.

End RemoteRuns.

(** Witnesses: the scenario's project after its first commit, with a user
    who confirms (on an account without the repository, then with it) and
    with one who declines *)
Lemma create_repo_configures_origin_witness :
  let st := snd (commit_changes siren eager
                   (snd (initialize_template some_camel siren eager None (boot None)))) in
  fst (create_github_repo siren eager None st)
  = Ok (Some "https://github.com/jane/siren-alarm-skill").
Proof.
  intros st.
  destruct (create_repo_configures_origin siren eager None st ["Initial commit"] []
              ltac:(vm_compute; reflexivity) ltac:(vm_compute; reflexivity)
              ltac:(vm_compute; reflexivity) eq_refl eq_refl eq_refl eq_refl
              ltac:(vm_compute; discriminate) eq_refl)
    as (st1 & Hrun & _).
  by rewrite Hrun.
Defined.

Lemma link_repo_succeeds_witness :
  let st := snd (commit_changes siren eager
                   (snd (initialize_template some_camel siren eager None taken))) in
  fst (link_github_repo siren eager None st)
  = Ok (Some "https://github.com/jane/siren-alarm-skill").
Proof.
  intros st.
  destruct (link_repo_succeeds siren eager None st ["Initial commit"] []
              ltac:(vm_compute; reflexivity) ltac:(vm_compute; reflexivity)
              ltac:(vm_compute; reflexivity) eq_refl eq_refl eq_refl
              ltac:(vm_compute; reflexivity) eq_refl eq_refl eq_refl eq_refl eq_refl)
    as (st1 & Hrun & _).
  by rewrite Hrun.
Defined.

Lemma declined_remote_steps_witness :
  let st := snd (commit_changes siren (user "")
                   (snd (initialize_template some_camel siren (user "") None (boot None)))) in
  fst (create_github_repo siren (user "") None st) = Ok None.
Proof.
  intros st.
  rewrite (proj1 (declined_remote_steps siren (user "") None st ["Initial commit"] []
                    ltac:(vm_compute; reflexivity) ltac:(vm_compute; reflexivity)
                    ltac:(vm_compute; reflexivity) eq_refl eq_refl) eq_refl).
  reflexivity.
Defined.

Lemma force_push_confirmed_witness :
  let st := snd (commit_changes siren eager
                   (snd (initialize_template some_camel siren eager None (boot None)))) in
  fst (force_push siren eager None st) = Raise (GithubException 404).
Proof.
  intros st.
  rewrite (proj1 (force_push_confirmed siren eager None st ["Initial commit"] []
                    ltac:(vm_compute; reflexivity) ltac:(vm_compute; reflexivity)
                    ltac:(vm_compute; reflexivity) eq_refl eq_refl)
             ltac:(vm_compute; discriminate)).
  reflexivity.
Defined.

(** ** What the scaffold leaves alone inside the project *)

#[local] Instance unchanged_under_preorder q : PreOrder (unchanged_under q).
Proof.
  split; [done|]. intros x y z Hxy Hyz p Hp. by rewrite Hyz, Hxy.
Qed.

Lemma unchanged_under_same q st st' : fs st' = fs st → unchanged_under q st st'.
Proof. intros H p _. by rewrite H. Qed.

Lemma unchanged_under_insert q x n st :
  ¬ q `prefix_of` x → unchanged_under q st (set_fs (insert x n) st).
Proof. intros Hx p Hp. simpl. apply lookup_insert_ne. by intros ->. Qed.

(** The directories [makedirs] may make are prefixes of its argument *)
Lemma ancestors_prefix base d x :
  x ∈ ancestors_from base d → ∃ k, x = (base ++ k)%list ∧ k ≠ [] ∧ k `prefix_of` d.
Proof.
  revert base. induction d as [|c d IH]; intros base; simpl.
  - by intros ?%elem_of_nil.
  - destruct d as [|c' d]; [by intros ?%elem_of_nil|].
    intros [->|Hin]%elem_of_cons.
    + exists [c]. split; [done|]. split; [done|]. by apply prefix_cons, prefix_nil.
    + apply IH in Hin as (k & -> & Hk & Hpre).
      exists (c :: k). split; [by rewrite <- app_assoc|]. split; [done|].
      by apply prefix_cons.
Qed.

Lemma mkdir_under q x : ¬ q `prefix_of` x → preserves (unchanged_under q) (mkdir x).
Proof.
  intros Hx. unfold mkdir. preserve.
  all: try (intros; by apply unchanged_under_same).
  all: by apply unchanged_under_insert.
Qed.

Lemma makedirs_under q d :
  ¬ q `prefix_of` d → preserves (unchanged_under q) (makedirs d).
Proof.
  intros Hd. unfold makedirs. apply preserves_bind; [apply _| |].
  - apply preserves_for_each_in; [apply _|]. intros x Hx.
    apply ancestors_prefix in Hx as (k & -> & _ & Hk). simpl.
    apply preserves_bind; [apply _|apply preserves_gets; apply _|].
    intros there. apply preserves_when; [apply _|]. apply mkdir_under.
    intros Hq. apply Hd. by etrans.
  - intros _. by apply mkdir_under.
Qed.

Lemma write_file_under q x content :
  ¬ q `prefix_of` x → preserves (unchanged_under q) (write_file x content).
Proof.
  intros Hx. unfold write_file. preserve.
  all: try (intros; by apply unchanged_under_same).
  all: by apply unchanged_under_insert.
Qed.

Lemma app_prefix_inv (root a b : list string) :
  (root ++ a)%list `prefix_of` (root ++ b)%list → a `prefix_of` b.
Proof. apply prefix_app_inv. Qed.

Lemma not_prefix_root (root a : list string) :
  a ≠ [] → ¬ (root ++ a)%list `prefix_of` root.
Proof.
  intros Ha Hp. apply prefix_length in Hp. rewrite length_app in Hp.
  destruct a; [done|]. simpl in Hp. lia.
Qed.


Lemma open_w_under q x : ¬ q `prefix_of` x → preserves (unchanged_under q) (open_w x).
Proof.
  intros Hx. unfold open_w. preserve.
  all: try (intros; by apply unchanged_under_same).
  all: by apply unchanged_under_insert.
Qed.

Lemma f_write_under q x content :
  ¬ q `prefix_of` x → preserves (unchanged_under q) (f_write x content).
Proof.
  intros Hx. unfold f_write. preserve.
  all: try (intros; by apply unchanged_under_same).
  all: by apply unchanged_under_insert.
Qed.

(** Below the root, paths that start with different names *)
Lemma other_name_below (root : list string) file name rest :
  name ≠ file → ¬ (root ++ [file])%list `prefix_of` (root ++ name :: rest)%list.
Proof.
  intros Hne Hp. apply prefix_app_inv in Hp.
  apply prefix_cons_inv_1 in Hp. congruence.
Qed.

Lemma other_name_below' (root : list string) file name rest :
  name ≠ file → ¬ (root ++ [file])%list `prefix_of` ((root ++ [name]) ++ rest)%list.
Proof. rewrite <- app_assoc. apply other_name_below. Qed.


Ltac under_leaves :=
  first
    [ by intros; apply unchanged_under_same
    | apply unchanged_under_insert; by apply other_name_below
    | apply unchanged_under_insert; by apply other_name_below' ].

Section Inside.

Variable to_camel : string → string.
Variable s : answers.
Variable w : world.

Lemma write_entry_under file name body :
  name ≠ file →
  preserves (unchanged_under (path s ++ [file])%list) (write_entry s name body).
Proof.
  intros Hne. unfold write_entry. destruct (String.eqb name "").
  - apply preserves_raise. apply _.
  - apply write_file_under. by apply (other_name_below _ _ _ []).
Qed.

Lemma license_under file :
  "LICENSE.md" ≠ file →
  preserves (unchanged_under (path s ++ [file])%list) (license s w).
Proof.
  intros Hne. unfold license, copy.
  repeat first
    [ apply write_file_under;
      match goal with
      | |- context [if ?b then _ else _] => destruct b
      | _ => idtac
      end; unfold license_path;
      first [by apply (other_name_below _ _ _ [])|by apply other_name_below']
    | preserve_step
    | progress unfold isdir, print, ask_input ].
  all: by intros; apply unchanged_under_same.
Qed.

Lemma add_lines_under {A} file kind name (a : A) (content : A → string) :
  kind ≠ file →
  preserves (unchanged_under (path s ++ [file])%list)
    (makedirs (path s ++ [kind; lang s]) ;;
     open_w (path s ++ [kind; lang s; name]) ;;
     x <- read_lazy a ;;
     f_write (path s ++ [kind; lang s; name]) (content x)).
Proof.
  intros Hne.
  apply preserves_bind; [apply _|apply makedirs_under; by apply other_name_below|].
  intros _.
  apply preserves_bind; [apply _|apply open_w_under; by apply other_name_below|].
  intros _. apply preserves_bind; [apply _| |].
  - unfold read_lazy. preserve. by intros; apply unchanged_under_same.
  - intros x. apply f_write_under. by apply other_name_below.
Qed.

Lemma git_init_under file :
  ".git" ≠ file →
  preserves (unchanged_under (path s ++ [file])%list) (git_init s w).
Proof.
  intros Hne. unfold git_init, git_cmd, in_workdir. preserve.
  all: try (by intros; apply unchanged_under_same).
  all: apply unchanged_under_insert; unfold repo_path;
    by apply (other_name_below _ _ _ []).
Qed.

(** The producer of an entry leaves the subtree of every other name
    alone *)
Lemma producer_under file name producer :
  (name, producer) ∈ skill_template to_camel s w →
  name ≠ file →
  preserves (unchanged_under (path s ++ [file])%list) producer.
Proof.
  intros Hin Hne. unfold skill_template in Hin.
  repeat (apply elem_of_cons in Hin as [[= -> ->]|Hin]);
    [..|by apply elem_of_nil in Hin].
  - unfold action. apply preserves_bind; [apply _| |intros _; apply preserves_ret; apply _].
    apply makedirs_under. by apply not_prefix_root.
  - unfold action. apply preserves_bind; [apply _| |intros _; apply preserves_ret; apply _].
    by apply add_lines_under.
  - unfold action. apply preserves_bind; [apply _| |intros _; apply preserves_ret; apply _].
    by apply add_lines_under.
  - unfold text. preserve. by intros; apply unchanged_under_same.
  - unfold text. preserve. by intros; apply unchanged_under_same.
  - unfold action. apply preserves_bind; [apply _| |intros _; apply preserves_ret; apply _].
    by apply license_under.
  - unfold text. preserve. by intros; apply unchanged_under_same.
  - unfold text. preserve. by intros; apply unchanged_under_same.
  - apply preserves_bind; [apply _| |intros r; apply preserves_ret; apply _].
    by apply git_init_under.
Qed.

(** An entry leaves the subtree of every other name alone, and its own
    when [files] excludes it *)
Lemma run_entry_under files entry file :
  entry ∈ skill_template to_camel s w →
  entry.1 ≠ file ∨ restricted files entry.1 = true →
  preserves (unchanged_under (path s ++ [file])%list)
    (run_entry s files entry).
Proof.
  intros Hin Hother. destruct entry as [name producer]. simpl in Hother.
  unfold run_entry. destruct (restricted files name) eqn:Hr.
  { apply preserves_ret. apply _. }
  destruct Hother as [Hne|?]; [|done].
  assert (preserves (unchanged_under (path s ++ [file])%list)
            (entry_exists s name)) as Hex.
  { unfold entry_exists, isdir, exists_.
    destruct (String.eqb name ""); apply preserves_gets; apply _. }
  apply preserves_bind; [apply _|exact Hex|]. intros there.
  apply preserves_when; [apply _|].
  apply preserves_bind; [apply _|by eapply producer_under|]. intros [body|].
  - apply preserves_bind; [apply _|exact Hex|]. intros there'.
    apply preserves_when; [apply _|]. by apply write_entry_under.
  - apply preserves_ret. apply _.
Qed.


End Inside.


(** ** What a completed scaffold holds *)

Section Written.

Variable to_camel : string → string.
Variable s : answers.
Variable w : world.

Lemma text_fs body st r st' : text body st = (r, st') → fs st' = fs st.
Proof.
  destruct st as [m e c h o b]. unfold text, bind, tick, ret. simpl.
  destruct b as [[|n]|]; by intros [= <- <-].
Qed.

(** An entry with text for a result, run without its file: the file
    holds the text *)
Lemma run_entry_writes file body st st' :
  String.eqb file "" = false →
  fs st !! (path s ++ [file])%list = None →
  run_entry s None (file, text body) st = (Ok tt, st') →
  fs st' !! (path s ++ [file])%list = Some (File body).
Proof.
  intros Hfile Hnone. unfold run_entry, entry_exists, write_entry. simpl.
  rewrite Hfile.
  intros (there & st1 & Hex & Hrest)%bind_ok_inv.
  rewrite exists_below in Hex. injection Hex as <- <-.
  rewrite bool_decide_eq_false_2 in Hrest by (rewrite Hnone; by intros [? ?]).
  simpl in Hrest.
  apply bind_ok_inv in Hrest as (r & st1 & Hp & Hrest).
  pose proof (text_fs _ _ _ _ Hp) as Hfs.
  unfold text in Hp. apply bind_ok_inv in Hp as ([] & st0 & _ & [= <- <-]).
  apply bind_ok_inv in Hrest as (there & st2 & Hex & Hrest).
  rewrite exists_below in Hex. injection Hex as <- <-.
  rewrite bool_decide_eq_false_2 in Hrest
    by (rewrite Hfs, Hnone; by intros [? ?]).
  simpl in Hrest. by apply write_file_ok in Hrest.
Qed.

(** The loop over entries none of which has the name [file] *)
Lemma entries_under files (l : list (string * M (option string))) file :
  l ⊆ skill_template to_camel s w → file ∉ l.*1 →
  preserves (unchanged_under (path s ++ [file])%list)
    (for_each l (run_entry s files)).
Proof.
  intros Hsub Hfile. apply preserves_for_each_in; [apply _|].
  intros entry Hin. apply (run_entry_under to_camel s w); [by apply Hsub|].
  left. intros Heq. apply Hfile. apply list_elem_of_fmap. by exists entry.
Qed.

Lemma initialize_template_loop files st r st' :
  initialize_template to_camel s w files st = (r, st') →
  ∃ st1 r1 st2,
    fs st1 = fs st
    ∧ for_each (skill_template to_camel s w) (run_entry s files) st1 = (r1, st2)
    ∧ fs st' = fs st2
    ∧ (r = Ok tt → r1 = Ok tt).
Proof.
  unfold initialize_template. intros Hrun.
  apply bind_inv in Hrun as [(id & st1 & [= <- <-] & Hrun)|(e & [=] & _)].
  apply bind_inv in Hrun as [(there & st2 & [= <- <-] & Hrun)|(e & [=] & _)].
  apply bind_inv in Hrun as [([] & st3 & Hreg & Hrun)|(e & Hreg & _)].
  2:{ destruct (negb _); discriminate Hreg. }
  assert (fs st3 = fs st) as Hfs3.
  { destruct (negb _); by injection Hreg as <-. }
  apply bind_inv in Hrun as [([] & st4 & Hloop & Hun)|(e & Hloop & ->)].
  - injection Hun as <- <-. by exists st3, (Ok tt), st4.
  - exists st3, (Raise e), st'. by repeat split.
Qed.

(** One entry of the template with text for a result, in a completed
    run: a file that was there is kept as it was, a missing one holds the
    text *)
Lemma text_entry_kept_or_written pre post file body st st' :
  skill_template to_camel s w = (pre ++ (file, text body) :: post)%list →
  file ∉ pre.*1 → file ∉ post.*1 → String.eqb file "" = false →
  initialize_template to_camel s w None st = (Ok tt, st') →
  fs st' !! (path s ++ [file])%list
  = match fs st !! (path s ++ [file])%list with
    | Some n => Some n
    | None => Some (File body)
    end.
Proof.
  intros Hl Hpre Hpost Hfile Hrun.
  apply initialize_template_loop in Hrun
    as (st1 & r1 & st2 & Hfs1 & Hloop & Hfs2 & Hok).
  rewrite (Hok eq_refl) in Hloop. rewrite Hfs2, <- Hfs1. clear Hfs1 Hfs2 Hok.
  assert (pre ⊆ skill_template to_camel s w) as Hsub1.
  { rewrite Hl. intros x Hx. apply elem_of_app. by left. }
  assert (post ⊆ skill_template to_camel s w) as Hsub2.
  { rewrite Hl. intros x Hx. apply elem_of_app. right. by right. }
  rewrite Hl in Hloop. rewrite for_each_app in Hloop.
  apply bind_ok_inv in Hloop as ([] & sta & Hbefore & Hloop).
  rewrite for_each_cons in Hloop.
  apply bind_ok_inv in Hloop as ([] & stb & Hentry & Hafter).
  apply (entries_under None pre file Hsub1 Hpre) in Hbefore.
  apply (entries_under None post file Hsub2 Hpost) in Hafter.
  rewrite (Hafter (path s ++ [file])%list) by done.
  rewrite <- (Hbefore (path s ++ [file])%list) by done.
  destruct (fs sta !! (path s ++ [file])%list) as [n|] eqn:Hn.
  - rewrite run_entry_present in Hentry.
    + by injection Hentry as <-.
    + rewrite Hfile. by rewrite Hn.
  - by eapply run_entry_writes.
Qed.

Lemma template_names :
  (skill_template to_camel s w).*1
  = [""; "vocab"; "dialog"; "__init__.py"; "README.md"; "LICENSE.md";
     ".gitignore"; "settingsmeta.yaml"; ".git"].
Proof. reflexivity. Qed.

Ltac other_names n :=
  first [rewrite fmap_take|rewrite fmap_drop]; rewrite template_names;
  cbn [take drop];
  let Hin := fresh in
  intros Hin;
  repeat (apply elem_of_cons in Hin as [[=]|Hin]);
  by apply elem_of_nil in Hin.

(** X15: in a completed run of the whole template each of the four
    entries with text for a result leaves its file as it was if it was
    there, and holding the rendered text if it was not: the handler stub,
    the README, the ignore list and the settings description. *)
Theorem text_entries_kept_or_written st st' :
  initialize_template to_camel s w None st = (Ok tt, st') →
  let kept_or body p :=
    fs st' !! p = match fs st !! p with
                  | Some n => Some n
                  | None => Some (File body)
                  end in
  kept_or (init_file to_camel (set_iter w) s) (path s ++ ["__init__.py"])%list
  ∧ kept_or (readme s) (path s ++ ["README.md"])%list
  ∧ kept_or gitignore_template (path s ++ [".gitignore"])%list
  ∧ kept_or settingsmeta_template (path s ++ ["settingsmeta.yaml"])%list.
Proof.
  intros Hrun kept_or. subst kept_or. cbv beta.
  split; [|split; [|split]].
  - apply (text_entry_kept_or_written
             (take 3 (skill_template to_camel s w))
             (drop 4 (skill_template to_camel s w)));
      [reflexivity|other_names 3|other_names 4|reflexivity|exact Hrun].
  - apply (text_entry_kept_or_written
             (take 4 (skill_template to_camel s w))
             (drop 5 (skill_template to_camel s w)));
      [reflexivity|other_names 4|other_names 5|reflexivity|exact Hrun].
  - apply (text_entry_kept_or_written
             (take 6 (skill_template to_camel s w))
             (drop 7 (skill_template to_camel s w)));
      [reflexivity|other_names 6|other_names 7|reflexivity|exact Hrun].
  - apply (text_entry_kept_or_written
             (take 7 (skill_template to_camel s w))
             (drop 8 (skill_template to_camel s w)));
      [reflexivity|other_names 7|other_names 8|reflexivity|exact Hrun].
Qed.

End Written.

Lemma text_entries_kept_or_written_witness :
  let st := snd (write_file (path siren ++ ["README.md"])%list "my notes"
                   (snd (makedirs (path siren) (boot None)))) in
  let st' := snd (initialize_template some_camel siren (user "") None st) in
  fs st' !! (path siren ++ ["README.md"])%list = Some (File "my notes")
  ∧ fs st' !! (path siren ++ [".gitignore"])%list = Some (File gitignore_template).
Proof.
  intros st st'.
  assert (initialize_template some_camel siren (user "") None st = (Ok tt, st')) as Hrun.
  { assert (fst (initialize_template some_camel siren (user "") None st) = Ok tt)
      as Hok by (vm_compute; reflexivity).
    exact (run_eq (initialize_template some_camel siren (user "") None) st
             (Ok tt) Hok). }
  pose proof (text_entries_kept_or_written some_camel siren (user "") st st' Hrun) as H.
  cbv beta zeta in H.
  destruct H as (_ & Hreadme & Hignore & _).
  split.
  - rewrite Hreadme.
    replace (fs st !! (path siren ++ ["README.md"])%list)
      with (Some (File "my notes")) by (vm_compute; reflexivity).
    reflexivity.
  - rewrite Hignore.
    replace (fs st !! (path siren ++ [".gitignore"])%list)
      with (@None node) by (vm_compute; reflexivity).
    reflexivity.
Defined.

(** ** The files of lines, however [add_vocab] ends *)

Section Lines.

Variable s : answers.

Lemma lines_file_states {A} kind name (a : A) (content : A → string) st r st' :
  let p := (path s ++ [kind; lang s; name])%list in
  (makedirs (path s ++ [kind; lang s]) ;;
   open_w p ;;
   x <- read_lazy a ;;
   f_write p (content x)) st = (r, st') →
  (r = Ok tt → fs st' !! p = Some (File (content a)))
  ∧ (∀ e, r = Raise e →
       fs st' !! p = fs st !! p ∨ fs st' !! p = Some (File ""))
  ∧ (∀ st1 st2,
       makedirs (path s ++ [kind; lang s]) st = (Ok tt, st1) →
       open_w p st1 = (Ok tt, st2) →
       budget st2 = Some 0 →
       r = Raise KeyboardInterrupt ∧ fs st' !! p = Some (File "")).
Proof.
  intros p Hrun.
  assert (¬ p `prefix_of` (path s ++ [kind; lang s])%list) as Hp.
  { subst p. intros Hpre%prefix_length. rewrite !length_app in Hpre.
    simpl in Hpre. lia. }
  split; [|split].
  - intros ->. apply bind_ok_inv in Hrun as ([] & st1 & _ & Hw).
    by apply lines_written in Hw.
  - intros e ->.
    apply bind_inv in Hrun as [([] & st1 & Hmk & Hrest)|(e' & Hmk & _)].
    2:{ left. by apply (makedirs_under p _ Hp _ _ _ Hmk). }
    apply (makedirs_under p _ Hp) in Hmk. rewrite <- (Hmk p) by done.
    apply bind_inv in Hrest as [([] & st2 & Hopen & Hrest)|(e' & Hopen & _)].
    2:{ left. apply open_w_inv in Hopen as [(e2 & _ & ->)|([=] & _)]. done. }
    apply open_w_inv in Hopen as [(e2 & [=] & _)|(_ & Hfs & _)].
    apply bind_inv in Hrest as [(x & st3 & Hlazy & Hw)|(e' & Hlazy & _)].
    { unfold f_write, bind, modify in Hw. discriminate Hw. }
    right. apply read_lazy_fs in Hlazy. rewrite Hlazy, Hfs.
    apply lookup_insert_eq.
  - intros st1 st2 Hmk Hopen Hb.
    erewrite bind_ok in Hrun by exact Hmk.
    erewrite bind_ok in Hrun by exact Hopen.
    apply open_w_inv in Hopen as [(e2 & [=] & _)|(_ & Hfs & _)].
    unfold read_lazy, bind at 1, bind at 1, tick in Hrun. rewrite Hb in Hrun.
    injection Hrun as <- <-. split; [done|]. rewrite Hfs.
    apply lookup_insert_eq.
Qed.

(** X16: the vocabulary file is never left half written.  When
    [add_vocab] completes it holds the lines; when [add_vocab] raises it
    is as it was or is an empty file; and an interrupt at the prompt for
    the phrases, which comes with the file open, leaves it empty.  The
    same holds of [add_dialog] and the dialog file. *)
Theorem lines_files_never_partial st r st' :
  (add_vocab s st = (r, st') →
   (r = Ok tt → fs st' !! vocab_file s
                = Some (File (Str.join nl (intent_lines s ++ [""])%list)))
   ∧ (∀ e, r = Raise e →
        fs st' !! vocab_file s = fs st !! vocab_file s
        ∨ fs st' !! vocab_file s = Some (File ""))
   ∧ (∀ st1 st2,
        makedirs (path s ++ ["vocab"; lang s]) st = (Ok tt, st1) →
        open_w (vocab_file s) st1 = (Ok tt, st2) →
        budget st2 = Some 0 →
        r = Raise KeyboardInterrupt ∧ fs st' !! vocab_file s = Some (File "")))
  ∧ (add_dialog s st = (r, st') →
     (r = Ok tt → fs st' !! dialog_file s
                  = Some (File (Str.join nl (dialog_lines s ++ [""])%list)))
     ∧ (∀ e, r = Raise e →
          fs st' !! dialog_file s = fs st !! dialog_file s
          ∨ fs st' !! dialog_file s = Some (File ""))
     ∧ (∀ st1 st2,
          makedirs (path s ++ ["dialog"; lang s]) st = (Ok tt, st1) →
          open_w (dialog_file s) st1 = (Ok tt, st2) →
          budget st2 = Some 0 →
          r = Raise KeyboardInterrupt ∧ fs st' !! dialog_file s = Some (File ""))).
Proof.
  split; intros Hrun.
  - exact (lines_file_states "vocab" (intent_name (name s) +:+ ".intent")
             (intent_lines s) (λ lines, Str.join nl (lines ++ [""])%list)
             st r st' Hrun).
  - exact (lines_file_states "dialog" (intent_name (name s) +:+ ".dialog")
             (dialog_lines s) (λ lines, Str.join nl (lines ++ [""])%list)
             st r st' Hrun).
Qed.

End Lines.

Lemma lines_files_never_partial_witness :
  let st := set_budget (Some 3) (snd (makedirs (path siren) (boot None))) in
  fst (add_vocab siren st) = Raise KeyboardInterrupt
  ∧ fs (snd (add_vocab siren st)) !! vocab_file siren = Some (File "").
Proof.
  intros st.
  set (st1 := snd (makedirs (path siren ++ ["vocab"; lang siren]) st)).
  set (st2 := snd (open_w (vocab_file siren) st1)).
  assert (fst (makedirs (path siren ++ ["vocab"; lang siren]) st) = Ok tt) as H1
    by (vm_compute; reflexivity).
  assert (fst (open_w (vocab_file siren) st1) = Ok tt) as H2
    by (vm_compute; reflexivity).
  exact (proj2 (proj2 (proj1 (lines_files_never_partial siren st _ _)
                         (surjective_pairing _)))
           st1 st2
           (run_eq (makedirs (path siren ++ ["vocab"; lang siren])) st (Ok tt) H1)
           (run_eq (open_w (vocab_file siren)) st1 (Ok tt) H2)
           ltac:(vm_compute; reflexivity)).
Defined.

(** ** What a rollback leaves *)

#[local] Instance scoped_preorder root : PreOrder (scoped root).
Proof.
  split.
  - intros st. split; [by left|done].
  - intros x y z [Hxy Rxy] [Hyz Ryz]. split; [|by auto].
    intros p Hp.
    destruct (Hxy p Hp) as [Hsame|(Hnone & Hne & Hpre & Hdir)],
             (Hyz p Hp) as [Hsame'|(Hnone' & Hne' & Hpre' & Hdir')].
    + left. congruence.
    + right. by rewrite <- Hsame.
    + right. by rewrite Hsame'.
    + congruence.
Qed.














Section Rollback.

Variable to_camel : string → string.
Variable s : answers.
Variable w : world.









End Rollback.


